(** * The TypeScript host of the Angular language service

    A shallow embedding of
    [packages/language-service/src/typescript_host.ts]: the symbol
    abstraction layer ([TypeWrapper], [PipeSymbol], [MapSymbolTable],
    [TypeScriptSymbolQuery]), the template locator and the invalidation
    logic of [TypeScriptServiceHost].

    The TypeScript compiler API and the Angular compiler are external to the
    file; they enter as type classes of operations ([TypeChecker],
    [Compiler]).  JavaScript object identity of checker objects is the
    equality of the abstract types of these classes. *)

From stdpp Require Import gmap strings list fin_maps.
From Stdlib Require Import ZArith.

Set Warnings "-register-all,-clear-no-such-hyp".
Local Open Scope string_scope.
Local Open Scope list_scope.
Local Open Scope Z_scope.

(** ** JavaScript values shared by both layers *)

(** A thrown or collected value.  The host only ever reads [e.message],
    [e.line] and [e.column] of it. *)
Record JsError := {
  message : option string;
  line : option Z;
  column : option Z
}.

#[export] Instance JsError_eq_dec : EqDecision JsError.
Proof. solve_decision. Defined.

(** JavaScript truthiness of [e.message]: [undefined] and the empty string
    are falsy. *)
Definition truthy_string (s : option string) : bool :=
  match s with
  | Some m => negb (String.eqb m "")
  | None => false
  end.

(** The completion of a call: a value or a thrown exception. *)
Inductive Outcome (A : Type) : Type :=
| Ret (a : A)
| Throw (e : JsError).
Arguments Ret {A} a.
Arguments Throw {A} e.

Definition Outcome_bind {A B} (m : Outcome A) (k : A -> Outcome B) : Outcome B :=
  match m with
  | Ret a => k a
  | Throw e => Throw e
  end.

Definition mkError (msg : string) : JsError :=
  {| message := Some msg; line := None; column := None |}.

(** [Span] of [./types]. *)
Record Span := { start : Z; end_ : Z }.

#[export] Instance Span_eq_dec : EqDecision Span.
Proof. solve_decision. Defined.

(** [StaticSymbol] of the compiler: a file path and an exported name. *)
Record StaticSymbol := { filePath : string; symbolName : string }.

#[export] Instance StaticSymbol_eq_dec : EqDecision StaticSymbol.
Proof. solve_decision. Defined.

(** Modelled from the spec: the enum [BuiltinType] of [./types], which is
    not part of the sources at hand; the spec lists the built-in literal
    types as any/boolean/null/number/string/undefined/unbound/other. *)
Inductive BuiltinType :=
| Any | String_ | Number | Boolean | Undefined | Null | Unbound | Other.

#[export] Instance BuiltinType_eq_dec : EqDecision BuiltinType.
Proof. solve_decision. Defined.

Definition BuiltinType_to_nat (k : BuiltinType) : nat :=
  match k with
  | Any => 0 | String_ => 1 | Number => 2 | Boolean => 3
  | Undefined => 4 | Null => 5 | Unbound => 6 | Other => 7
  end%nat.

Definition BuiltinType_of_nat (n : nat) : option BuiltinType :=
  match n with
  | 0 => Some Any | 1 => Some String_ | 2 => Some Number | 3 => Some Boolean
  | 4 => Some Undefined | 5 => Some Null | 6 => Some Unbound | 7 => Some Other
  | _ => None
  end%nat.

#[export] Instance BuiltinType_countable : Countable BuiltinType.
Proof.
  apply (inj_countable BuiltinType_to_nat BuiltinType_of_nat).
  intros []; reflexivity.
Defined.

(** ** The symbol abstraction layer *)

(** The synthetic nodes [getBuiltinTypeFromTs] hands to the checker. *)
Inductive SyntheticNode :=
| SynAsExpression_True_Any      (* true as any *)
| SynTrueKeyword
| SynNullKeyword
| SynNumericLiteral             (* inside an expression statement *)
| SynNoSubstitutionTemplateLiteral
| SynVoidExpression_Numeric.    (* void 0 *)

(** What the symbol layer asks of [ts.Type], [ts.Symbol], [ts.Signature]
    and of a [TypeContext] (node, program and checker). *)
Class TypeChecker := {
  tsType : Type;
  tsType_eq_dec :: EqDecision tsType;
  tsSymbol : Type;
  tsSymbol_eq_dec :: EqDecision tsSymbol;
  tsSignature : Type;
  tsSignature_eq_dec :: EqDecision tsSignature;
  TypeContext : Type;
  TypeContext_eq_dec :: EqDecision TypeContext;
  (** [type.symbol] *)
  type_symbol : tsType -> option tsSymbol;
  (** [symbol.name] *)
  symbol_name : tsSymbol -> string;
  (** [(type as any).typeArguments] *)
  type_typeArguments : tsType -> option (list tsType);
  (** [type.getCallSignatures()] *)
  getCallSignatures : tsType -> list tsSignature;
  (** [signature.getReturnType()] *)
  getReturnType : tsSignature -> tsType;
  (** [type.getProperty(name)] *)
  getProperty : tsType -> string -> option tsSymbol;
  (** [context.checker.getTypeAtLocation(setParents(synthetic, context.node))] *)
  getTypeAtSynthetic : TypeContext -> SyntheticNode -> tsType;
  (** [context.checker.getNonNullableType], absent in old compilers *)
  checker_getNonNullableType : TypeContext -> option (tsType -> tsType);
  (** [context.checker.getDeclaredTypeOfSymbol(symbol)] *)
  getDeclaredTypeOfSymbol : TypeContext -> tsSymbol -> option tsType;
  (** [context.checker.getTypeOfSymbolAtLocation(symbol, context.node)] *)
  getTypeOfSymbolAtLocation : TypeContext -> tsSymbol -> option tsType;
  (** [context.program.getSourceFile(filePath)] followed by
      [context.checker.getExportsOfModule(module || symbol)]: [None] when the
      file is unknown, [Some None] when the exports are undefined. *)
  exportsOfFile : TypeContext -> string -> option (option (list tsSymbol));
  (** the constructor of [SymbolWrapper]: an alias symbol is replaced by
      [context.checker.getAliasedSymbol(symbol)] *)
  resolveAlias : TypeContext -> tsSymbol -> tsSymbol
}.

Section SymbolLayer.
Context `{TC : TypeChecker}.

(** [PipeInfo] of [./types]. *)
Record PipeInfo := { pipe_name : string; pipe_symbol : StaticSymbol }.

(** The implementations of the interface [Symbol] in this file.  A
    [DeclaredSymbol] wraps a [SymbolDeclaration] (name, kind, type). *)
Inductive Symbol :=
| TypeWrapper (tsType_ : tsType) (context : TypeContext)
| SymbolWrapper (symbol : tsSymbol) (context : TypeContext)
| DeclaredSymbol (decl_name : string) (decl_kind : string) (decl_type : Symbol)
| PipeSymbol (pipe : PipeInfo) (context : TypeContext).

#[export] Instance PipeInfo_eq_dec : EqDecision PipeInfo.
Proof. solve_decision. Defined.

(** [===] on symbol objects. *)
#[export] Instance Symbol_eq_dec : EqDecision Symbol.
Proof. solve_decision. Defined.

(** The implementations of the interface [Signature].  The wrapped signature
    of an override is whatever [selectSignature] gave, possibly undefined. *)
Inductive Signature :=
| SignatureWrapper (signature : tsSignature) (context : TypeContext)
| SignatureResultOverride (signature : option Signature) (resultType : Symbol).

(** [function getTypeParameterOf(type, name)] *)
Definition getTypeParameterOf (type : option tsType) (name : string) : option tsType :=
  match type with
  | Some t =>
      match type_symbol t with
      | Some s =>
          if String.eqb (symbol_name s) name then
            match type_typeArguments t with
            | Some typeArguments =>
                if (length typeArguments <=? 1)%nat then head typeArguments else None
            | None => None
            end
          else None
      | None => None
      end
  | None => None
  end.

(** [function getBuiltinTypeFromTs(kind, context)] *)
Definition getBuiltinTypeFromTs (kind : BuiltinType) (context : TypeContext)
  : Outcome tsType :=
  match kind with
  | Any => Ret (getTypeAtSynthetic context SynAsExpression_True_Any)
  | Boolean => Ret (getTypeAtSynthetic context SynTrueKeyword)
  | Null => Ret (getTypeAtSynthetic context SynNullKeyword)
  | Number => Ret (getTypeAtSynthetic context SynNumericLiteral)
  | String_ => Ret (getTypeAtSynthetic context SynNoSubstitutionTemplateLiteral)
  | Undefined => Ret (getTypeAtSynthetic context SynVoidExpression_Numeric)
  | Unbound | Other => Throw (mkError "Internal error, unhandled literal kind")
  end.

(** [function selectSignature(type, context, types)] *)
Definition selectSignature (type : tsType) (context : TypeContext) (types : list Symbol)
  : option Signature :=
  match getCallSignatures type with
  | s :: _ => Some (SignatureWrapper s context)
  | [] => None
  end.

(** [function findClassSymbolInContext(type, context)] *)
Definition findClassSymbolInContext (type : StaticSymbol) (context : TypeContext)
  : option tsSymbol :=
  match exportsOfFile context (filePath type) with
  | Some exports =>
      List.find (fun s => String.eqb (symbol_name s) (symbolName type))
                (default [] exports)
  | None => None
  end.

(** [get name()] of [TypeWrapper]:
    [(symbol && symbol.name) || '<anonymous>'] *)
Definition TypeWrapper_name (t : tsType) : string :=
  match type_symbol t with
  | Some s => if String.eqb (symbol_name s) "" then "<anonymous>" else symbol_name s
  | None => "<anonymous>"
  end.

(** [get name()] of each implementation *)
Definition Symbol_name (s : Symbol) : string :=
  match s with
  | TypeWrapper t _ => TypeWrapper_name t
  | SymbolWrapper sym _ => symbol_name sym
  | DeclaredSymbol n _ _ => n
  | PipeSymbol p _ => pipe_name p
  end.

(** [get result()] of each implementation of [Signature] *)
Definition Signature_result (s : Signature) : Symbol :=
  match s with
  | SignatureWrapper sg context => TypeWrapper (getReturnType sg) context
  | SignatureResultOverride _ resultType => resultType
  end.

(** [PipeSymbol.findTransformMethodType(classSymbol)] *)
Definition findTransformMethodType (context : TypeContext) (classSymbol : tsSymbol)
  : option tsType :=
  match getDeclaredTypeOfSymbol context classSymbol with
  | Some classType =>
      match getProperty classType "transform" with
      | Some transform => getTypeOfSymbolAtLocation context transform
      | None => None
      end
  | None => None
  end.

(** [private get tsType()] of [PipeSymbol].  The getter memoizes its value
    in [_tsType]; the value depends on the pipe and its context only, so
    the embedding recomputes it. *)
Definition PipeSymbol_tsType (pipe : PipeInfo) (context : TypeContext) : Outcome tsType :=
  let type :=
    match findClassSymbolInContext (pipe_symbol pipe) context with
    | Some classSymbol => findTransformMethodType context classSymbol
    | None => None
    end in
  match type with
  | Some t => Ret t
  | None => getBuiltinTypeFromTs Any context
  end.

(** [PipeSymbol.selectSignature(types)] *)
Definition PipeSymbol_selectSignature (pipe : PipeInfo) (context : TypeContext)
    (types : list Symbol) : Outcome (option Signature) :=
  Outcome_bind (PipeSymbol_tsType pipe context) (fun thisTsType =>
  let signature := selectSignature thisTsType context types in
  match types with
  | [TypeWrapper parameterTsType parameterContext] =>
      let parameterName := TypeWrapper_name parameterTsType in
      Outcome_bind
        (if String.eqb (pipe_name pipe) "async" then
           if String.eqb parameterName "Observable"
              || String.eqb parameterName "Promise"
              || String.eqb parameterName "EventEmitter"
           then Ret (getTypeParameterOf (Some parameterTsType) parameterName)
           else Outcome_bind (getBuiltinTypeFromTs Any context) (fun t => Ret (Some t))
         else if String.eqb (pipe_name pipe) "slice" then
           Ret (getTypeParameterOf (Some parameterTsType) "Array")
         else Ret None)
        (fun resultType =>
           match resultType with
           | Some r =>
               Ret (Some (SignatureResultOverride signature
                            (TypeWrapper r parameterContext)))
           | None => Ret signature
           end)
  | _ => Ret signature
  end).

(** *** [class TypeScriptSymbolQuery] *)

(** The fields of the query object the modelled methods touch: the context
    built from [program], [checker] and [source], and the [typeCache]. *)
Record TypeScriptSymbolQuery := {
  query_context : TypeContext;
  typeCache : gmap BuiltinType Symbol
}.

Definition set_typeCache (q : TypeScriptSymbolQuery) (c : gmap BuiltinType Symbol) :=
  {| query_context := query_context q; typeCache := c |}.

(** [getBuiltinType(kind)] *)
Definition getBuiltinType (q : TypeScriptSymbolQuery) (kind : BuiltinType)
  : Outcome Symbol * TypeScriptSymbolQuery :=
  match typeCache q !! kind with
  | Some result => (Ret result, q)
  | None =>
      match getBuiltinTypeFromTs kind (query_context q) with
      | Ret type =>
          let result := TypeWrapper type (query_context q) in
          (Ret result, set_typeCache q (<[kind := result]> (typeCache q)))
      | Throw e => (Throw e, q)
      end
  end.

(** [getTypeUnion(...types)] *)
Definition getTypeUnion (q : TypeScriptSymbolQuery) (types : list Symbol)
  : Outcome Symbol * TypeScriptSymbolQuery :=
  match last types with
  | Some t => (Ret t, q)
  | None => getBuiltinType q Any
  end.

(** [getArrayType(type)] *)
Definition getArrayType (q : TypeScriptSymbolQuery) (type : Symbol)
  : Outcome Symbol * TypeScriptSymbolQuery :=
  getBuiltinType q Any.

(** [getElementType(type)] *)
Definition getElementType (q : TypeScriptSymbolQuery) (type : Symbol) : option Symbol :=
  match type with
  | TypeWrapper t context =>
      match getTypeParameterOf (Some t) "Array" with
      | Some elementType => Some (TypeWrapper elementType context)
      | None => None
      end
  | _ => None
  end.

(** [getNonNullableType(symbol)] *)
Definition getNonNullableType (q : TypeScriptSymbolQuery) (symbol : Symbol)
  : Outcome Symbol * TypeScriptSymbolQuery :=
  match symbol with
  | TypeWrapper tsType_ context =>
      match checker_getNonNullableType (query_context q) with
      | Some nonNullable =>
          let nonNullableType := nonNullable tsType_ in
          if decide (nonNullableType <> tsType_)
          then (Ret (TypeWrapper nonNullableType context), q)
          else getBuiltinType q Any
      | None => getBuiltinType q Any
      end
  | _ => getBuiltinType q Any
  end.

(** *** [class MapSymbolTable] *)

Record MapSymbolTable := {
  map_ : gmap string Symbol;
  _values : list Symbol
}.

(** [new MapSymbolTable()] *)
Definition MapSymbolTable_new : MapSymbolTable :=
  {| map_ := ∅; _values := [] |}.

(** [get size()] *)
Definition MapSymbolTable_size (t : MapSymbolTable) : nat := size (map_ t).

(** [get(key)] *)
Definition MapSymbolTable_get (t : MapSymbolTable) (key : string) : option Symbol :=
  map_ t !! key.

(** [has(key)] *)
Definition MapSymbolTable_has (t : MapSymbolTable) (key : string) : bool :=
  bool_decide (is_Some (map_ t !! key)).

(** [values()] *)
Definition MapSymbolTable_values (t : MapSymbolTable) : list Symbol := _values t.

(** [this._values.indexOf(previous)]: the first index holding that object *)
Definition indexOf (l : list Symbol) (x : Symbol) : option nat :=
  fst <$> list_find (fun y => y = x) l.

(** [add(symbol)].  Were [indexOf] to answer -1, the assignment would
    create the property [-1] of the array and leave its elements alone. *)
Definition MapSymbolTable_add (t : MapSymbolTable) (symbol : Symbol) : MapSymbolTable :=
  let values1 :=
    match map_ t !! Symbol_name symbol with
    | Some previous =>
        match indexOf (_values t) previous with
        | Some i => <[i := symbol]> (_values t)
        | None => _values t
        end
    | None => _values t
    end in
  {| map_ := <[Symbol_name symbol := symbol]> (map_ t);
     _values := values1 ++ [symbol] |}.

(** [addAll(symbols)] *)
Definition MapSymbolTable_addAll (t : MapSymbolTable) (symbols : list Symbol)
  : MapSymbolTable :=
  foldl MapSymbolTable_add t symbols.

(** The implementations of the interface [SymbolTable] in this file. *)
Inductive SymbolTable :=
| SymbolTableWrapper (symbols : list tsSymbol) (context : TypeContext)
| MapTable (table : MapSymbolTable)
| PipesTable (pipes : list PipeInfo) (context : TypeContext)
| EmptyTable.

(** [new SymbolWrapper(symbol, context)] *)
Definition SymbolWrapper_new (symbol : tsSymbol) (context : TypeContext) : Symbol :=
  SymbolWrapper (resolveAlias context symbol) context.

(** [values()] of each implementation *)
Definition SymbolTable_values (t : SymbolTable) : list Symbol :=
  match t with
  | SymbolTableWrapper symbols context =>
      map (fun s => SymbolWrapper_new s context) symbols
  | MapTable table => MapSymbolTable_values table
  | PipesTable pipes context => map (fun pipe => PipeSymbol pipe context) pipes
  | EmptyTable => []
  end.

(** [get size()] of each implementation *)
Definition SymbolTable_size (t : SymbolTable) : nat :=
  match t with
  | SymbolTableWrapper symbols _ => length symbols
  | MapTable table => MapSymbolTable_size table
  | PipesTable pipes _ => length pipes
  | EmptyTable => 0
  end.

(** [SymbolDeclaration] of [./types], as far as [DeclaredSymbol] reads it. *)
Record SymbolDeclaration := {
  declaration_name : string;
  declaration_kind : string;
  declaration_type : Symbol
}.

(** [new DeclaredSymbol(declaration)] *)
Definition DeclaredSymbol_new (d : SymbolDeclaration) : Symbol :=
  DeclaredSymbol (declaration_name d) (declaration_kind d) (declaration_type d).

(** [TypeScriptSymbolQuery.createSymbolTable(symbols)] *)
Definition createSymbolTable (symbols : list SymbolDeclaration) : MapSymbolTable :=
  MapSymbolTable_addAll MapSymbolTable_new (map DeclaredSymbol_new symbols).

(** [TypeScriptSymbolQuery.mergeSymbolTable(symbolTables)] *)
Definition mergeSymbolTable (symbolTables : list SymbolTable) : MapSymbolTable :=
  foldl (fun result symbolTable =>
           MapSymbolTable_addAll result (SymbolTable_values symbolTable))
        MapSymbolTable_new symbolTables.

End SymbolLayer.


(* ------------------------------------------------------------------ *)
(** ** Syntax trees of the host language *)

(** The [ts.SyntaxKind]s the file tells apart.  The numeric order of the
    enum matters in [spanAt] only, which asks [kind > LastToken]: literals,
    identifiers and the other tokens are at most [LastToken], every other
    kind is above it. *)
Inductive SyntaxKind :=
| StringLiteral
| NoSubstitutionTemplateLiteral
| Identifier
| OtherToken
| PropertyAssignment
| ObjectLiteralExpression
| CallExpression
| Decorator
| ClassDeclaration
| SourceFileKind
| OtherNode.

#[export] Instance SyntaxKind_eq_dec : EqDecision SyntaxKind.
Proof. solve_decision. Defined.

(** [kind > ts.SyntaxKind.LastToken] *)
Definition afterLastToken (k : SyntaxKind) : bool :=
  match k with
  | StringLiteral | NoSubstitutionTemplateLiteral | Identifier | OtherToken => false
  | _ => true
  end.

(** A [ts.Node] as far as the file reads it.  [text] is [""] on a node that
    carries none: the file reads it off literals and identifiers only, and
    otherwise compares it with ['template'].  [children] are the nodes
    [ts.forEachChild] visits, in its order. *)
Inductive Node := MkNode {
  kind : SyntaxKind;
  pos : Z;
  getStart : Z;
  getEnd : Z;
  text : string;
  name : option Node;
  expression : option Node;
  decorators : option (list Node);
  children : list Node
}.

(** A node together with its [parent] chain, nearest first. *)
Record NodeRef := { node : Node; parents : list Node }.

(** [ts.SourceFile]: the root node and the names of the file. *)
Record SourceFile := {
  fileName : string;
  path : option string;
  root : Node
}.

(** The reference to the root of a file, which has no parent. *)
Definition rootRef (sourceFile : SourceFile) : NodeRef :=
  {| node := root sourceFile; parents := [] |}.

(** [ts.forEachChild(node, cb)]: the first truthy answer of the callback. *)
Definition forEachChild {A} (cb : Node -> option A) (n : Node) : option A :=
  (fix each (cs : list Node) : option A :=
     match cs with
     | [] => None
     | c :: cs' => match cb c with Some r => Some r | None => each cs' end
     end) (children n).

(** [function spanOf(node)] *)
Definition spanOf (n : Node) : Span :=
  {| start := getStart n; end_ := getEnd n |}.

(** [function shrink(span, offset?)] *)
Definition shrink (span : Span) (offset : option Z) : Span :=
  let offset := default 1 offset in
  {| start := start span + offset; end_ := end_ span - offset |}.

(** [TypeScriptServiceHost.stringOf(node)] *)
Definition stringOf (n : Node) : option string :=
  match kind n with
  | NoSubstitutionTemplateLiteral => Some (text n)
  | StringLiteral => Some (text n)
  | _ => None
  end.

(** [TypeScriptServiceHost.findNode(sourceFile, position)]: the inner
    [find] keeps the chain of nodes it came through, which is the [parent]
    chain of the node it answers with. *)
Fixpoint find (position : Z) (ancestors : list Node) (n : Node) {struct n}
  : option NodeRef :=
  if (getStart n <=? position) && (position <? getEnd n) then
    let forEachChild :=
      (fix forEachChild (cs : list Node) : option NodeRef :=
         match cs with
         | [] => None
         | c :: cs' =>
             match find position (n :: ancestors) c with
             | Some r => Some r
             | None => forEachChild cs'
             end
         end) in
    match forEachChild (children n) with
    | Some r => Some r
    | None => Some {| node := n; parents := ancestors |}
    end
  else None.

Definition findNode (sourceFile : SourceFile) (position : Z) : option NodeRef :=
  find position [] (root sourceFile).

(** [function spanAt(sourceFile, line, column)], with the position
    [ts.getPositionOfLineAndCharacter] computed as a parameter. *)
Fixpoint findChild (position : Z) (n : Node) {struct n} : option Node :=
  if afterLastToken (kind n) && (pos n <=? position) && (position <? getEnd n) then
    let forEachChild :=
      (fix forEachChild (cs : list Node) : option Node :=
         match cs with
         | [] => None
         | c :: cs' =>
             match findChild position c with
             | Some r => Some r
             | None => forEachChild cs'
             end
         end) in
    match forEachChild (children n) with
    | Some betterNode => Some betterNode
    | None => Some n
    end
  else None.

Definition spanAt (getPositionOfLineAndCharacter : SourceFile -> Z -> Z -> Z)
    (sourceFile : SourceFile) (line column : option Z) : option Span :=
  match line, column with
  | Some l, Some c =>
      let position := getPositionOfLineAndCharacter sourceFile l c in
      match forEachChild (findChild position) (root sourceFile) with
      | Some n => Some {| start := getStart n; end_ := getEnd n |}
      | None => None
      end
  | _, _ => None
  end.

(** A [TypeError]: a property of [undefined] was read. *)
Definition TypeError : JsError := mkError "TypeError".

(** [TypeScriptServiceHost.getTemplateClassDeclFromNode(currentToken)]:
    the class declaration and the call target, or [missingTemplate].  A
    property assignment without a name, which no parser produces, makes
    [name.text] a [TypeError]. *)
Definition missingTemplate : option Node * option Node := (None, None).

Definition getTemplateClassDeclFromNode (currentToken : NodeRef)
  : Outcome (option Node * option Node) :=
  match parents currentToken with
  | [] => Ret missingTemplate
  | parentNode :: ancestors1 =>
      if negb (bool_decide (kind parentNode = PropertyAssignment)) then Ret missingTemplate
      else
        match name parentNode with
        | None => Throw TypeError
        | Some propertyName =>
            if negb (String.eqb (text propertyName) "template") then Ret missingTemplate
            else
              match ancestors1 with
              | [] => Ret missingTemplate
              | objectLiteral :: ancestors2 =>
                  if negb (bool_decide (kind objectLiteral = ObjectLiteralExpression))
                  then Ret missingTemplate
                  else
                    match ancestors2 with
                    | [] => Ret missingTemplate
                    | call :: ancestors3 =>
                        if negb (bool_decide (kind call = CallExpression))
                        then Ret missingTemplate
                        else
                          let callTarget := expression call in
                          match ancestors3 with
                          | [] => Ret missingTemplate
                          | decorator :: ancestors4 =>
                              if negb (bool_decide (kind decorator = Decorator))
                              then Ret missingTemplate
                              else
                                match ancestors4 with
                                | [] => Ret missingTemplate
                                | declaration :: _ =>
                                    if negb (bool_decide
                                               (kind declaration = ClassDeclaration))
                                    then Ret missingTemplate
                                    else Ret (Some declaration, callTarget)
                                end
                          end
                    end
              end
        end
  end.

(* ------------------------------------------------------------------ *)
(** ** The Angular compiler and the TypeScript program, as the host uses them *)

(** A module of [NgAnalyzedModules]: the [reference]s of its
    [declaredDirectives]. *)
Record NgModuleSummary := { declaredDirectives : list StaticSymbol }.

Record NgAnalyzedModules := { ngModules : list NgModuleSummary }.

Record CompileTemplateMetadata := { templateUrl : option string }.

Record CompileDirectiveMetadata := {
  isComponent : bool;
  template : option CompileTemplateMetadata
}.

(** A call into the compiler that was handed [collectError] as its error
    callback: the errors it reported, with the file path of each, and how it
    completed. *)
Record Call (A : Type) := {
  reported : list (JsError * option string);
  completion : Outcome A
}.
Arguments reported {A} c.
Arguments completion {A} c.

(** [ts.Program] and the functions of [@angular/compiler], [fs] and [path]
    the host calls.  A program is an immutable object: equality of
    [Program] is its identity. *)
Class Compiler `{TC : TypeChecker} := {
  Program : Type;
  Program_eq_dec :: EqDecision Program;
  Annotation : Type;
  (** [program.getSourceFiles()] *)
  program_getSourceFiles : Program -> list SourceFile;
  (** [program.getSourceFile(fileName)] *)
  program_getSourceFile : Program -> string -> option SourceFile;
  (** [program.getTypeChecker().getTypeAtLocation(node)] *)
  program_getTypeAtLocation : Program -> Node -> option tsType;
  (** [ts.getPositionOfLineAndCharacter(sourceFile, line, column)] *)
  getPositionOfLineAndCharacter : SourceFile -> Z -> Z -> Z;
  (** [extractProgramSymbols(staticSymbolResolver, files, host)] *)
  extractProgramSymbols : Program -> list string -> Call (list StaticSymbol);
  (** [analyzeNgModules(programSymbols, host, metadataResolver)] *)
  analyzeNgModules : Program -> list StaticSymbol -> Call NgAnalyzedModules;
  (** [resolver.isDirective(type)] *)
  isDirective : Program -> StaticSymbol -> Call bool;
  (** [resolver.getNonNormalizedDirectiveMetadata(type)]: [{metadata,
      annotation}] or [null] *)
  getNonNormalizedDirectiveMetadata :
    Program -> StaticSymbol -> Call (option (CompileDirectiveMetadata * Annotation));
  (** [componentModuleUrl(reflector, type, annotation)] *)
  componentModuleUrl : StaticSymbol -> Annotation -> string;
  (** [urlResolver.resolve(baseUrl, url)] *)
  urlResolve : string -> string -> string;
  (** [function findTsConfig(fileName)], which walks the file system *)
  findTsConfig : string -> option string;
  (** [path.dirname] *)
  dirname : string -> string
}.

Section Host.
Context `{C : Compiler}.

(** What [ts.LanguageServiceHost] and [ts.LanguageService] answer during one
    call of a public operation of the host. *)
Record Env := {
  program : Program;                          (* tsService.getProgram() *)
  getScriptVersion : string -> string;        (* host.getScriptVersion(fileName) *)
  getScriptFileNames : list string;           (* host.getScriptFileNames() *)
  getScriptSnapshot : string -> option string;(* the text of host.getScriptSnapshot *)
  compilerOptions_baseUrl : option string     (* host.getCompilationSettings().baseUrl *)
}.

(** The objects the host memoizes.  [StaticSymbolResolver] is known by the
    files [invalidateFile] was called for, [ReflectorHost] by its options. *)
Inductive CompileMetadataResolver := CompileMetadataResolver_new.
Inductive AotSummaryResolver := AotSummaryResolver_new.
Inductive StaticReflector := StaticReflector_new.
Record StaticSymbolResolver := { invalidated : gset string }.
Record ReflectorHost := { basePath : string; baseUrl : option string }.

(** [TemplateSource] of [./types], without its getters [members] and
    [query], which compute nothing until asked. *)
Record TemplateSource := {
  version : string;
  source : option string;
  span : Span;
  type : StaticSymbol
}.

Record DeclarationError := { de_message : option string; de_span : Span }.

(** [Declaration] of [./types]. *)
Record Declaration := {
  d_type : StaticSymbol;
  declarationSpan : Span;
  metadata : option CompileDirectiveMetadata;
  errors : list DeclarationError
}.

(** The fields of [class TypeScriptServiceHost].  [_staticSymbolCache],
    [host], [tsService] and [service] never change and are left out. *)
Record TypeScriptServiceHost := {
  _resolver : option CompileMetadataResolver;
  _summaryResolver : option AotSummaryResolver;
  _staticSymbolResolver : option StaticSymbolResolver;
  _reflector : option StaticReflector;
  _reflectorHost : option ReflectorHost;
  _checker : option Program;
  _typeCache : list Symbol;
  context : option string;
  lastProgram : option Program;
  modulesOutOfDate : bool;
  analyzedModules : option NgAnalyzedModules;
  fileToComponent : option (gmap string StaticSymbol);
  templateReferences : option (list string);
  collectedErrors : option (gmap (option string) (list JsError));
  fileVersions : gmap string string
}.

Definition set__resolver (v : option CompileMetadataResolver) (h : TypeScriptServiceHost)
  : TypeScriptServiceHost :=
  {| _resolver := v; _summaryResolver := _summaryResolver h; _staticSymbolResolver :=
     _staticSymbolResolver h; _reflector := _reflector h; _reflectorHost :=
     _reflectorHost h; _checker := _checker h; _typeCache := _typeCache h; context :=
     context h; lastProgram := lastProgram h; modulesOutOfDate := modulesOutOfDate h;
     analyzedModules := analyzedModules h; fileToComponent := fileToComponent h;
     templateReferences := templateReferences h; collectedErrors := collectedErrors h;
     fileVersions := fileVersions h |}.

Definition set__summaryResolver (v : option AotSummaryResolver) (h : TypeScriptServiceHost)
  : TypeScriptServiceHost :=
  {| _resolver := _resolver h; _summaryResolver := v; _staticSymbolResolver :=
     _staticSymbolResolver h; _reflector := _reflector h; _reflectorHost :=
     _reflectorHost h; _checker := _checker h; _typeCache := _typeCache h; context :=
     context h; lastProgram := lastProgram h; modulesOutOfDate := modulesOutOfDate h;
     analyzedModules := analyzedModules h; fileToComponent := fileToComponent h;
     templateReferences := templateReferences h; collectedErrors := collectedErrors h;
     fileVersions := fileVersions h |}.

Definition set__staticSymbolResolver (v : option StaticSymbolResolver) (h : TypeScriptServiceHost)
  : TypeScriptServiceHost :=
  {| _resolver := _resolver h; _summaryResolver := _summaryResolver h;
     _staticSymbolResolver := v; _reflector := _reflector h; _reflectorHost :=
     _reflectorHost h; _checker := _checker h; _typeCache := _typeCache h; context :=
     context h; lastProgram := lastProgram h; modulesOutOfDate := modulesOutOfDate h;
     analyzedModules := analyzedModules h; fileToComponent := fileToComponent h;
     templateReferences := templateReferences h; collectedErrors := collectedErrors h;
     fileVersions := fileVersions h |}.

Definition set__reflector (v : option StaticReflector) (h : TypeScriptServiceHost)
  : TypeScriptServiceHost :=
  {| _resolver := _resolver h; _summaryResolver := _summaryResolver h;
     _staticSymbolResolver := _staticSymbolResolver h; _reflector := v; _reflectorHost
     := _reflectorHost h; _checker := _checker h; _typeCache := _typeCache h; context :=
     context h; lastProgram := lastProgram h; modulesOutOfDate := modulesOutOfDate h;
     analyzedModules := analyzedModules h; fileToComponent := fileToComponent h;
     templateReferences := templateReferences h; collectedErrors := collectedErrors h;
     fileVersions := fileVersions h |}.

Definition set__reflectorHost (v : option ReflectorHost) (h : TypeScriptServiceHost)
  : TypeScriptServiceHost :=
  {| _resolver := _resolver h; _summaryResolver := _summaryResolver h;
     _staticSymbolResolver := _staticSymbolResolver h; _reflector := _reflector h;
     _reflectorHost := v; _checker := _checker h; _typeCache := _typeCache h; context :=
     context h; lastProgram := lastProgram h; modulesOutOfDate := modulesOutOfDate h;
     analyzedModules := analyzedModules h; fileToComponent := fileToComponent h;
     templateReferences := templateReferences h; collectedErrors := collectedErrors h;
     fileVersions := fileVersions h |}.

Definition set__checker (v : option Program) (h : TypeScriptServiceHost)
  : TypeScriptServiceHost :=
  {| _resolver := _resolver h; _summaryResolver := _summaryResolver h;
     _staticSymbolResolver := _staticSymbolResolver h; _reflector := _reflector h;
     _reflectorHost := _reflectorHost h; _checker := v; _typeCache := _typeCache h;
     context := context h; lastProgram := lastProgram h; modulesOutOfDate :=
     modulesOutOfDate h; analyzedModules := analyzedModules h; fileToComponent :=
     fileToComponent h; templateReferences := templateReferences h; collectedErrors :=
     collectedErrors h; fileVersions := fileVersions h |}.

Definition set__typeCache (v : list Symbol) (h : TypeScriptServiceHost)
  : TypeScriptServiceHost :=
  {| _resolver := _resolver h; _summaryResolver := _summaryResolver h;
     _staticSymbolResolver := _staticSymbolResolver h; _reflector := _reflector h;
     _reflectorHost := _reflectorHost h; _checker := _checker h; _typeCache := v;
     context := context h; lastProgram := lastProgram h; modulesOutOfDate :=
     modulesOutOfDate h; analyzedModules := analyzedModules h; fileToComponent :=
     fileToComponent h; templateReferences := templateReferences h; collectedErrors :=
     collectedErrors h; fileVersions := fileVersions h |}.

Definition set_context (v : option string) (h : TypeScriptServiceHost)
  : TypeScriptServiceHost :=
  {| _resolver := _resolver h; _summaryResolver := _summaryResolver h;
     _staticSymbolResolver := _staticSymbolResolver h; _reflector := _reflector h;
     _reflectorHost := _reflectorHost h; _checker := _checker h; _typeCache :=
     _typeCache h; context := v; lastProgram := lastProgram h; modulesOutOfDate :=
     modulesOutOfDate h; analyzedModules := analyzedModules h; fileToComponent :=
     fileToComponent h; templateReferences := templateReferences h; collectedErrors :=
     collectedErrors h; fileVersions := fileVersions h |}.

Definition set_lastProgram (v : option Program) (h : TypeScriptServiceHost)
  : TypeScriptServiceHost :=
  {| _resolver := _resolver h; _summaryResolver := _summaryResolver h;
     _staticSymbolResolver := _staticSymbolResolver h; _reflector := _reflector h;
     _reflectorHost := _reflectorHost h; _checker := _checker h; _typeCache :=
     _typeCache h; context := context h; lastProgram := v; modulesOutOfDate :=
     modulesOutOfDate h; analyzedModules := analyzedModules h; fileToComponent :=
     fileToComponent h; templateReferences := templateReferences h; collectedErrors :=
     collectedErrors h; fileVersions := fileVersions h |}.

Definition set_modulesOutOfDate (v : bool) (h : TypeScriptServiceHost)
  : TypeScriptServiceHost :=
  {| _resolver := _resolver h; _summaryResolver := _summaryResolver h;
     _staticSymbolResolver := _staticSymbolResolver h; _reflector := _reflector h;
     _reflectorHost := _reflectorHost h; _checker := _checker h; _typeCache :=
     _typeCache h; context := context h; lastProgram := lastProgram h; modulesOutOfDate
     := v; analyzedModules := analyzedModules h; fileToComponent := fileToComponent h;
     templateReferences := templateReferences h; collectedErrors := collectedErrors h;
     fileVersions := fileVersions h |}.

Definition set_analyzedModules (v : option NgAnalyzedModules) (h : TypeScriptServiceHost)
  : TypeScriptServiceHost :=
  {| _resolver := _resolver h; _summaryResolver := _summaryResolver h;
     _staticSymbolResolver := _staticSymbolResolver h; _reflector := _reflector h;
     _reflectorHost := _reflectorHost h; _checker := _checker h; _typeCache :=
     _typeCache h; context := context h; lastProgram := lastProgram h; modulesOutOfDate
     := modulesOutOfDate h; analyzedModules := v; fileToComponent := fileToComponent h;
     templateReferences := templateReferences h; collectedErrors := collectedErrors h;
     fileVersions := fileVersions h |}.

Definition set_fileToComponent (v : option (gmap string StaticSymbol)) (h : TypeScriptServiceHost)
  : TypeScriptServiceHost :=
  {| _resolver := _resolver h; _summaryResolver := _summaryResolver h;
     _staticSymbolResolver := _staticSymbolResolver h; _reflector := _reflector h;
     _reflectorHost := _reflectorHost h; _checker := _checker h; _typeCache :=
     _typeCache h; context := context h; lastProgram := lastProgram h; modulesOutOfDate
     := modulesOutOfDate h; analyzedModules := analyzedModules h; fileToComponent := v;
     templateReferences := templateReferences h; collectedErrors := collectedErrors h;
     fileVersions := fileVersions h |}.

Definition set_templateReferences (v : option (list string)) (h : TypeScriptServiceHost)
  : TypeScriptServiceHost :=
  {| _resolver := _resolver h; _summaryResolver := _summaryResolver h;
     _staticSymbolResolver := _staticSymbolResolver h; _reflector := _reflector h;
     _reflectorHost := _reflectorHost h; _checker := _checker h; _typeCache :=
     _typeCache h; context := context h; lastProgram := lastProgram h; modulesOutOfDate
     := modulesOutOfDate h; analyzedModules := analyzedModules h; fileToComponent :=
     fileToComponent h; templateReferences := v; collectedErrors := collectedErrors h;
     fileVersions := fileVersions h |}.

Definition set_collectedErrors (v : option (gmap (option string) (list JsError))) (h : TypeScriptServiceHost)
  : TypeScriptServiceHost :=
  {| _resolver := _resolver h; _summaryResolver := _summaryResolver h;
     _staticSymbolResolver := _staticSymbolResolver h; _reflector := _reflector h;
     _reflectorHost := _reflectorHost h; _checker := _checker h; _typeCache :=
     _typeCache h; context := context h; lastProgram := lastProgram h; modulesOutOfDate
     := modulesOutOfDate h; analyzedModules := analyzedModules h; fileToComponent :=
     fileToComponent h; templateReferences := templateReferences h; collectedErrors :=
     v; fileVersions := fileVersions h |}.

Definition set_fileVersions (v : gmap string string) (h : TypeScriptServiceHost)
  : TypeScriptServiceHost :=
  {| _resolver := _resolver h; _summaryResolver := _summaryResolver h;
     _staticSymbolResolver := _staticSymbolResolver h; _reflector := _reflector h;
     _reflectorHost := _reflectorHost h; _checker := _checker h; _typeCache :=
     _typeCache h; context := context h; lastProgram := lastProgram h; modulesOutOfDate
     := modulesOutOfDate h; analyzedModules := analyzedModules h; fileToComponent :=
     fileToComponent h; templateReferences := templateReferences h; collectedErrors :=
     collectedErrors h; fileVersions := v |}.

(** A freshly constructed host. *)
Definition TypeScriptServiceHost_new : TypeScriptServiceHost :=
  {| _resolver := None; _summaryResolver := None; _staticSymbolResolver := None;
     _reflector := None; _reflectorHost := None; _checker := None; _typeCache := [];
     context := None; lastProgram := None; modulesOutOfDate := true;
     analyzedModules := None; fileToComponent := None; templateReferences := None;
     collectedErrors := None; fileVersions := ∅ |}.

(** *** Invalidation *)

(** [private clearCaches()] *)
Definition clearCaches (h : TypeScriptServiceHost) : TypeScriptServiceHost :=
  set_modulesOutOfDate true
    (set_collectedErrors None
       (set__resolver None
          (set__typeCache []
             (set__checker None h)))).

(** [this._staticSymbolResolver.invalidateFile(fileName)].  [validate] calls
    it only where the resolver exists. *)
Definition invalidateFile (f : string) (h : TypeScriptServiceHost)
  : TypeScriptServiceHost :=
  match _staticSymbolResolver h with
  | Some r => set__staticSymbolResolver (Some {| invalidated := {[f]} ∪ invalidated r |}) h
  | None => h
  end.

(** The body of the loop of [validate] over the source files. *)
Definition validate_file (env : Env) (acc : gset string * TypeScriptServiceHost)
    (sourceFile : SourceFile) : gset string * TypeScriptServiceHost :=
  let fileName := fileName sourceFile in
  let seen := {[fileName]} ∪ acc.1 in
  let version := getScriptVersion env fileName in
  let lastVersion := fileVersions acc.2 !! fileName in
  if bool_decide (lastVersion <> Some version)
  then (seen, invalidateFile fileName
                (set_fileVersions (<[fileName := version]> (fileVersions acc.2)) acc.2))
  else (seen, acc.2).

(** [private validate()].  The keys of the version map are enumerated in the
    order of the map; what is deleted and invalidated does not depend on
    it. *)
Definition validate (env : Env) (h : TypeScriptServiceHost) : TypeScriptServiceHost :=
  if bool_decide (is_Some (_staticSymbolResolver h))
     && bool_decide (lastProgram h <> Some (program env))
  then
    let h1 := clearCaches h in
    let r := foldl (validate_file env) (∅, h1) (program_getSourceFiles (program env)) in
    let seen := r.1 in
    let h2 := r.2 in
    let missing :=
      filter (fun f => f ∉ seen) (map fst (map_to_list (fileVersions h2))) in
    let h3 := foldl (fun h f => set_fileVersions (delete f (fileVersions h)) h) h2 missing in
    let h4 := foldl (fun h f => invalidateFile f h) h3 missing in
    set_lastProgram (Some (program env)) h4
  else h.

(** [private collectError(error, filePath)] *)
Definition collectError (error : JsError) (filePath : option string)
    (h : TypeScriptServiceHost) : TypeScriptServiceHost :=
  let errorMap := default ∅ (collectedErrors h) in
  let errors := default [] (errorMap !! filePath) in
  set_collectedErrors (Some (<[filePath := errors ++ [error]]> errorMap)) h.

(** *** Calls that read and write the host

    A call runs against the answers of the environment and the fields of
    the host; it completes with a value or an exception, leaves the host in
    a new state and has made a sequence of events: the calls of [validate]
    and the reads of the memoized fields outside [validate]. *)
Inductive CacheField :=
| F_resolver | F_staticSymbolResolver | F_reflector | F_reflectorHost | F_checker
| F_analyzedModules | F_fileToComponent | F_templateReferences | F_collectedErrors.

Inductive Event :=
| EvValidate
| EvRead (f : CacheField).

#[export] Instance CacheField_eq_dec : EqDecision CacheField.
Proof. solve_decision. Defined.

#[export] Instance Event_eq_dec : EqDecision Event.
Proof. solve_decision. Defined.

Record Run (A : Type) := {
  outcome : Outcome A;
  final : TypeScriptServiceHost;
  events : list Event
}.
Arguments outcome {A} r.
Arguments final {A} r.
Arguments events {A} r.

Definition M (A : Type) : Type := Env -> TypeScriptServiceHost -> Run A.

Definition M_ret {A} (a : A) : M A :=
  fun _ h => {| outcome := Ret a; final := h; events := [] |}.

Definition M_throw {A} (e : JsError) : M A :=
  fun _ h => {| outcome := Throw e; final := h; events := [] |}.

Definition M_bind {A B} (m : M A) (k : A -> M B) : M B :=
  fun env h =>
    let r := m env h in
    match outcome r with
    | Ret a =>
        let r' := k a env (final r) in
        {| outcome := outcome r'; final := final r'; events := events r ++ events r' |}
    | Throw e => {| outcome := Throw e; final := final r; events := events r |}
    end.

(** [try { body } catch (e) { handler }] *)
Definition M_try {A} (body : M A) (handler : JsError -> M A) : M A :=
  fun env h =>
    let r := body env h in
    match outcome r with
    | Ret _ => r
    | Throw e =>
        let r' := handler e env (final r) in
        {| outcome := outcome r'; final := final r'; events := events r ++ events r' |}
    end.

Definition M_env : M Env :=
  fun env h => {| outcome := Ret env; final := h; events := [] |}.

(** Reading a memoized field is an event; reading another field is not. *)
Definition M_read {A} (f : CacheField) (field : TypeScriptServiceHost -> A) : M A :=
  fun _ h => {| outcome := Ret (field h); final := h; events := [EvRead f] |}.

Definition M_get {A} (field : TypeScriptServiceHost -> A) : M A :=
  fun _ h => {| outcome := Ret (field h); final := h; events := [] |}.

Definition M_update (f : TypeScriptServiceHost -> TypeScriptServiceHost) : M unit :=
  fun _ h => {| outcome := Ret tt; final := f h; events := [] |}.

Definition M_lift {A} (o : Outcome A) : M A :=
  fun _ h => {| outcome := o; final := h; events := [] |}.

(** A call into the compiler: its reports reach [collectError], then it
    completes. *)
Definition M_call {A} (c : Call A) : M A :=
  fun _ h =>
    {| outcome := completion c;
       final := foldl (fun h r => collectError r.1 r.2 h) h (reported c);
       events := [] |}.

Notation "'let!' x ':=' m 'in' k" := (M_bind m (fun x => k))
  (at level 10, x pattern, m at level 100, k at level 200).
Notation "m ';;' k" := (M_bind m (fun _ => k))
  (at level 100, k at level 200, right associativity).

Fixpoint M_foldl {A B} (f : A -> B -> M A) (a : A) (l : list B) : M A :=
  match l with
  | [] => M_ret a
  | b :: l' => let! a' := f a b in M_foldl f a' l'
  end.

(** [validate()] as a call. *)
Definition M_validate : M unit :=
  fun env h => {| outcome := Ret tt; final := validate env h; events := [EvValidate] |}.

(** [private get reflectorHost()].  Without a context [getSourceFile] is
    asked for [undefined] and finds nothing. *)
Definition reflectorHost : M ReflectorHost :=
  let! result := M_read F_reflectorHost _reflectorHost in
  match result with
  | Some r => M_ret r
  | None =>
      let! env := M_env in
      let! context0 := M_get context in
      (if truthy_string context0 then M_ret tt
       else M_update (set_context (head (getScriptFileNames env))));;
      let! context1 := M_get context in
      match context1 ≫= program_getSourceFile (program env) with
      | None => M_throw (mkError "Internal error: no context could be determined")
      | Some source =>
          let tsConfigPath := findTsConfig (fileName source) in
          let basePath :=
            dirname (default "" (if truthy_string tsConfigPath then tsConfigPath
                                 else context1)) in
          let result :=
            {| basePath := basePath;
               baseUrl := if truthy_string (compilerOptions_baseUrl env)
                          then compilerOptions_baseUrl env else None |} in
          M_update (set__reflectorHost (Some result));;
          M_ret result
      end
  end.

(** [private get staticSymbolResolver()] *)
Definition staticSymbolResolver : M StaticSymbolResolver :=
  let! result := M_read F_staticSymbolResolver _staticSymbolResolver in
  match result with
  | Some r => M_ret r
  | None =>
      M_update (set__summaryResolver (Some AotSummaryResolver_new));;
      reflectorHost;;
      let result := {| invalidated := ∅ |} in
      M_update (set__staticSymbolResolver (Some result));;
      M_ret result
  end.

(** [private get reflector()] *)
Definition reflector : M StaticReflector :=
  let! result := M_read F_reflector _reflector in
  match result with
  | Some r => M_ret r
  | None =>
      staticSymbolResolver;;
      M_update (set__reflector (Some StaticReflector_new));;
      M_ret StaticReflector_new
  end.

(** [get resolver()].  The resolvers of modules, directives and pipes and
    the metadata resolver each take [this.reflector]. *)
Definition resolver : M CompileMetadataResolver :=
  M_validate;;
  let! result := M_read F_resolver _resolver in
  match result with
  | Some r => M_ret r
  | None =>
      reflector;; reflector;; reflector;; reflector;;
      M_update (set__resolver (Some CompileMetadataResolver_new));;
      M_ret CompileMetadataResolver_new
  end.

(** [private get checker()]: the checker of the program it was taken from. *)
Definition checker : M Program :=
  let! result := M_read F_checker _checker in
  match result with
  | Some c => M_ret c
  | None =>
      let! env := M_env in
      M_update (set__checker (Some (program env)));;
      M_ret (program env)
  end.

(** [getSourceFile(fileName)] *)
Definition getSourceFile (fileName : string) : M (option SourceFile) :=
  let! env := M_env in
  M_ret (program_getSourceFile (program env) fileName).

(** *** The analyzed modules *)

(** [private ensureAnalyzedModules()] *)
Definition ensureAnalyzedModules : M NgAnalyzedModules :=
  let! analyzedModules0 := M_read F_analyzedModules analyzedModules in
  match analyzedModules0 with
  | Some a => M_ret a
  | None =>
      staticSymbolResolver;;
      let! env := M_env in
      let! programSymbols :=
        M_call (extractProgramSymbols (program env)
                  (map fileName (program_getSourceFiles (program env)))) in
      resolver;;
      let! a := M_call (analyzeNgModules (program env) programSymbols) in
      M_update (set_analyzedModules (Some a));;
      M_ret a
  end.

(** [getAnalyzedModules()] *)
Definition getAnalyzedModules : M NgAnalyzedModules :=
  M_validate;;
  ensureAnalyzedModules.

(** [updateAnalyzedModules()] *)
Definition updateAnalyzedModules : M unit :=
  M_validate;;
  let! outOfDate := M_get modulesOutOfDate in
  if outOfDate then
    M_update (set_analyzedModules None);;
    M_update (set__reflector None);;
    M_update (set_templateReferences None);;
    M_update (set_fileToComponent None);;
    ensureAnalyzedModules;;
    M_update (set_modulesOutOfDate false)
  else M_ret tt.

(** *** The template map *)

(** The body of the inner loop of [ensureTemplateMap]; destructuring the
    answer [null] of the resolver is a [TypeError]. *)
Definition ensureTemplateMap_directive
    (acc : gmap string StaticSymbol * list string) (directive : StaticSymbol)
  : M (gmap string StaticSymbol * list string) :=
  resolver;;
  let! env := M_env in
  let! answer := M_call (getNonNormalizedDirectiveMetadata (program env) directive) in
  match answer with
  | None => M_throw TypeError
  | Some (metadata, annotation) =>
      match (if isComponent metadata then template metadata else None) with
      | Some t =>
          if truthy_string (templateUrl t) then
            reflector;;
            let templateName :=
              urlResolve (componentModuleUrl directive annotation)
                         (default "" (templateUrl t)) in
            M_ret (<[templateName := directive]> acc.1, acc.2 ++ [templateName])
          else M_ret acc
      | None => M_ret acc
      end
  end.

(** [private ensureTemplateMap()] *)
Definition ensureTemplateMap : M unit :=
  let! fileToComponent0 := M_read F_fileToComponent fileToComponent in
  let! stale :=
    match fileToComponent0 with
    | None => M_ret true
    | Some _ =>
        let! templateReferences0 := M_read F_templateReferences templateReferences in
        M_ret (bool_decide (templateReferences0 = None))
    end in
  if (stale : bool) then
    let! ngModuleSummary := getAnalyzedModules in
    let! r :=
      M_foldl (fun acc module =>
                 M_foldl ensureTemplateMap_directive acc (declaredDirectives module))
              (∅, []) (ngModules ngModuleSummary) in
    M_update (set_fileToComponent (Some r.1));;
    M_update (set_templateReferences (Some r.2))
  else M_ret tt.

(** [getTemplateReferences()] *)
Definition getTemplateReferences : M (option (list string)) :=
  ensureTemplateMap;;
  M_read F_templateReferences templateReferences.

(** *** The template locator *)

(** [private getSourceFromDeclaration(...)], always called with a
    declaration. *)
Definition getSourceFromDeclaration (version : string) (source : option string)
    (span : Span) (type : StaticSymbol) : option TemplateSource :=
  Some {| version := version; source := source; span := span; type := type |}.

(** [private getSourceFromNode(fileName, version, node)] *)
Definition getSourceFromNode (fileName_ : string) (version : string) (n : NodeRef)
  : M (option TemplateSource) :=
  match kind (node n) with
  | NoSubstitutionTemplateLiteral | StringLiteral =>
      let! r := M_lift (getTemplateClassDeclFromNode n) in
      match r.1 ≫= (fun declaration => name declaration) with
      | Some declarationName =>
          let! sourceFile := getSourceFile fileName_ in
          reflector;;
          match sourceFile with
          | None => M_throw TypeError
          | Some sf =>
              M_ret (getSourceFromDeclaration version (stringOf (node n))
                       (shrink (spanOf (node n)) None)
                       {| filePath := fileName sf; symbolName := text declarationName |})
          end
      | None => M_ret None
      end
  | _ => M_ret None
  end.

(** [private getTemplateClassFromStaticSymbol(type)]; a class without a
    name makes [name!.text] a [TypeError]. *)
Definition getTemplateClassFromStaticSymbol (type : StaticSymbol)
  : M (option Node) :=
  let! source := getSourceFile (filePath type) in
  match source with
  | Some sf =>
      M_foldl (fun (found : option Node) child =>
                 match found with
                 | Some d => M_ret (Some d)
                 | None =>
                     if bool_decide (kind child = ClassDeclaration) then
                       match name child with
                       | None => M_throw TypeError
                       | Some n =>
                           if String.eqb (text n) (symbolName type)
                           then M_ret (Some child) else M_ret None
                       end
                     else M_ret None
                 end)
              None (children (root sf))
  | None => M_ret None
  end.

(** [private getSourceFromType(fileName, version, type)] *)
Definition getSourceFromType (fileName_ : string) (version : string)
    (type : StaticSymbol) : M (option TemplateSource) :=
  let! declaration := getTemplateClassFromStaticSymbol type in
  match declaration with
  | Some _ =>
      let! env := M_env in
      match getScriptSnapshot env fileName_ with
      | None => M_throw TypeError
      | Some source =>
          M_ret (getSourceFromDeclaration version (Some source)
                   {| start := 0; end_ := Z.of_nat (String.length source) |} type)
      end
  | None => M_ret None
  end.

(** [getTemplateAt(fileName, position)] *)
Definition getTemplateAt (fileName_ : string) (position : Z) : M (option TemplateSource) :=
  let! env := M_env in
  let! sourceFile := getSourceFile fileName_ in
  match sourceFile with
  | Some sf =>
      M_update (set_context (Some (fileName sf)));;
      match findNode sf position with
      | Some n => getSourceFromNode fileName_ (getScriptVersion env (fileName sf)) n
      | None => M_ret None
      end
  | None =>
      ensureTemplateMap;;
      let! fileToComponent0 := M_read F_fileToComponent fileToComponent in
      match fileToComponent0 with
      | None => M_throw TypeError
      | Some m =>
          match m !! fileName_ with
          | Some componentType =>
              getSourceFromType fileName_ (getScriptVersion env fileName_) componentType
          | None => M_ret None
          end
      end
  end.

(** The closure [visit] of [getTemplates]: [result] is the array it pushes
    to. *)
Fixpoint visitTemplates (fileName_ version : string) (ancestors : list Node)
    (child : Node) (result : list TemplateSource) {struct child}
  : M (list TemplateSource) :=
  let! templateSource :=
    getSourceFromNode fileName_ version {| node := child; parents := ancestors |} in
  match templateSource with
  | Some t => M_ret (result ++ [t])
  | None =>
      (fix each (cs : list Node) (result : list TemplateSource)
         : M (list TemplateSource) :=
         match cs with
         | [] => M_ret result
         | c :: cs' =>
             let! result' :=
               visitTemplates fileName_ version (child :: ancestors) c result in
             each cs' result'
         end) (children child) result
  end.

(** [getTemplates(fileName)] *)
Definition getTemplates (fileName_ : string) : M (option (list TemplateSource)) :=
  ensureTemplateMap;;
  let! fileToComponent0 := M_read F_fileToComponent fileToComponent in
  match fileToComponent0 with
  | None => M_throw TypeError
  | Some m =>
      match m !! fileName_ with
      | Some _ =>
          let! templateSource := getTemplateAt fileName_ 0 in
          match templateSource with
          | Some t => M_ret (Some [t])
          | None => M_ret None
          end
      | None =>
          let! env := M_env in
          let version := getScriptVersion env fileName_ in
          let! sourceFile := getSourceFile fileName_ in
          let! result :=
            match sourceFile with
            | Some sf =>
                M_update (set_context
                            (Some (if truthy_string (path sf) then default "" (path sf)
                                   else fileName sf)));;
                M_foldl (fun result child =>
                           visitTemplates fileName_ version [root sf] child result)
                        [] (children (root sf))
            | None => M_ret []
            end in
          M_ret (match result with [] => None | _ => Some result end)
      end
  end.

(** *** Declarations *)

(** [private getCollectedErrors(defaultSpan, sourceFile)] *)
Definition getCollectedErrors (defaultSpan : Span) (sourceFile : SourceFile)
  : M (list DeclarationError) :=
  let! collected := M_read F_collectedErrors collectedErrors in
  M_ret (map (fun e =>
                {| de_message := message e;
                   de_span := default defaultSpan
                                (spanAt getPositionOfLineAndCharacter sourceFile
                                        (line e) (column e)) |})
             (default [] (collected ≫= (fun m => m !! Some (fileName sourceFile))))).

(** [collectError] as a call. *)
Definition M_collectError (error : JsError) (filePath : option string) : M unit :=
  M_update (collectError error filePath).

(** The [try] block of [getDeclarationFromNode]. *)
Definition declarationOf_try (sourceFile : SourceFile) (target : Node)
    (staticSymbol : StaticSymbol) : M (option Declaration) :=
  resolver;;
  let! env := M_env in
  let! directive := M_call (isDirective (program env) staticSymbol) in
  if (directive : bool) then
    resolver;;
    let! answer :=
      M_call (getNonNormalizedDirectiveMetadata (program env) staticSymbol) in
    match answer with
    | None => M_throw TypeError
    | Some (metadata, _) =>
        let declarationSpan := spanOf target in
        let! errors := getCollectedErrors declarationSpan sourceFile in
        M_ret (Some {| d_type := staticSymbol;
                       declarationSpan := declarationSpan;
                       metadata := Some metadata;
                       errors := errors |})
    end
  else M_ret None.

(** Its [catch] block. *)
Definition declarationOf_catch (sourceFile : SourceFile) (target : Node)
    (staticSymbol : StaticSymbol) (e : JsError) : M (option Declaration) :=
  if truthy_string (message e) then
    M_collectError e (Some (fileName sourceFile));;
    let declarationSpan := spanOf target in
    let! errors := getCollectedErrors declarationSpan sourceFile in
    M_ret (Some {| d_type := staticSymbol;
                   declarationSpan := declarationSpan;
                   metadata := None;
                   errors := errors |})
  else M_ret None.

Definition declarationOf (sourceFile : SourceFile) (target : Node)
    (staticSymbol : StaticSymbol) : M (option Declaration) :=
  M_try (declarationOf_try sourceFile target staticSymbol)
        (declarationOf_catch sourceFile target staticSymbol).

(** The loop of [getDeclarationFromNode] over the decorators of a named
    class.  A call expression without a callee, which no parser produces,
    hands [undefined] to the checker: a [TypeError]. *)
Fixpoint getDeclarationFromDecorators (sourceFile : SourceFile) (className : Node)
    (ds : list Node) : M (option Declaration) :=
  match ds with
  | [] => M_ret None
  | decorator :: ds' =>
      let next := getDeclarationFromDecorators sourceFile className ds' in
      match expression decorator with
      | Some call =>
          if bool_decide (kind call = CallExpression) then
            let! checker0 := checker in
            match expression call with
            | None => M_throw TypeError
            | Some target =>
                match program_getTypeAtLocation checker0 target with
                | Some _ =>
                    reflector;;
                    let staticSymbol :=
                      {| filePath := fileName sourceFile;
                         symbolName := text className |} in
                    let! declaration := declarationOf sourceFile target staticSymbol in
                    match declaration with
                    | Some d => M_ret (Some d)
                    | None => next
                    end
                | None => next
                end
            end
          else next
      | None => next
      end
  end.

(** [private getDeclarationFromNode(sourceFile, node)] *)
Definition getDeclarationFromNode (sourceFile : SourceFile) (n : Node)
  : M (option Declaration) :=
  if bool_decide (kind n = ClassDeclaration) then
    match decorators n, name n with
    | Some ds, Some className => getDeclarationFromDecorators sourceFile className ds
    | _, _ => M_ret None
    end
  else M_ret None.

(** The closure [visit] of [getDeclarations]. *)
Fixpoint visitDeclarations (sourceFile : SourceFile) (child : Node)
    (result : list Declaration) {struct child} : M (list Declaration) :=
  let! declaration := getDeclarationFromNode sourceFile child in
  match declaration with
  | Some d => M_ret (result ++ [d])
  | None =>
      (fix each (cs : list Node) (result : list Declaration) : M (list Declaration) :=
         match cs with
         | [] => M_ret result
         | c :: cs' =>
             let! result' := visitDeclarations sourceFile c result in
             each cs' result'
         end) (children child) result
  end.

(** The walk of [visit] over a list of siblings. *)
Definition visitAllDeclarations (sourceFile : SourceFile) (cs : list Node)
    (result : list Declaration) : M (list Declaration) :=
  M_foldl (fun result child => visitDeclarations sourceFile child result) result cs.

(** [getDeclarations(fileName)] *)
Definition getDeclarations (fileName_ : string) : M (list Declaration) :=
  let! sourceFile := getSourceFile fileName_ in
  match sourceFile with
  | Some sf => visitAllDeclarations sf (children (root sf)) []
  | None => M_ret []
  end.

End Host.

Arguments outcome {TC C A} r.
Arguments final {TC C A} r.
Arguments events {TC C A} r.

Notation "'let!' x ':=' m 'in' k" := (M_bind m (fun x => k))
  (at level 10, x pattern, m at level 100, k at level 200).
Notation "m ';;' k" := (M_bind m (fun _ => k))
  (at level 100, k at level 200, right associativity).

(* ------------------------------------------------------------------ *)
(** ** A small project to run the host on *)

Module Sample.

(** A checker with a handful of types: 0 any, 1 number, 2
    [Observable<number>], 3 [string | null], 4 string, 5 [Array<string>],
    6 boolean, 7 null, 8 undefined. *)
#[local] Instance checker : TypeChecker := {|
  tsType := nat;
  tsSymbol := string;
  tsSignature := nat;
  TypeContext := unit;
  type_symbol := fun t =>
    match t with
    | 2%nat => Some "Observable"
    | 5%nat => Some "Array"
    | _ => None
    end;
  symbol_name := fun s => s;
  type_typeArguments := fun t =>
    match t with
    | 2%nat => Some [1%nat]
    | 5%nat => Some [4%nat]
    | _ => None
    end;
  getCallSignatures := fun _ => [];
  getReturnType := fun s => s;
  getProperty := fun _ _ => None;
  getTypeAtSynthetic := fun _ n =>
    match n with
    | SynAsExpression_True_Any => 0%nat
    | SynTrueKeyword => 6%nat
    | SynNullKeyword => 7%nat
    | SynNumericLiteral => 1%nat
    | SynNoSubstitutionTemplateLiteral => 4%nat
    | SynVoidExpression_Numeric => 8%nat
    end;
  checker_getNonNullableType := fun _ =>
    Some (fun t => match t with 3%nat => 4%nat | _ => t end);
  getDeclaredTypeOfSymbol := fun _ _ => None;
  getTypeOfSymbolAtLocation := fun _ _ => None;
  exportsOfFile := fun _ _ => None;
  resolveAlias := fun _ s => s
|}.

Definition leaf (k : SyntaxKind) (from to : Z) (t : string) : Node :=
  {| kind := k; pos := from; getStart := from; getEnd := to; text := t;
     name := None; expression := None; decorators := None; children := [] |}.

(** [@Component({template: '<b>x</b>'}) class <className> {}] laid out
    from offset [at]: the decorator takes 37 characters, the class 50. *)
Definition literal (at_ : Z) : Node :=
  leaf StringLiteral (at_ + 22) (at_ + 32) "<b>x</b>".

Definition propertyName (at_ : Z) (property : string) : Node :=
  leaf Identifier (at_ + 12) (at_ + 20) property.

Definition assignment (at_ : Z) (property : string) : Node :=
  {| kind := PropertyAssignment; pos := at_ + 12; getStart := at_ + 12;
     getEnd := at_ + 32; text := "";
     name := Some (propertyName at_ property); expression := None;
     decorators := None;
     children := [propertyName at_ property; literal at_] |}.

Definition objectLiteral (at_ : Z) (property : string) : Node :=
  {| kind := ObjectLiteralExpression; pos := at_ + 11; getStart := at_ + 11;
     getEnd := at_ + 33; text := ""; name := None; expression := None;
     decorators := None; children := [assignment at_ property] |}.

Definition callTarget (at_ : Z) : Node :=
  leaf Identifier (at_ + 1) (at_ + 10) "Component".

Definition call (at_ : Z) (property : string) : Node :=
  {| kind := CallExpression; pos := at_ + 1; getStart := at_ + 1;
     getEnd := at_ + 34; text := ""; name := None;
     expression := Some (callTarget at_); decorators := None;
     children := [callTarget at_; objectLiteral at_ property] |}.

Definition decorator (at_ : Z) (property : string) : Node :=
  {| kind := Decorator; pos := at_; getStart := at_; getEnd := at_ + 34;
     text := ""; name := None; expression := Some (call at_ property);
     decorators := None; children := [call at_ property] |}.

Definition className (at_ : Z) (n : string) : Node :=
  leaf Identifier (at_ + 41) (at_ + 47) n.

Definition classDeclaration (at_ : Z) (n property : string) : Node :=
  {| kind := ClassDeclaration; pos := at_; getStart := at_; getEnd := at_ + 50;
     text := ""; name := Some (className at_ n); expression := None;
     decorators := Some [decorator at_ property];
     children := [decorator at_ property; className at_ n] |}.

Definition sourceFileOf (file : string) (classes : list Node) (to : Z) : SourceFile :=
  {| fileName := file; path := None;
     root := {| kind := SourceFileKind; pos := 0; getStart := 0; getEnd := to;
                text := ""; name := None; expression := None; decorators := None;
                children := classes |} |}.

Definition app_ts : SourceFile :=
  sourceFileOf "app.ts" [classDeclaration 0 "AppComponent" "template"] 50.

Definition other_ts : SourceFile :=
  sourceFileOf "other.ts" [classDeclaration 0 "Other" "selector"] 50.

Definition old_ts : SourceFile := sourceFileOf "old.ts" [] 0.

Definition broken_ts : SourceFile :=
  sourceFileOf "broken.ts"
    [classDeclaration 0 "Broken" "template"; classDeclaration 50 "Sibling" "template"]
    100.

Definition silent_ts : SourceFile :=
  sourceFileOf "silent.ts" [classDeclaration 0 "Silent" "template"] 50.

(** [@Injectable @Component({...}) class <n> {}]: the call is the second
    decorator. *)
Definition plainDecorator (at_ : Z) : Node :=
  {| kind := Decorator; pos := at_; getStart := at_; getEnd := at_ + 11;
     text := ""; name := None;
     expression := Some (leaf Identifier (at_ + 1) (at_ + 11) "Injectable");
     decorators := None;
     children := [leaf Identifier (at_ + 1) (at_ + 11) "Injectable"] |}.

Definition twiceDecorated (at_ : Z) (n : string) : Node :=
  {| kind := ClassDeclaration; pos := at_; getStart := at_; getEnd := at_ + 62;
     text := ""; name := Some (className (at_ + 12) n); expression := None;
     decorators := Some [plainDecorator at_; decorator (at_ + 12) "template"];
     children := [plainDecorator at_; decorator (at_ + 12) "template";
                  className (at_ + 12) n] |}.

(** A block that holds such a class. *)
Definition block (at_ : Z) (n : string) : Node :=
  {| kind := OtherNode; pos := at_; getStart := at_; getEnd := at_ + 64;
     text := ""; name := None; expression := None; decorators := None;
     children := [leaf OtherToken at_ (at_ + 1) "{"; twiceDecorated (at_ + 1) n;
                  leaf OtherToken (at_ + 63) (at_ + 64) "}"] |}.

(** [nested.ts]: a component, then a block with the class [Broken]. *)
Definition nested_ts : SourceFile :=
  sourceFileOf "nested.ts" [classDeclaration 0 "AppComponent" "template"; block 50 "Broken"]
    114.

(** Program 0 still has [old.ts]; the later programs have dropped it, and
    program 2 has [nested.ts] besides. *)
Definition filesOf (p : nat) : list SourceFile :=
  match p with
  | 0%nat => [app_ts; other_ts; old_ts; broken_ts; silent_ts]
  | 2%nat => [app_ts; other_ts; broken_ts; silent_ts; nested_ts]
  | _ => [app_ts; other_ts; broken_ts; silent_ts]
  end.

Definition componentMetadata : CompileDirectiveMetadata :=
  {| isComponent := true; template := Some {| templateUrl := None |} |}.

(** The compiler resolves every class but two: for [Broken] it throws an
    error with a message, for [Silent] a value without one. *)
#[local] Instance compiler : Compiler := {|
  Program := nat;
  Annotation := unit;
  program_getSourceFiles := filesOf;
  program_getSourceFile := fun p file =>
    List.find (fun sf => String.eqb (fileName sf) file) (filesOf p);
  program_getTypeAtLocation := fun _ _ => Some 0%nat;
  getPositionOfLineAndCharacter := fun _ _ c => c;
  extractProgramSymbols := fun _ files =>
    {| reported := [];
       completion := Ret (map (fun f => {| filePath := f; symbolName := "default" |})
                              files) |};
  analyzeNgModules := fun _ symbols =>
    {| reported := [];
       completion := Ret {| ngModules := [{| declaredDirectives := symbols |}] |} |};
  isDirective := fun _ s =>
    {| reported := [];
       completion :=
         if String.eqb (symbolName s) "Broken"
         then Throw {| message := Some "Unexpected value"; line := None; column := None |}
         else if String.eqb (symbolName s) "Silent"
         then Throw {| message := None; line := None; column := None |}
         else Ret true |};
  getNonNormalizedDirectiveMetadata := fun _ _ =>
    {| reported := []; completion := Ret (Some (componentMetadata, tt)) |};
  componentModuleUrl := fun s _ => filePath s;
  urlResolve := fun _ url => url;
  findTsConfig := fun _ => None;
  dirname := fun s => s
|}.

(** The editor at program [p], every file at version [v]. *)
Definition env (p : nat) (v : string) : Env :=
  {| program := p;
     getScriptVersion := fun _ => v;
     getScriptFileNames := ["app.ts"];
     getScriptSnapshot := fun _ => None;
     compilerOptions_baseUrl := None |}.

(** The host after a first query at program 0, every file at version 1. *)
Definition queried : TypeScriptServiceHost :=
  final (getAnalyzedModules (env 0 "1") TypeScriptServiceHost_new).

(** A symbol query that has cached nothing yet. *)
Definition emptyQuery : TypeScriptSymbolQuery :=
  {| query_context := tt; typeCache := ∅ |}.

End Sample.

(* ------------------------------------------------------------------ *)
(** ** The vocabulary of the statements about syntax trees *)

(** A string literal or a template literal without substitutions. *)
Definition IsStringLiteral (n : Node) : Prop :=
  kind n = StringLiteral \/ kind n = NoSubstitutionTemplateLiteral.

(** The shape the specification asks of the ancestors of a template
    literal: a property assignment named [template], in an object literal,
    in a call expression, in a decorator, on a class declaration. *)
Definition TemplateShape (n : NodeRef) : Prop :=
  exists assignment propertyName objectLiteral call decorator declaration outer,
    parents n = assignment :: objectLiteral :: call :: decorator :: declaration :: outer
    /\ kind assignment = PropertyAssignment
    /\ name assignment = Some propertyName
    /\ text propertyName = "template"
    /\ kind objectLiteral = ObjectLiteralExpression
    /\ kind call = CallExpression
    /\ kind decorator = Decorator
    /\ kind declaration = ClassDeclaration.

(** What every parser gives: a property assignment has a name. *)
Definition ParsedAssignment (n : NodeRef) : Prop :=
  forall p rest, parents n = p :: rest -> kind p = PropertyAssignment -> is_Some (name p).

(** The first answer of [f] along a list: how [ts.forEachChild] goes
    through the children. *)
Fixpoint firstSome {A B} (f : A -> option B) (l : list A) : option B :=
  match l with
  | [] => None
  | a :: l' => match f a with Some b => Some b | None => firstSome f l' end
  end.

(** The ranges of a tree nest as those of parsed text do: every child lies
    within its parent, and the children follow one another. *)
Fixpoint wellNested (n : Node) : bool :=
  (fix each (cs : list Node) (from : Z) : bool :=
     match cs with
     | [] => true
     | c :: cs' =>
         (from <=? getStart c) && (getStart c <=? getEnd c) && (getEnd c <=? getEnd n)
         && wellNested c && each cs' (getEnd c)
     end) (children n) (getStart n).

(** The node reached from [n] by taking the children of the given indices,
    with its [parent] chain. *)
Fixpoint descend (indices : list nat) (ancestors : list Node) (n : Node)
  : option NodeRef :=
  match indices with
  | [] => Some {| node := n; parents := ancestors |}
  | i :: indices' =>
      match children n !! i with
      | Some c => descend indices' (n :: ancestors) c
      | None => None
      end
  end.

(* ------------------------------------------------------------------ *)
(** ** The vocabulary of the statements about the symbol layer *)

Section SymbolVocabulary.
Context `{TC : TypeChecker}.

(** What the specification asks of [getNonNullableType] wherever it does
    not answer with a wrapper of another, non-nullable type: the answer is
    not the input symbol. *)
Definition NeverAnswersWithItsInput : Prop :=
  forall (q : TypeScriptSymbolQuery) (symbol : Symbol),
    ~ (exists t context nonNullable,
          symbol = TypeWrapper t context
          /\ checker_getNonNullableType (query_context q) = Some nonNullable
          /\ nonNullable t <> t) ->
    fst (getNonNullableType q symbol) <> Ret symbol.

End SymbolVocabulary.

(* ------------------------------------------------------------------ *)
(** ** The vocabulary of the statements about the host *)

Section HostVocabulary.
Context `{C : Compiler}.

(** The files the static symbol resolver was told to invalidate. *)
Definition invalidatedFiles (h : TypeScriptServiceHost) : gset string :=
  match _staticSymbolResolver h with
  | Some r => invalidated r
  | None => ∅
  end.

(** What [validate] is to do when it sees another program: every file of
    the program whose stamp is not the recorded one is invalidated and its
    stamp recorded, every recorded file the program no longer has is dropped
    from the version map and invalidated, and the collected errors are
    cleared. *)
Definition InvalidatesChangedFiles (env : Env) (h : TypeScriptServiceHost) : Prop :=
  let h' := validate env h in
  (forall sf, sf ∈ program_getSourceFiles (program env) ->
      fileVersions h !! fileName sf <> Some (getScriptVersion env (fileName sf)) ->
      fileName sf ∈ invalidatedFiles h'
      /\ fileVersions h' !! fileName sf = Some (getScriptVersion env (fileName sf)))
  /\ (forall f, is_Some (fileVersions h !! f) ->
         f ∉ map fileName (program_getSourceFiles (program env)) ->
         fileVersions h' !! f = None /\ f ∈ invalidatedFiles h')
  /\ collectedErrors h' = None.

(** The analyzed modules of a program: what [extractProgramSymbols] and
    [analyzeNgModules] give for it when both complete. *)
Definition analysisOf (p : Program) : option NgAnalyzedModules :=
  match completion (extractProgramSymbols p (map fileName (program_getSourceFiles p))) with
  | Ret programSymbols =>
      match completion (analyzeNgModules p programSymbols) with
      | Ret a => Some a
      | Throw _ => None
      end
  | Throw _ => None
  end.

(** The states of a host: a new host, and what the public operations make
    of it, whatever the editor answers while they run. *)
Inductive Reachable : TypeScriptServiceHost -> Prop :=
| Reachable_new : Reachable TypeScriptServiceHost_new
| Reachable_resolver env h :
    Reachable h -> Reachable (final (resolver env h))
| Reachable_getTemplateReferences env h :
    Reachable h -> Reachable (final (getTemplateReferences env h))
| Reachable_getTemplateAt env f position h :
    Reachable h -> Reachable (final (getTemplateAt f position env h))
| Reachable_getAnalyzedModules env h :
    Reachable h -> Reachable (final (getAnalyzedModules env h))
| Reachable_getTemplates env f h :
    Reachable h -> Reachable (final (getTemplates f env h))
| Reachable_getDeclarations env f h :
    Reachable h -> Reachable (final (getDeclarations f env h))
| Reachable_updateAnalyzedModules env h :
    Reachable h -> Reachable (final (updateAnalyzedModules env h)).

(** When the modules are marked up to date, the memoized analyzed modules
    are those of the program seen last. *)
Definition UpToDate (h : TypeScriptServiceHost) : Prop :=
  modulesOutOfDate h = false ->
  is_Some (_staticSymbolResolver h)
  /\ exists p a, lastProgram h = Some p
                 /\ analyzedModules h = Some a
                 /\ analysisOf p = Some a.

(** The freshness the specification asks of [getAnalyzedModules]: whatever
    it returns was computed against the program of the moment. *)
Definition ReturnsFreshModules : Prop :=
  forall env h a,
    Reachable h ->
    outcome (getAnalyzedModules env h) = Ret a ->
    analysisOf (program env) = Some a.

(** The events of a call start with a call of [validate]. *)
Definition ValidatesFirst (l : list Event) : Prop :=
  exists rest, l = EvValidate :: rest.

(** The events of a call start with the read of a memoized field among
    [F]. *)
Definition ReadsFirst (F : CacheField -> Prop) (l : list Event) : Prop :=
  exists f rest, l = EvRead f :: rest /\ F f.

(** What the specification asks of the public operations: each calls
    [validate] before it reads a memoized field. *)
Definition EveryOperationValidatesFirst : Prop :=
  (forall env h, ValidatesFirst (events (getTemplateReferences env h)))
  /\ (forall f position env h, ValidatesFirst (events (getTemplateAt f position env h)))
  /\ (forall f env h, ValidatesFirst (events (getTemplates f env h)))
  /\ (forall f env h, ValidatesFirst (events (getDeclarations f env h)))
  /\ (forall env h, ValidatesFirst (events (getAnalyzedModules env h))).

(** The getter of the reflector has what it needs: the reflector, the
    static symbol resolver or the reflector host is memoized, or the context
    (failing that, the first script of the editor) names a file of the
    program. *)
Definition reflectorAvailable (env : Env) (h : TypeScriptServiceHost) : Prop :=
  is_Some (_reflector h) \/ is_Some (_staticSymbolResolver h)
  \/ is_Some (_reflectorHost h)
  \/ is_Some ((if truthy_string (context h) then context h
               else head (getScriptFileNames env))
              ≫= program_getSourceFile (program env)).



(** The [DeclarationError] that [getCollectedErrors] makes of a collected
    error. *)
Definition toDeclarationError (sourceFile : SourceFile) (defaultSpan : Span)
    (e : JsError) : DeclarationError :=
  {| de_message := message e;
     de_span := default defaultSpan
                  (spanAt getPositionOfLineAndCharacter sourceFile (line e) (column e)) |}.






End HostVocabulary.

(* ------------------------------------------------------------------ *)
(** ** Vocabulary of the proofs *)

Section TableVocabulary.
Context `{TC : TypeChecker}.

(** Every symbol the map holds is filed under its own name and is still
    enumerated by [values()]. *)
Definition MapSymbolTable_inv (t : MapSymbolTable) : Prop :=
  forall n v, map_ t !! n = Some v -> Symbol_name v = n /\ v ∈ _values t.

End TableVocabulary.

(** The conditions [wellNested] checks along a list of children. *)
Fixpoint nestedFrom (parent : Node) (cs : list Node) (from : Z) : bool :=
  match cs with
  | [] => true
  | c :: cs' =>
      (from <=? getStart c) && (getStart c <=? getEnd c) && (getEnd c <=? getEnd parent)
      && wellNested c && nestedFrom parent cs' (getEnd c)
  end.

Section CallVocabulary.
Context `{C : Compiler}.

(** A run with further events before its own. *)
Definition after {A} (before : list Event) (r : Run A) : Run A :=
  {| outcome := outcome r; final := final r; events := before ++ events r |}.

(** The call [m] returns [a] and leaves the host [h']. *)
Definition Returns {A} (m : M A) (env : Env) (h : TypeScriptServiceHost) (a : A)
    (h' : TypeScriptServiceHost) : Prop :=
  outcome (m env h) = Ret a /\ final (m env h) = h'.

(** Two runs that complete alike and leave the same host. *)
Definition Same {A} (r1 r2 : Run A) : Prop :=
  outcome r1 = outcome r2 /\ final r1 = final r2.

(** A call keeps the property [P] of the host. *)
Definition Preserves (env : Env) (P : TypeScriptServiceHost -> Prop) {A} (m : M A)
  : Prop :=
  forall h, P h -> P (final (m env h)).

(** A property of the host is stable when [validate], [collectError] and the
    assignments of the getters keep it. *)
Record Stable (env : Env) (P : TypeScriptServiceHost -> Prop) : Prop := {
  stable_validate : forall h, P h -> P (validate env h);
  stable_collectError : forall e f h, P h -> P (collectError e f h);
  stable_context : forall v h, P h -> P (set_context v h);
  stable_reflectorHost : forall v h, P h -> P (set__reflectorHost (Some v) h);
  stable_summaryResolver : forall v h, P h -> P (set__summaryResolver (Some v) h);
  stable_staticSymbolResolver :
    forall v h, P h -> P (set__staticSymbolResolver (Some v) h);
  stable_reflector : forall v h, P h -> P (set__reflector (Some v) h);
  stable_resolver : forall v h, P h -> P (set__resolver (Some v) h);
  stable_checker : forall v h, P h -> P (set__checker (Some v) h);
  stable_templateReferences : forall v h, P h -> P (set_templateReferences (Some v) h);
  stable_fileToComponent : forall v h, P h -> P (set_fileToComponent (Some v) h)
}.

(** Three stable properties. *)
Definition OutOfDate (h : TypeScriptServiceHost) : Prop := modulesOutOfDate h = true.

Definition SeenProgram (env : Env) (h : TypeScriptServiceHost) : Prop :=
  is_Some (_staticSymbolResolver h) /\ lastProgram h = Some (program env).

Definition NoModules (h : TypeScriptServiceHost) : Prop := analyzedModules h = None.

(** The host has a reflector. *)
Definition HasReflector (h : TypeScriptServiceHost) : Prop := is_Some (_reflector h).

(** [updateAnalyzedModules] past its test of [modulesOutOfDate]. *)
Definition refreshed (env : Env) (h : TypeScriptServiceHost) : Run unit :=
  M_bind ensureAnalyzedModules (fun _ => M_update (set_modulesOutOfDate false)) env
    (set_fileToComponent None
       (set_templateReferences None
          (set__reflector None
             (set_analyzedModules None (validate env h))))).

(** A call that begins with the read of a field among [F], and a call
    that, if it reads or validates at all, begins so. *)
Definition Begins (F : CacheField -> Prop) {A} (m : M A) : Prop :=
  forall env h, ReadsFirst F (events (m env h)).

Definition Opens (F : CacheField -> Prop) {A} (m : M A) : Prop :=
  forall env h, events (m env h) = [] \/ ReadsFirst F (events (m env h)).

End CallVocabulary.

(* ------------------------------------------------------------------ *)
(** ** More of the symbol layer *)

(** A JavaScript [Map] with string keys: its entries in the order of their
    first insertion, which is the order [values()] enumerates them in. *)
Definition JsMap (V : Type) : Type := list (string * V).

(** [map.set(key, value)]: an entry of that key keeps its place. *)
Fixpoint JsMap_set {V} (m : JsMap V) (key : string) (value : V) : JsMap V :=
  match m with
  | [] => [(key, value)]
  | (k, v) :: m' =>
      if String.eqb k key then (key, value) :: m' else (k, v) :: JsMap_set m' key value
  end.



(** [Array.from(map.values())] *)
Definition JsMap_values {V} (m : JsMap V) : list V := map snd m.

(** [ts.Type] as [typeKindOf] reads it: the flags and, of a union type,
    the constituent types. *)
Inductive TypeShape := MkTypeShape {
  flags : Z;
  types : list TypeShape
}.

(** The members of [ts.TypeFlags] that [typeKindOf] names.  Their values
    are the compiler's. *)
Record TypeFlags := {
  TypeFlags_Any : Z;
  TypeFlags_String : Z;
  TypeFlags_StringLike : Z;
  TypeFlags_StringLiteral : Z;
  TypeFlags_Number : Z;
  TypeFlags_NumberLike : Z;
  TypeFlags_Undefined : Z;
  TypeFlags_Null : Z;
  TypeFlags_Union : Z;
  TypeFlags_TypeParameter : Z
}.

(** Truthiness of [flags & mask]. *)
Definition hasFlag (flags mask : Z) : bool := negb (Z.land flags mask =? 0).

(** [function typeKindOf(type)] on a type that is there.  The answer of an
    empty union is [undefined]: the candidate is never assigned. *)
Fixpoint typeKindOfType (F : TypeFlags) (type : TypeShape) {struct type}
  : option BuiltinType :=
  if hasFlag (flags type) (TypeFlags_Any F) then Some Any
  else if hasFlag (flags type)
            (Z.lor (Z.lor (TypeFlags_String F) (TypeFlags_StringLike F))
                   (TypeFlags_StringLiteral F))
  then Some String_
  else if hasFlag (flags type)
            (Z.lor (TypeFlags_Number F) (TypeFlags_NumberLike F))
  then Some Number
  else if hasFlag (flags type) (TypeFlags_Undefined F) then Some Undefined
  else if hasFlag (flags type) (TypeFlags_Null F) then Some Null
  else if hasFlag (flags type) (TypeFlags_Union F) then
    match types type with
    | [] => None
    | first :: _ =>
        let candidate := typeKindOfType F first in
        (fix each (subTypes : list TypeShape) : option BuiltinType :=
           match subTypes with
           | [] => candidate
           | subType :: subTypes' =>
               if bool_decide (candidate <> typeKindOfType F subType)
               then Some Other
               else each subTypes'
           end) (types type)
    end
  else if hasFlag (flags type) (TypeFlags_TypeParameter F) then Some Unbound
  else Some Other.

(** The flags that take [typeKindOf] to its loop over the constituents of
    a union: none of the flags it asks for before, and [Union]. *)
Definition reachesUnion (F : TypeFlags) (type : TypeShape) : bool :=
  negb (hasFlag (flags type) (TypeFlags_Any F))
  && negb (hasFlag (flags type)
             (Z.lor (Z.lor (TypeFlags_String F) (TypeFlags_StringLike F))
                    (TypeFlags_StringLiteral F)))
  && negb (hasFlag (flags type) (Z.lor (TypeFlags_Number F) (TypeFlags_NumberLike F)))
  && negb (hasFlag (flags type) (TypeFlags_Undefined F))
  && negb (hasFlag (flags type) (TypeFlags_Null F))
  && hasFlag (flags type) (TypeFlags_Union F).

(** [function typeKindOf(type)] *)
Definition typeKindOf (F : TypeFlags) (type : option TypeShape)
  : option BuiltinType :=
  match type with
  | Some t => typeKindOfType F t
  | None => Some Other
  end.

Section SymbolTables.
Context `{TC : TypeChecker}.

(** [function toSymbolTable(symbols)], for a compiler from version 2.2 on,
    whose symbol tables are [Map]s. *)
Definition toSymbolTable (symbols : list tsSymbol) : JsMap tsSymbol :=
  foldl (fun result symbol => JsMap_set result (symbol_name symbol) symbol) [] symbols.

(** [function toSymbols(symbolTable)], for such a table *)
Definition toSymbols (symbolTable : option (JsMap tsSymbol)) : list tsSymbol :=
  match symbolTable with
  | None => []
  | Some table => JsMap_values table
  end.


(** The fields of a [SymbolTableWrapper]. *)
Record SymbolTableWrapperFields := {
  wrapper_symbols : list tsSymbol;
  wrapper_symbolTable : JsMap tsSymbol;
  wrapper_context : TypeContext
}.





Definition SymbolTableWrapper_values (t : SymbolTableWrapperFields) : list Symbol :=
  map (fun s => SymbolWrapper_new s (wrapper_context t)) (wrapper_symbols t).





(** The last symbol of a name in a list. *)
Definition lastNamed (n : string) (l : list Symbol) : option Symbol :=
  last (filter (fun s => Symbol_name s = n) l).

End SymbolTables.

(* ------------------------------------------------------------------ *)
(** ** More of the syntax trees *)

(** [d] is [n] or a node below it. *)
Fixpoint below (d : Node) (n : Node) {struct n} : Prop :=
  d = n \/
  (fix some (cs : list Node) : Prop :=
     match cs with
     | [] => False
     | c :: cs' => below d c \/ some cs'
     end) (children n).

(** A [parent] chain, nearest first, that leads from a child of its head up
    to [top]: each node is a child of the next. *)
Fixpoint chainTo (top : Node) (n : Node) (ancestors : list Node) : Prop :=
  match ancestors with
  | [] => n = top
  | p :: ancestors' => n ∈ children p /\ chainTo top p ancestors'
  end.

(** No class declaration with decorators and a name at [n] or below. *)
Fixpoint noDecoratedClass (n : Node) : bool :=
  negb (bool_decide (kind n = ClassDeclaration)
        && bool_decide (is_Some (decorators n)) && bool_decide (is_Some (name n)))
  && forallb noDecoratedClass (children n).

(** No string literal and no template literal without substitutions at [n]
    or below. *)
Fixpoint noStringLiteral (n : Node) : bool :=
  negb (bool_decide (kind n = StringLiteral))
  && negb (bool_decide (kind n = NoSubstitutionTemplateLiteral))
  && forallb noStringLiteral (children n).

(* ------------------------------------------------------------------ *)
(** ** More of the small project *)

Module MoreSamples.
Import Sample.
#[local] Existing Instance Sample.checker.
#[local] Existing Instance Sample.compiler.

(** One assignment of bits to the flags of types. *)
Definition typeFlags : TypeFlags :=
  {| TypeFlags_Any := 1;
     TypeFlags_String := 2;
     TypeFlags_Number := 4;
     TypeFlags_StringLiteral := 32;
     TypeFlags_Undefined := 2048;
     TypeFlags_Null := 4096;
     TypeFlags_TypeParameter := 16384;
     TypeFlags_Union := 65536;
     TypeFlags_StringLike := 262178;
     TypeFlags_NumberLike := 84 |}.

(** [string | 'a']: a union of the string type and a string literal type. *)
Definition stringOrLiteral : TypeShape :=
  {| flags := 65536;
     types := [ {| flags := 2; types := [] |}; {| flags := 32; types := [] |} ] |}.

(** The editor with a snapshot of the template file [app.html]. *)
Definition templateEnv : Env :=
  {| program := 0%nat;
     getScriptVersion := fun _ => "1";
     getScriptFileNames := ["app.ts"];
     getScriptSnapshot := fun f => if String.eqb f "app.html" then Some "<p>hi</p>" else None;
     compilerOptions_baseUrl := None |}.

(** A host whose template map gives [AppComponent] for [app.html]. *)
Definition templateHost : TypeScriptServiceHost :=
  set_fileToComponent
    (Some {[ "app.html" := {| filePath := "app.ts"; symbolName := "AppComponent" |} ]})
    (set_templateReferences (Some ["app.html"]) TypeScriptServiceHost_new).

(** A host whose context names no file of the program. *)
Definition lostHost : TypeScriptServiceHost :=
  set_context (Some "missing.ts") TypeScriptServiceHost_new.

End MoreSamples.
(* ------------------------------------------------------------------ *)
(** * Properties of the symbol abstraction layer *)

Section SymbolLayerFacts.
Context `{TC : TypeChecker}.

Lemma getTypeParameterOf_single (t T : tsType) (s : tsSymbol) (name : string) :
  type_symbol t = Some s -> symbol_name s = name ->
  type_typeArguments t = Some [T] ->
  getTypeParameterOf (Some t) name = Some T.
Proof.
  intros Hs Hn Ha. unfold getTypeParameterOf.
  rewrite Hs, Hn, String.eqb_refl, Ha. reflexivity.
Qed.

Lemma PipeSymbol_tsType_returns (pipe : PipeInfo) (context : TypeContext) :
  exists t, PipeSymbol_tsType pipe context = Ret t.
Proof.
  unfold PipeSymbol_tsType.
  destruct (findClassSymbolInContext (pipe_symbol pipe) context) as [c|]; simpl.
  - destruct (findTransformMethodType context c); eauto.
  - eauto.
Qed.

Lemma getBuiltinType_Any_fresh (q : TypeScriptSymbolQuery) :
  typeCache q !! Any = None ->
  fst (getBuiltinType q Any)
  = Ret (TypeWrapper (getTypeAtSynthetic (query_context q) SynAsExpression_True_Any)
                     (query_context q)).
Proof. intros H. unfold getBuiltinType. rewrite H. reflexivity. Qed.

(** *** [MapSymbolTable]: what [add] keeps true *)

Lemma indexOf_Some (l : list Symbol) (x : Symbol) :
  x ∈ l -> exists i, indexOf l x = Some i /\ l !! i = Some x.
Proof.
  intros Hin. unfold indexOf.
  destruct (list_find (fun y => y = x) l) as [[i y]|] eqn:E.
  - apply list_find_Some in E as (Hi & -> & _). exists i. split; [reflexivity | exact Hi].
  - apply list_find_None in E. rewrite Forall_forall in E.
    exfalso. exact (E x Hin eq_refl).
Qed.

Lemma elem_of_insert_other (l : list Symbol) (i : nat) (p s v : Symbol) :
  l !! i = Some p -> v ∈ l -> v <> p -> v ∈ <[i := s]> l.
Proof.
  intros Hi Hv Hne. apply list_elem_of_lookup in Hv as [j Hj].
  apply list_elem_of_lookup. exists j.
  rewrite list_lookup_insert_ne; [exact Hj |].
  intros ->. rewrite Hi in Hj. congruence.
Qed.

Lemma MapSymbolTable_inv_new : MapSymbolTable_inv MapSymbolTable_new.
Proof. intros n v H. simpl in H. rewrite lookup_empty in H. discriminate. Qed.

Lemma MapSymbolTable_add_values_dup (t : MapSymbolTable) (s previous : Symbol) :
  MapSymbolTable_inv t ->
  map_ t !! Symbol_name s = Some previous ->
  exists i, _values t !! i = Some previous
            /\ _values (MapSymbolTable_add t s) = <[i := s]> (_values t) ++ [s].
Proof.
  intros Hinv Hp. destruct (Hinv _ _ Hp) as [_ Hin].
  destruct (indexOf_Some _ _ Hin) as (i & Hidx & Hi).
  exists i. split; [exact Hi |].
  unfold MapSymbolTable_add. simpl. rewrite Hp, Hidx. reflexivity.
Qed.

Lemma MapSymbolTable_inv_add (t : MapSymbolTable) (s : Symbol) :
  MapSymbolTable_inv t -> MapSymbolTable_inv (MapSymbolTable_add t s).
Proof.
  intros Hinv n v Hl.
  destruct (decide (n = Symbol_name s)) as [->|Hne].
  - simpl in Hl. rewrite lookup_insert_eq in Hl. injection Hl as <-.
    split; [reflexivity |]. simpl. apply elem_of_app. right. apply list_elem_of_singleton.
    reflexivity.
  - simpl in Hl. rewrite lookup_insert_ne in Hl by congruence.
    destruct (Hinv _ _ Hl) as [Hn Hv]. split; [exact Hn |].
    destruct (map_ t !! Symbol_name s) as [previous|] eqn:Hp.
    + destruct (MapSymbolTable_add_values_dup t s previous Hinv Hp) as (i & Hi & ->).
      apply elem_of_app. left.
      apply (elem_of_insert_other _ _ previous); [exact Hi | exact Hv |].
      intros ->. destruct (Hinv _ _ Hp) as [Hn' _]. congruence.
    + unfold MapSymbolTable_add. simpl. rewrite Hp.
      apply elem_of_app. left. exact Hv.
Qed.

Lemma MapSymbolTable_inv_addAll (l : list Symbol) (t : MapSymbolTable) :
  MapSymbolTable_inv t -> MapSymbolTable_inv (MapSymbolTable_addAll t l).
Proof.
  revert t. induction l as [|s l IH]; intros t Hinv; simpl; [exact Hinv |].
  apply IH, MapSymbolTable_inv_add, Hinv.
Qed.

Lemma MapSymbolTable_add_length (t : MapSymbolTable) (s : Symbol) :
  length (_values (MapSymbolTable_add t s)) = S (length (_values t)).
Proof.
  unfold MapSymbolTable_add. simpl. rewrite length_app. simpl.
  destruct (map_ t !! Symbol_name s) as [p|]; [| lia].
  destruct (indexOf (_values t) p); [rewrite length_insert |]; lia.
Qed.

Lemma MapSymbolTable_add_size (t : MapSymbolTable) (s : Symbol) :
  MapSymbolTable_size (MapSymbolTable_add t s)
  = if MapSymbolTable_has t (Symbol_name s)
    then MapSymbolTable_size t else S (MapSymbolTable_size t).
Proof.
  unfold MapSymbolTable_size, MapSymbolTable_has. simpl.
  destruct (map_ t !! Symbol_name s) as [p|] eqn:Hp.
  - rewrite bool_decide_eq_true_2 by eauto.
    rewrite <- (insert_delete_id (map_ t) (Symbol_name s) p Hp) at 2.
    rewrite <- insert_delete_eq.
    rewrite !map_size_insert_None by apply lookup_delete_eq. reflexivity.
  - rewrite bool_decide_eq_false_2 by (intros [? ?]; discriminate).
    apply map_size_insert_None, Hp.
Qed.

(** The enumeration never has fewer entries than the map has names, and
    once it has more it keeps having more. *)
Lemma MapSymbolTable_addAll_size_le (l : list Symbol) (t : MapSymbolTable) :
  (MapSymbolTable_size t <= length (_values t))%nat ->
  (MapSymbolTable_size (MapSymbolTable_addAll t l)
   <= length (_values (MapSymbolTable_addAll t l)))%nat.
Proof.
  revert t. induction l as [|s l IH]; intros t H; simpl; [exact H |].
  apply IH. rewrite MapSymbolTable_add_length, MapSymbolTable_add_size.
  destruct (MapSymbolTable_has t (Symbol_name s)); lia.
Qed.

Lemma MapSymbolTable_addAll_size_lt (l : list Symbol) (t : MapSymbolTable) :
  (MapSymbolTable_size t < length (_values t))%nat ->
  (MapSymbolTable_size (MapSymbolTable_addAll t l)
   < length (_values (MapSymbolTable_addAll t l)))%nat.
Proof.
  revert t. induction l as [|s l IH]; intros t H; simpl; [exact H |].
  apply IH. rewrite MapSymbolTable_add_length, MapSymbolTable_add_size.
  destruct (MapSymbolTable_has t (Symbol_name s)); lia.
Qed.

Lemma MapSymbolTable_addAll_app (l1 l2 : list Symbol) (t : MapSymbolTable) :
  MapSymbolTable_addAll t (l1 ++ l2)
  = MapSymbolTable_addAll (MapSymbolTable_addAll t l1) l2.
Proof. unfold MapSymbolTable_addAll. apply foldl_app. Qed.

Lemma MapSymbolTable_has_addAll (l : list Symbol) (t : MapSymbolTable) (n : string) :
  MapSymbolTable_has (MapSymbolTable_addAll t l) n = true
  <-> MapSymbolTable_has t n = true \/ exists x, x ∈ l /\ Symbol_name x = n.
Proof.
  revert t. induction l as [|s l IH]; intros t; simpl.
  - split; [auto | intros [H | (x & Hx & _)]; [exact H | inversion Hx]].
  - rewrite IH. unfold MapSymbolTable_has at 1. simpl.
    rewrite bool_decide_eq_true. split.
    + intros [H | (x & Hx & Hn)].
      * destruct (decide (Symbol_name s = n)) as [E|E].
        -- right. exists s. split; [left | exact E].
        -- left. rewrite lookup_insert_ne in H by exact E.
           unfold MapSymbolTable_has. apply bool_decide_eq_true. exact H.
      * right. exists x. split; [right; exact Hx | exact Hn].
    + intros [H | (x & Hx & Hn)].
      * left. unfold MapSymbolTable_has in H. apply bool_decide_eq_true in H.
        destruct (decide (Symbol_name s = n)) as [E|E].
        -- rewrite E, lookup_insert_eq. eauto.
        -- rewrite lookup_insert_ne by exact E. exact H.
      * apply elem_of_cons in Hx as [-> | Hx].
        -- left. rewrite Hn, lookup_insert_eq. eauto.
        -- right. exists x. split; [exact Hx | exact Hn].
Qed.

Lemma mergeSymbolTable_addAll (tables : list SymbolTable) (t : MapSymbolTable) :
  foldl (fun result symbolTable =>
           MapSymbolTable_addAll result (SymbolTable_values symbolTable)) t tables
  = MapSymbolTable_addAll t (concat (map SymbolTable_values tables)).
Proof.
  revert t. induction tables as [|A tables IH]; intros t; simpl; [reflexivity |].
  rewrite IH, MapSymbolTable_addAll_app. reflexivity.
Qed.

Lemma MapSymbolTable_duplicate_lt (l1 l2 : list Symbol) (s : Symbol) :
  MapSymbolTable_has (MapSymbolTable_addAll MapSymbolTable_new l1) (Symbol_name s) = true ->
  let t := MapSymbolTable_addAll MapSymbolTable_new (l1 ++ s :: l2) in
  (MapSymbolTable_size t < length (MapSymbolTable_values t))%nat.
Proof.
  intros Hhas t. subst t. rewrite MapSymbolTable_addAll_app. simpl.
  apply MapSymbolTable_addAll_size_lt.
  rewrite MapSymbolTable_add_length, MapSymbolTable_add_size, Hhas.
  pose proof (MapSymbolTable_addAll_size_le l1 MapSymbolTable_new) as H.
  simpl in H. unfold MapSymbolTable_size in H at 1. simpl in H.
  rewrite map_size_empty in H. specialize (H (le_n 0)). lia.
Qed.

(** C9. [getTypeUnion] computes no union: of a non-empty argument list it
    returns the last argument as it is (and leaves the query alone), of the
    empty list the built-in [Any] type of [getBuiltinType]. *)
Theorem getTypeUnion_last_or_any (q : TypeScriptSymbolQuery) :
  (forall (init : list Symbol) (t : Symbol),
      getTypeUnion q (init ++ [t]) = (Ret t, q))
  /\ getTypeUnion q [] = getBuiltinType q Any.
Proof.
  split; [| reflexivity].
  intros init t. unfold getTypeUnion. rewrite last_snoc. reflexivity.
Qed.

(** C8, as amended.  [getNonNullableType] answers with a wrapper of the
    checker's non-nullable type exactly when the input is a [TypeWrapper],
    the checker has [getNonNullableType] and that type is another object
    than the wrapped one.  In every other case (the type is already
    non-nullable, the checker lacks the function, the input is no
    [TypeWrapper]) it answers with what [getBuiltinType(BuiltinType.Any)]
    answers with: the symbol the type cache holds for [Any], with the query
    unchanged, and that is the input symbol exactly when the input is the
    cached symbol; or, when the cache holds none, a wrapper of the checker's
    any type in the context of the query, which is then cached, and which is
    not the input unless the input is such a wrapper. *)
Theorem getNonNullableType_wrapper_or_any (q : TypeScriptSymbolQuery) (symbol : Symbol) :
  (forall t context nonNullable,
      symbol = TypeWrapper t context ->
      checker_getNonNullableType (query_context q) = Some nonNullable ->
      nonNullable t <> t ->
      getNonNullableType q symbol = (Ret (TypeWrapper (nonNullable t) context), q))
  /\ (~ (exists t context nonNullable,
            symbol = TypeWrapper t context
            /\ checker_getNonNullableType (query_context q) = Some nonNullable
            /\ nonNullable t <> t) ->
      getNonNullableType q symbol = getBuiltinType q Any
      /\ (forall cached,
             typeCache q !! Any = Some cached ->
             getNonNullableType q symbol = (Ret cached, q)
             /\ (fst (getNonNullableType q symbol) = Ret symbol <-> symbol = cached))
      /\ (typeCache q !! Any = None ->
          let any :=
            TypeWrapper (getTypeAtSynthetic (query_context q) SynAsExpression_True_Any)
                        (query_context q) in
          getNonNullableType q symbol
          = (Ret any, set_typeCache q (<[Any := any]> (typeCache q)))
          /\ (symbol <> any -> fst (getNonNullableType q symbol) <> Ret symbol))).
Proof.
  split.
  - intros t context nonNullable -> Hc Hne. simpl. rewrite Hc.
    destruct (decide (nonNullable t <> t)) as [_|Hn]; [reflexivity | contradiction].
  - intros Hother.
    assert (getNonNullableType q symbol = getBuiltinType q Any) as E.
    { destruct symbol as [t context| | |]; try reflexivity. simpl.
      destruct (checker_getNonNullableType (query_context q)) as [nonNullable|] eqn:Hc;
        [| reflexivity].
      destruct (decide (nonNullable t <> t)) as [Hne|_]; [| reflexivity].
      exfalso. apply Hother. exists t, context, nonNullable. auto. }
    split; [exact E | split].
    + intros cached Hcached. rewrite E. unfold getBuiltinType. rewrite Hcached.
      split; [reflexivity |]. simpl. split; [intros [= ->] | intros ->]; reflexivity.
    + intros Hfresh any. rewrite E. unfold getBuiltinType. rewrite Hfresh. simpl.
      split; [reflexivity |]. intros Hne Heq. apply Hne. subst any.
      injection Heq as <-. reflexivity.
Qed.

(** C6. The pipe named [async], asked for the signature that fits the single
    argument type [Observable<T>], [Promise<T>] or [EventEmitter<T>] (a
    [TypeWrapper] of a checker type of that name with the one type argument
    [T]), returns a signature whose result type is the wrapper of [T]; so
    does the pipe named [slice] for the single argument type [Array<T>]. *)
Theorem PipeSymbol_selectSignature_unwraps
    (pipe : PipeInfo) (context parameterContext : TypeContext)
    (wrapper T : tsType) (s : tsSymbol) :
  type_symbol wrapper = Some s ->
  type_typeArguments wrapper = Some [T] ->
  (pipe_name pipe = "async"
   /\ (symbol_name s = "Observable" \/ symbol_name s = "Promise"
       \/ symbol_name s = "EventEmitter"))
  \/ (pipe_name pipe = "slice" /\ symbol_name s = "Array") ->
  exists signature,
    PipeSymbol_selectSignature pipe context [TypeWrapper wrapper parameterContext]
    = Ret (Some signature)
    /\ Signature_result signature = TypeWrapper T parameterContext.
Proof.
  intros Hs Ha Hcase. unfold PipeSymbol_selectSignature.
  destruct (PipeSymbol_tsType_returns pipe context) as [this Hthis].
  rewrite Hthis. cbn -[getTypeParameterOf selectSignature].
  assert (forall name, symbol_name s = name ->
                       getTypeParameterOf (Some wrapper) name = Some T) as Hparam.
  { intros name Hn. exact (getTypeParameterOf_single wrapper T s name Hs Hn Ha). }
  assert (forall name, symbol_name s = name -> name <> "" ->
                       TypeWrapper_name wrapper = name) as Hname.
  { intros name Hn Hne. unfold TypeWrapper_name. rewrite Hs, Hn.
    destruct (String.eqb_spec name ""); [contradiction | reflexivity]. }
  destruct Hcase as [[Hp Hsym] | [Hp Hsym]]; rewrite Hp;
    cbn -[getTypeParameterOf selectSignature].
  - destruct Hsym as [Hn | [Hn | Hn]];
      rewrite (Hname _ Hn) by discriminate;
      cbn -[getTypeParameterOf selectSignature];
      rewrite (Hparam _ Hn); eexists; split; reflexivity.
  - rewrite (Hparam _ Hsym). eexists; split; reflexivity.
Qed.

(** C10. In a [MapSymbolTable] built by [add]s, adding a symbol whose name is
    already present makes [get(name)] answer the new symbol, overwrites the
    entry of the previous holder of the name in place and appends the new
    symbol as well, so that the new symbol is enumerated at least twice and
    [size] is strictly less than [values().length], also after any further
    [add]s; hence [mergeSymbolTable] of tables two of which enumerate a
    symbol of the same name yields a table that enumerates more entries than
    its [size]. *)
Theorem MapSymbolTable_duplicate_add :
  (forall (l : list Symbol) (s : Symbol),
      let t := MapSymbolTable_addAll MapSymbolTable_new l in
      MapSymbolTable_has t (Symbol_name s) = true ->
      let t' := MapSymbolTable_add t s in
      MapSymbolTable_get t' (Symbol_name s) = Some s
      /\ (exists i previous,
             MapSymbolTable_get t (Symbol_name s) = Some previous
             /\ MapSymbolTable_values t !! i = Some previous
             /\ MapSymbolTable_values t'
                = <[i := s]> (MapSymbolTable_values t) ++ [s])
      /\ (2 <= count_occ Symbol_eq_dec (MapSymbolTable_values t') s)%nat
      /\ (forall more,
             let t'' := MapSymbolTable_addAll t' more in
             (MapSymbolTable_size t'' < length (MapSymbolTable_values t''))%nat))
  /\ (forall (tables : list SymbolTable) (i j : nat) (A B : SymbolTable) (a b : Symbol),
         (i < j)%nat -> tables !! i = Some A -> tables !! j = Some B ->
         a ∈ SymbolTable_values A -> b ∈ SymbolTable_values B ->
         Symbol_name a = Symbol_name b ->
         let merged := mergeSymbolTable tables in
         (MapSymbolTable_size merged < length (MapSymbolTable_values merged))%nat).
Proof.
  split.
  - intros l s t Hhas t'.
    assert (MapSymbolTable_inv t) as Hinv
        by apply MapSymbolTable_inv_addAll, MapSymbolTable_inv_new.
    unfold MapSymbolTable_has in Hhas. apply bool_decide_eq_true in Hhas as [previous Hp].
    destruct (MapSymbolTable_add_values_dup t s previous Hinv Hp) as (i & Hi & Hv).
    split; [| split; [| split]].
    + unfold MapSymbolTable_get. simpl. apply lookup_insert_eq.
    + exists i, previous. auto.
    + unfold MapSymbolTable_values, t'. rewrite Hv, count_occ_app. simpl.
      destruct (Symbol_eq_dec s s) as [_|]; [| contradiction].
      assert (s ∈ <[i := s]> (_values t)) as Hin.
      { apply list_elem_of_lookup. exists i. apply list_lookup_insert_eq.
        apply lookup_lt_Some in Hi. exact Hi. }
      apply list_elem_of_In, (count_occ_In Symbol_eq_dec) in Hin. lia.
    + intros more t''. subst t'' t' t.
      change (MapSymbolTable_addAll
                (MapSymbolTable_add (MapSymbolTable_addAll MapSymbolTable_new l) s) more)
        with (MapSymbolTable_addAll
                (MapSymbolTable_addAll (MapSymbolTable_addAll MapSymbolTable_new l) [s])
                more).
      rewrite <- !MapSymbolTable_addAll_app, <- ?app_assoc. simpl.
      apply MapSymbolTable_duplicate_lt.
      unfold MapSymbolTable_has. apply bool_decide_eq_true. eauto.
  - intros tables i j A B a b Hij HA HB Ha Hb Hname merged. subst merged.
    unfold mergeSymbolTable. rewrite mergeSymbolTable_addAll.
    apply list_elem_of_split in Hb as (b1 & b2 & Hb).
    rewrite <- (take_drop_middle tables j B HB), map_app, concat_app. simpl.
    rewrite Hb, <- !app_assoc. simpl. rewrite app_assoc.
    apply MapSymbolTable_duplicate_lt.
    apply MapSymbolTable_has_addAll. right. exists a. split; [| exact Hname].
    apply elem_of_app. left. apply list_elem_of_In, in_concat.
    exists (SymbolTable_values A). split; [| apply list_elem_of_In, Ha].
    apply in_map, list_elem_of_In, list_elem_of_lookup. exists i.
    rewrite lookup_take_lt by exact Hij. exact HA.
Qed.

End SymbolLayerFacts.

(* ------------------------------------------------------------------ *)
(** * Reasoning about calls *)

(** Induction on a syntax tree, with the property known of every child. *)
Lemma Node_children_ind (P : Node -> Prop) :
  (forall n, Forall P (children n) -> P n) -> forall n, P n.
Proof.
  intros step.
  fix IH 1. intros [k p s e t nm ex ds cs]. apply step. simpl.
  induction cs as [|c cs IHcs]; constructor; [apply IH | exact IHcs].
Qed.

Section CallFacts.
Context `{C : Compiler}.

Lemma Run_eta {A} (r : Run A) :
  {| outcome := outcome r; final := final r; events := events r |} = r.
Proof. destruct r; reflexivity. Qed.

Lemma M_bind_ret_l {A B} (a : A) (k : A -> M B) (env : Env) (h : TypeScriptServiceHost) :
  M_bind (M_ret a) k env h = k a env h.
Proof. unfold M_bind, M_ret. simpl. apply Run_eta. Qed.

Lemma M_bind_assoc {A B D} (m : M A) (k : A -> M B) (k' : B -> M D)
    (env : Env) (h : TypeScriptServiceHost) :
  M_bind (M_bind m k) k' env h = M_bind m (fun a => M_bind (k a) k') env h.
Proof.
  unfold M_bind. destruct (m env h) as [[a|e] h1 t1]; simpl; [| reflexivity].
  destruct (k a env h1) as [[b|e] h2 t2]; simpl; [| reflexivity].
  destruct (k' b env h2) as [o h3 t3]; simpl. rewrite app_assoc. reflexivity.
Qed.

Lemma M_bind_validate {B} (k : unit -> M B) (env : Env) (h : TypeScriptServiceHost) :
  M_bind M_validate k env h = after [EvValidate] (k tt env (validate env h)).
Proof. reflexivity. Qed.

Lemma M_bind_read {A B} (f : CacheField) (field : TypeScriptServiceHost -> A)
    (k : A -> M B) (env : Env) (h : TypeScriptServiceHost) :
  M_bind (M_read f field) k env h = after [EvRead f] (k (field h) env h).
Proof. reflexivity. Qed.

Lemma M_bind_get {A B} (field : TypeScriptServiceHost -> A)
    (k : A -> M B) (env : Env) (h : TypeScriptServiceHost) :
  M_bind (M_get field) k env h = k (field h) env h.
Proof. unfold M_bind, M_get. simpl. apply Run_eta. Qed.

Lemma M_bind_env {B} (k : Env -> M B) (env : Env) (h : TypeScriptServiceHost) :
  M_bind M_env k env h = k env env h.
Proof. unfold M_bind, M_env. simpl. apply Run_eta. Qed.

Lemma M_bind_update {B} (f : TypeScriptServiceHost -> TypeScriptServiceHost)
    (k : unit -> M B) (env : Env) (h : TypeScriptServiceHost) :
  M_bind (M_update f) k env h = k tt env (f h).
Proof. unfold M_bind, M_update. simpl. apply Run_eta. Qed.

Lemma M_bind_lift {A B} (a : A) (k : A -> M B) (env : Env) (h : TypeScriptServiceHost) :
  M_bind (M_lift (Ret a)) k env h = k a env h.
Proof. unfold M_bind, M_lift. simpl. apply Run_eta. Qed.

Lemma M_bind_run {A B} (m : M A) (k : A -> M B) (env : Env)
    (h : TypeScriptServiceHost) (a : A) :
  outcome (m env h) = Ret a ->
  M_bind m k env h = after (events (m env h)) (k a env (final (m env h))).
Proof. unfold M_bind. intros ->. reflexivity. Qed.



Lemma M_bind_ext {A B} (m : M A) (k k' : A -> M B) (env : Env)
    (h : TypeScriptServiceHost) :
  (forall a h', k a env h' = k' a env h') ->
  M_bind m k env h = M_bind m k' env h.
Proof.
  intros H. unfold M_bind. destruct (outcome (m env h)); [| reflexivity].
  rewrite H. reflexivity.
Qed.

(** A call that returned went through each of its steps. *)
Lemma M_bind_Ret {A B} (m : M A) (k : A -> M B) (env : Env)
    (h : TypeScriptServiceHost) (b : B) :
  outcome (M_bind m k env h) = Ret b ->
  exists a, outcome (m env h) = Ret a
            /\ outcome (k a env (final (m env h))) = Ret b
            /\ final (M_bind m k env h) = final (k a env (final (m env h)))
            /\ events (M_bind m k env h)
               = events (m env h) ++ events (k a env (final (m env h))).
Proof.
  unfold M_bind. destruct (m env h) as [[a|e] h1 t1]; simpl; [| discriminate].
  intros H. exists a. auto.
Qed.

Lemma M_bind_step {A B} (m : M A) (k : A -> M B) (env : Env)
    (h : TypeScriptServiceHost) (a : A) :
  outcome (m env h) = Ret a ->
  outcome (M_bind m k env h) = outcome (k a env (final (m env h)))
  /\ final (M_bind m k env h) = final (k a env (final (m env h)))
  /\ events (M_bind m k env h) = events (m env h) ++ events (k a env (final (m env h))).
Proof. unfold M_bind. intros ->. auto. Qed.

Lemma M_bind_Throw {A B} (m : M A) (k : A -> M B) (env : Env)
    (h : TypeScriptServiceHost) (e : JsError) :
  outcome (m env h) = Throw e ->
  outcome (M_bind m k env h) = Throw e
  /\ final (M_bind m k env h) = final (m env h)
  /\ events (M_bind m k env h) = events (m env h).
Proof. unfold M_bind. intros ->. auto. Qed.

(** The events of a call start with the events of its first step. *)
Lemma M_bind_events {A B} (m : M A) (k : A -> M B) (env : Env)
    (h : TypeScriptServiceHost) :
  exists rest, events (M_bind m k env h) = events (m env h) ++ rest.
Proof.
  unfold M_bind. destruct (outcome (m env h)); simpl; eexists;
    [reflexivity | symmetry; apply app_nil_r].
Qed.

Lemma M_foldl_app {A B} (f : A -> B -> M A) (l1 l2 : list B) (a : A)
    (env : Env) (h : TypeScriptServiceHost) :
  M_foldl f a (l1 ++ l2) env h
  = M_bind (M_foldl f a l1) (fun a' => M_foldl f a' l2) env h.
Proof.
  revert a h. induction l1 as [|b l1 IH]; intros a h; simpl.
  - symmetry. exact (M_bind_ret_l a (fun a' => M_foldl f a' l2) env h).
  - rewrite M_bind_assoc.
    change (M_bind (f a b) (fun a' => M_foldl f a' (l1 ++ l2)) env h
            = M_bind (f a b)
                (fun a' => M_bind (M_foldl f a' l1) (fun a'' => M_foldl f a'' l2)) env h).
    unfold M_bind at 1 2.
    destruct (f a b env h) as [[a'|e] h1 t1]; simpl; [| reflexivity].
    rewrite IH. reflexivity.
Qed.

(** *** Calls that return *)

Lemma Returns_intro {A} (m : M A) (env : Env) (h : TypeScriptServiceHost) (a : A) :
  outcome (m env h) = Ret a -> Returns m env h a (final (m env h)).
Proof. intros H. split; [exact H | reflexivity]. Qed.

Lemma Returns_bind {A B} (m : M A) (k : A -> M B) (env : Env)
    (h h'' : TypeScriptServiceHost) (b : B) :
  Returns (M_bind m k) env h b h''
  <-> exists a h', Returns m env h a h' /\ Returns (k a) env h' b h''.
Proof.
  unfold Returns, M_bind. split.
  - destruct (m env h) as [[a|e] h1 t1]; simpl; [| intros [? _]; discriminate].
    intros [Ho Hf]. exists a, h1. auto.
  - intros (a & h' & [Ho Hf] & [Ho' Hf']). rewrite Ho, Hf. simpl. auto.
Qed.

Lemma Returns_ret {A} (a b : A) (env : Env) (h h' : TypeScriptServiceHost) :
  Returns (M_ret a) env h b h' <-> b = a /\ h' = h.
Proof. unfold Returns, M_ret. simpl. split; intros [H1 H2]; split; congruence. Qed.


Lemma Returns_env (env env' : Env) (h h' : TypeScriptServiceHost) :
  Returns M_env env h env' h' <-> env' = env /\ h' = h.
Proof. unfold Returns, M_env. simpl. split; intros [H1 H2]; split; congruence. Qed.

Lemma Returns_read {A} (f : CacheField) (field : TypeScriptServiceHost -> A)
    (env : Env) (h h' : TypeScriptServiceHost) (a : A) :
  Returns (M_read f field) env h a h' <-> a = field h /\ h' = h.
Proof. unfold Returns, M_read. simpl. split; intros [H1 H2]; split; congruence. Qed.

Lemma Returns_get {A} (field : TypeScriptServiceHost -> A)
    (env : Env) (h h' : TypeScriptServiceHost) (a : A) :
  Returns (M_get field) env h a h' <-> a = field h /\ h' = h.
Proof. unfold Returns, M_get. simpl. split; intros [H1 H2]; split; congruence. Qed.

Lemma Returns_update (f : TypeScriptServiceHost -> TypeScriptServiceHost)
    (env : Env) (h h' : TypeScriptServiceHost) (u : unit) :
  Returns (M_update f) env h u h' <-> h' = f h.
Proof.
  unfold Returns, M_update. simpl. destruct u.
  split; [intros [_ H]; congruence | intros ->; auto].
Qed.

Lemma Returns_validate (env : Env) (h h' : TypeScriptServiceHost) (u : unit) :
  Returns M_validate env h u h' <-> h' = validate env h.
Proof.
  unfold Returns, M_validate. simpl. destruct u.
  split; [intros [_ H]; congruence | intros ->; auto].
Qed.

Lemma Returns_call {A} (c : Call A) (env : Env) (h h' : TypeScriptServiceHost) (a : A) :
  Returns (M_call c) env h a h'
  <-> completion c = Ret a
      /\ h' = foldl (fun h r => collectError r.1 r.2 h) h (reported c).
Proof. unfold Returns, M_call. simpl. split; intros [H1 H2]; split; congruence. Qed.

(** *** Properties of the host that a call keeps *)

Section Preservation.
Variable env : Env.
Variable P : TypeScriptServiceHost -> Prop.

Lemma Preserves_ret {A} (a : A) : Preserves env P (M_ret a).
Proof. intros h H. exact H. Qed.

Lemma Preserves_throw {A} (e : JsError) : Preserves env P (@M_throw _ _ A e).
Proof. intros h H. exact H. Qed.

Lemma Preserves_env : Preserves env P M_env.
Proof. intros h H. exact H. Qed.

Lemma Preserves_read {A} (f : CacheField) (field : TypeScriptServiceHost -> A) :
  Preserves env P (M_read f field).
Proof. intros h H. exact H. Qed.

Lemma Preserves_get {A} (field : TypeScriptServiceHost -> A) :
  Preserves env P (M_get field).
Proof. intros h H. exact H. Qed.

Lemma Preserves_lift {A} (o : Outcome A) : Preserves env P (M_lift o).
Proof. intros h H. exact H. Qed.

Lemma Preserves_bind {A B} (m : M A) (k : A -> M B) :
  Preserves env P m -> (forall a, Preserves env P (k a)) ->
  Preserves env P (M_bind m k).
Proof.
  intros Hm Hk h H. unfold M_bind. specialize (Hm h H).
  destruct (m env h) as [[a|e] h1 t1]; simpl in *; [apply Hk, Hm | exact Hm].
Qed.

Lemma Preserves_try {A} (body : M A) (handler : JsError -> M A) :
  Preserves env P body -> (forall e, Preserves env P (handler e)) ->
  Preserves env P (M_try body handler).
Proof.
  intros Hm Hk h H. unfold M_try. specialize (Hm h H).
  destruct (body env h) as [[a|e] h1 t1]; simpl in *; [exact Hm | apply Hk, Hm].
Qed.

Lemma Preserves_update (f : TypeScriptServiceHost -> TypeScriptServiceHost) :
  (forall h, P h -> P (f h)) -> Preserves env P (M_update f).
Proof. intros Hf h H. apply Hf, H. Qed.

Lemma Preserves_call {A} (c : Call A) :
  (forall e f h, P h -> P (collectError e f h)) -> Preserves env P (M_call c).
Proof.
  intros Hc h H. unfold M_call. simpl. revert h H.
  induction (reported c) as [|r l IH]; intros h H; simpl; [exact H |].
  apply IH, Hc, H.
Qed.

Lemma Preserves_validate :
  (forall h, P h -> P (validate env h)) -> Preserves env P M_validate.
Proof. intros Hv h H. apply Hv, H. Qed.

Lemma Preserves_foldl {A B} (f : A -> B -> M A) (l : list B) :
  (forall a b, Preserves env P (f a b)) -> forall a, Preserves env P (M_foldl f a l).
Proof.
  intros Hf. induction l as [|b l IH]; intros a; simpl.
  - apply Preserves_ret.
  - apply Preserves_bind; [apply Hf | exact IH].
Qed.

Lemma Preserves_foldl_Forall {A B} (f : A -> B -> M A) (l : list B) :
  Forall (fun b => forall a, Preserves env P (f a b)) l ->
  forall a, Preserves env P (M_foldl f a l).
Proof.
  induction 1 as [|b l Hb _ IH]; intros a; simpl.
  - apply Preserves_ret.
  - apply Preserves_bind; [apply Hb | exact IH].
Qed.

Lemma Preserves_ext {A} (m m' : M A) :
  (forall h, m env h = m' env h) -> Preserves env P m' -> Preserves env P m.
Proof. intros E H h Hh. rewrite E. apply H, Hh. Qed.

End Preservation.

End CallFacts.

(** Splits a goal [Preserves env P m] along the structure of [m]. *)
Ltac preserves_step :=
  lazymatch goal with
  | |- Preserves _ _ (M_bind _ _) => apply Preserves_bind; [| intros ?]
  | |- Preserves _ _ (M_try _ _) => apply Preserves_try; [| intros ?]
  | |- Preserves _ _ (M_ret _) => apply Preserves_ret
  | |- Preserves _ _ (M_throw _) => apply Preserves_throw
  | |- Preserves _ _ M_env => apply Preserves_env
  | |- Preserves _ _ (M_read _ _) => apply Preserves_read
  | |- Preserves _ _ (M_get _) => apply Preserves_get
  | |- Preserves _ _ (M_lift _) => apply Preserves_lift
  | |- Preserves _ _ (M_foldl _ _ _) => apply Preserves_foldl; intros ? ?
  | |- Preserves _ _ (match ?x with _ => _ end) => destruct x
  | |- Preserves _ _ (let _ := ?x in _) => cbv zeta
  end.

Ltac preserves := repeat preserves_step.

(* ------------------------------------------------------------------ *)
(** * Properties of the invalidation *)

Section ValidateFacts.
Context `{C : Compiler}.

Lemma invalidateFile_fileVersions (f : string) (h : TypeScriptServiceHost) :
  fileVersions (invalidateFile f h) = fileVersions h.
Proof. unfold invalidateFile. destruct (_staticSymbolResolver h); reflexivity. Qed.

Lemma invalidateFile_resolver (f : string) (h : TypeScriptServiceHost) :
  is_Some (_staticSymbolResolver h) ->
  is_Some (_staticSymbolResolver (invalidateFile f h))
  /\ invalidatedFiles (invalidateFile f h) = {[f]} ∪ invalidatedFiles h.
Proof.
  intros [r Hr]. unfold invalidatedFiles, invalidateFile. rewrite Hr. simpl. eauto.
Qed.

(** What the loop of [validate] leaves alone. *)
Lemma invalidateFile_frame {A} (field : TypeScriptServiceHost -> A) (f : string)
    (h : TypeScriptServiceHost) :
  (forall v h, field (set__staticSymbolResolver v h) = field h) ->
  field (invalidateFile f h) = field h.
Proof.
  intros H. unfold invalidateFile. destruct (_staticSymbolResolver h); [apply H | reflexivity].
Qed.

Lemma validate_file_frame {A} (field : TypeScriptServiceHost -> A) (env : Env)
    (acc : gset string * TypeScriptServiceHost) (sf : SourceFile) :
  (forall v h, field (set__staticSymbolResolver v h) = field h) ->
  (forall v h, field (set_fileVersions v h) = field h) ->
  field (validate_file env acc sf).2 = field acc.2.
Proof.
  intros H1 H2. unfold validate_file. case_bool_decide; simpl; [| reflexivity].
  rewrite invalidateFile_frame by exact H1. apply H2.
Qed.

Lemma validate_files_frame {A} (field : TypeScriptServiceHost -> A) (env : Env)
    (files : list SourceFile) (acc : gset string * TypeScriptServiceHost) :
  (forall v h, field (set__staticSymbolResolver v h) = field h) ->
  (forall v h, field (set_fileVersions v h) = field h) ->
  field (foldl (validate_file env) acc files).2 = field acc.2.
Proof.
  intros H1 H2. revert acc. induction files as [|sf files IH]; intros acc; simpl;
    [reflexivity |].
  rewrite IH. apply validate_file_frame; assumption.
Qed.

Lemma validate_files_seen (env : Env) (files : list SourceFile)
    (acc : gset string * TypeScriptServiceHost) :
  (foldl (validate_file env) acc files).1 = acc.1 ∪ list_to_set (map fileName files).
Proof.
  revert acc. induction files as [|sf files IH]; intros acc; simpl.
  - set_solver.
  - rewrite IH. unfold validate_file. case_bool_decide; simpl; set_solver.
Qed.

Lemma validate_file_fileVersions (env : Env)
    (acc : gset string * TypeScriptServiceHost) (sf : SourceFile) (f : string) :
  fileVersions (validate_file env acc sf).2 !! f
  = if decide (f = fileName sf) then Some (getScriptVersion env f)
    else fileVersions acc.2 !! f.
Proof.
  unfold validate_file. case_bool_decide as Hv; simpl.
  - rewrite invalidateFile_fileVersions. simpl.
    destruct (decide (f = fileName sf)) as [->|Hne].
    + apply lookup_insert_eq.
    + apply lookup_insert_ne. congruence.
  - destruct (decide (f = fileName sf)) as [->|Hne]; [| reflexivity].
    destruct (decide (fileVersions acc.2 !! fileName sf
                      = Some (getScriptVersion env (fileName sf)))) as [E|E];
      [exact E | contradiction].
Qed.

Lemma validate_files_fileVersions (env : Env) (files : list SourceFile)
    (acc : gset string * TypeScriptServiceHost) (f : string) :
  fileVersions (foldl (validate_file env) acc files).2 !! f
  = if decide (f ∈ map fileName files) then Some (getScriptVersion env f)
    else fileVersions acc.2 !! f.
Proof.
  revert acc. induction files as [|sf files IH]; intros acc; simpl.
  - destruct (decide (f ∈ [])) as [H|_]; [inversion H | reflexivity].
  - rewrite IH, validate_file_fileVersions.
    destruct (decide (f ∈ map fileName files)) as [Hin|Hnin].
    + rewrite decide_True by (right; exact Hin). reflexivity.
    + destruct (decide (f = fileName sf)) as [->|Hne].
      * rewrite decide_True by left. reflexivity.
      * rewrite decide_False; [reflexivity |].
        intros H. apply elem_of_cons in H as [?|?]; contradiction.
Qed.

Lemma validate_file_resolver (env : Env)
    (acc : gset string * TypeScriptServiceHost) (sf : SourceFile) :
  is_Some (_staticSymbolResolver acc.2) ->
  is_Some (_staticSymbolResolver (validate_file env acc sf).2)
  /\ invalidatedFiles acc.2 ⊆ invalidatedFiles (validate_file env acc sf).2
  /\ (fileVersions acc.2 !! fileName sf <> Some (getScriptVersion env (fileName sf)) ->
      fileName sf ∈ invalidatedFiles (validate_file env acc sf).2).
Proof.
  intros [r Hr]. unfold validate_file. case_bool_decide as Hv; simpl.
  - unfold invalidatedFiles, invalidateFile. simpl. rewrite Hr. simpl.
    split; [eauto | split; [| intros _]]; set_solver.
  - split; [eauto | split; [reflexivity | intros H; contradiction]].
Qed.

Lemma validate_files_resolver (env : Env) (files : list SourceFile)
    (acc : gset string * TypeScriptServiceHost) :
  is_Some (_staticSymbolResolver acc.2) ->
  let r := foldl (validate_file env) acc files in
  is_Some (_staticSymbolResolver r.2)
  /\ invalidatedFiles acc.2 ⊆ invalidatedFiles r.2
  /\ (forall sf, sf ∈ files ->
        fileVersions acc.2 !! fileName sf <> Some (getScriptVersion env (fileName sf)) ->
        fileName sf ∈ invalidatedFiles r.2).
Proof.
  revert acc. induction files as [|sf files IH]; intros acc Hr; simpl.
  - split; [exact Hr | split; [reflexivity | intros sf H; inversion H]].
  - destruct (validate_file_resolver env acc sf Hr) as (Hr1 & Hsub1 & Hin1).
    destruct (IH _ Hr1) as (Hr2 & Hsub2 & Hin2).
    split; [exact Hr2 | split; [set_solver |]].
    intros sf' Hsf' Hchanged. apply elem_of_cons in Hsf' as [->|Hsf'].
    + apply Hsub2, Hin1, Hchanged.
    + destruct (decide (fileName sf' = fileName sf)) as [E|E].
      * apply Hsub2. rewrite E. apply Hin1. rewrite <- E. exact Hchanged.
      * apply Hin2; [exact Hsf' |].
        rewrite validate_file_fileVersions, decide_False by exact E. exact Hchanged.
Qed.

(** The two loops over the files that went missing. *)
Lemma delete_missing_fileVersions (missing : list string) (h : TypeScriptServiceHost)
    (f : string) :
  fileVersions
    (foldl (fun h f => set_fileVersions (delete f (fileVersions h)) h) h missing) !! f
  = if decide (f ∈ missing) then None else fileVersions h !! f.
Proof.
  revert h. induction missing as [|m missing IH]; intros h; simpl.
  - destruct (decide (f ∈ [])) as [H|_]; [inversion H | reflexivity].
  - rewrite IH. simpl.
    destruct (decide (f ∈ missing)) as [Hin|Hnin].
    + rewrite decide_True by (right; exact Hin). reflexivity.
    + destruct (decide (f = m)) as [->|Hne].
      * rewrite decide_True by left. apply lookup_delete_eq.
      * rewrite decide_False
          by (intros H; apply elem_of_cons in H as [?|?]; contradiction).
        apply lookup_delete_ne. congruence.
Qed.

Lemma delete_missing_frame {A} (field : TypeScriptServiceHost -> A)
    (missing : list string) (h : TypeScriptServiceHost) :
  (forall v h, field (set_fileVersions v h) = field h) ->
  field (foldl (fun h f => set_fileVersions (delete f (fileVersions h)) h) h missing)
  = field h.
Proof.
  intros H. revert h. induction missing as [|m missing IH]; intros h; simpl;
    [reflexivity |].
  rewrite IH. apply H.
Qed.

Lemma invalidate_missing_frame {A} (field : TypeScriptServiceHost -> A)
    (missing : list string) (h : TypeScriptServiceHost) :
  (forall v h, field (set__staticSymbolResolver v h) = field h) ->
  field (foldl (fun h f => invalidateFile f h) h missing) = field h.
Proof.
  intros H. revert h. induction missing as [|m missing IH]; intros h; simpl;
    [reflexivity |].
  rewrite IH. apply invalidateFile_frame, H.
Qed.

Lemma invalidate_missing_resolver (missing : list string) (h : TypeScriptServiceHost) :
  is_Some (_staticSymbolResolver h) ->
  is_Some (_staticSymbolResolver (foldl (fun h f => invalidateFile f h) h missing))
  /\ invalidatedFiles (foldl (fun h f => invalidateFile f h) h missing)
     = invalidatedFiles h ∪ list_to_set missing.
Proof.
  revert h. induction missing as [|m missing IH]; intros h Hr; simpl.
  - split; [exact Hr | set_solver].
  - destruct (invalidateFile_resolver m h Hr) as [Hr1 Hi1].
    destruct (IH _ Hr1) as [Hr2 Hi2]. split; [exact Hr2 |].
    rewrite Hi2, Hi1. set_solver.
Qed.

(** [validate] spelled out for the case that it acts. *)
Lemma validate_acts (env : Env) (h : TypeScriptServiceHost) :
  is_Some (_staticSymbolResolver h) -> lastProgram h <> Some (program env) ->
  validate env h
  = let r := foldl (validate_file env) (∅, clearCaches h)
                   (program_getSourceFiles (program env)) in
    let missing :=
      filter (fun f => f ∉ r.1) (map fst (map_to_list (fileVersions r.2))) in
    set_lastProgram (Some (program env))
      (foldl (fun h f => invalidateFile f h)
         (foldl (fun h f => set_fileVersions (delete f (fileVersions h)) h) r.2 missing)
         missing).
Proof.
  intros Hr Hp. unfold validate.
  rewrite (bool_decide_eq_true_2 _ Hr), (bool_decide_eq_true_2 _ Hp). reflexivity.
Qed.

Lemma validate_idle (env : Env) (h : TypeScriptServiceHost) :
  ~ (is_Some (_staticSymbolResolver h) /\ lastProgram h <> Some (program env)) ->
  validate env h = h.
Proof.
  intros H. unfold validate.
  destruct (bool_decide (is_Some (_staticSymbolResolver h))) eqn:E1; [| reflexivity].
  destruct (bool_decide (lastProgram h <> Some (program env))) eqn:E2; [| reflexivity].
  exfalso. apply H. split; [apply bool_decide_eq_true in E1 | apply bool_decide_eq_true in E2];
    assumption.
Qed.

Lemma validate_acts_lastProgram (env : Env) (h : TypeScriptServiceHost) :
  is_Some (_staticSymbolResolver h) -> lastProgram h <> Some (program env) ->
  lastProgram (validate env h) = Some (program env).
Proof. intros Hr Hp. rewrite (validate_acts env h Hr Hp). reflexivity. Qed.

(** C4, as amended.  When a static symbol resolver exists and the program is
    not the one seen last, [validate] invalidates every file of the program
    whose stamp is not the recorded one and records its stamp, drops every
    recorded file the program no longer has from the version map and
    invalidates it, clears the collected errors and remembers the program.
    When no resolver exists yet, or the program is the one seen last,
    [validate] changes nothing. *)
Theorem validate_on_program_change (env : Env) (h : TypeScriptServiceHost) :
  (is_Some (_staticSymbolResolver h) -> lastProgram h <> Some (program env) ->
   InvalidatesChangedFiles env h
   /\ lastProgram (validate env h) = Some (program env))
  /\ (~ (is_Some (_staticSymbolResolver h) /\ lastProgram h <> Some (program env)) ->
      validate env h = h).
Proof.
  split; [| apply validate_idle].
  intros Hr Hp. rewrite (validate_acts env h Hr Hp).
  unfold InvalidatesChangedFiles. rewrite (validate_acts env h Hr Hp).
  cbv zeta.
  set (files := program_getSourceFiles (program env)).
  set (r := foldl (validate_file env) (∅, clearCaches h) files).
  set (missing := filter (fun f => f ∉ r.1) (map fst (map_to_list (fileVersions r.2)))).
  assert (is_Some (_staticSymbolResolver
                     ((∅ : gset string), clearCaches h).2)) as Hr0 by exact Hr.
  destruct (validate_files_resolver env files (∅, clearCaches h) Hr0)
    as (Hr2 & _ & Hinv). fold r in Hr2, Hinv. simpl in Hinv.
  assert (forall f, f ∈ missing
                    <-> is_Some (fileVersions h !! f) /\ f ∉ map fileName files)
    as Hmissing.
  { intros f. unfold missing. rewrite list_elem_of_filter, list_elem_of_fmap.
    unfold r at 1. rewrite validate_files_seen. simpl. split.
    - intros (Hseen & [k v] & -> & Hk). apply elem_of_map_to_list in Hk. simpl in *.
      assert (k ∉ map fileName files) as Hn by set_solver.
      split; [| exact Hn].
      unfold r in Hk. rewrite validate_files_fileVersions, decide_False in Hk by exact Hn.
      simpl in Hk. eauto.
    - intros ([v Hv] & Hn). split; [set_solver |].
      exists (f, v). split; [reflexivity |]. apply elem_of_map_to_list.
      unfold r. rewrite validate_files_fileVersions, decide_False by exact Hn.
      exact Hv. }
  set (h3 := foldl (fun h f => set_fileVersions (delete f (fileVersions h)) h) r.2 missing).
  assert (is_Some (_staticSymbolResolver h3)) as Hr3.
  { unfold h3. rewrite (delete_missing_frame _staticSymbolResolver)
      by (intros; reflexivity). exact Hr2. }
  destruct (invalidate_missing_resolver missing h3 Hr3) as [Hr4 Hi4].
  assert (invalidatedFiles h3 = invalidatedFiles r.2) as Hi3.
  { unfold invalidatedFiles, h3.
    rewrite (delete_missing_frame _staticSymbolResolver) by (intros; reflexivity).
    reflexivity. }
  set (h4 := foldl (fun h f => invalidateFile f h) h3 missing) in *.
  assert (forall f, fileVersions (set_lastProgram (Some (program env)) h4) !! f
                    = if decide (f ∈ missing) then None
                      else if decide (f ∈ map fileName files)
                           then Some (getScriptVersion env f)
                           else fileVersions h !! f) as Hfv.
  { intros f. simpl. unfold h4.
    rewrite (invalidate_missing_frame fileVersions) by (intros; reflexivity).
    unfold h3. rewrite delete_missing_fileVersions.
    destruct (decide (f ∈ missing)); [reflexivity |].
    unfold r. rewrite validate_files_fileVersions. reflexivity. }
  assert (invalidatedFiles (set_lastProgram (Some (program env)) h4)
          = invalidatedFiles r.2 ∪ list_to_set missing) as Hinv4.
  { rewrite <- Hi3, <- Hi4. reflexivity. }
  split; [split; [| split] | reflexivity].
  - intros sf Hsf Hchanged. split.
    + rewrite Hinv4. apply elem_of_union_l, Hinv; assumption.
    + rewrite Hfv.
      assert (fileName sf ∈ map fileName files) as Hin
          by (apply list_elem_of_fmap; eauto).
      rewrite decide_False by (rewrite Hmissing; tauto).
      rewrite decide_True by exact Hin. reflexivity.
  - intros f Hknown Habsent.
    assert (f ∈ missing) as Hm by (apply Hmissing; auto).
    split.
    + rewrite Hfv, decide_True by exact Hm. reflexivity.
    + rewrite Hinv4. apply elem_of_union_r, elem_of_list_to_set, Hm.
  - simpl. unfold h4.
    rewrite (invalidate_missing_frame collectedErrors) by (intros; reflexivity).
    unfold h3. rewrite (delete_missing_frame collectedErrors) by (intros; reflexivity).
    unfold r. rewrite (validate_files_frame collectedErrors) by (intros; reflexivity).
    reflexivity.
Qed.

(** [validate] is idempotent. *)
Lemma validate_idempotent (env : Env) (h : TypeScriptServiceHost) :
  validate env (validate env h) = validate env h.
Proof.
  destruct (decide (is_Some (_staticSymbolResolver h)
                    /\ lastProgram h <> Some (program env))) as [[Hr Hp]|Hidle].
  - apply validate_idle. intros [_ Hne]. apply Hne.
    apply validate_acts_lastProgram; assumption.
  - rewrite (validate_idle env h Hidle). apply validate_idle, Hidle.
Qed.

End ValidateFacts.

(* ------------------------------------------------------------------ *)
(** * What the operations of the host keep *)

(** Splits [Preserves env P m] for a stable [P] down to the calls of the
    operations [m] is made of. *)
Ltac stable_using HS :=
  preserves;
  try (apply Preserves_update; intros ? ?);
  try (apply Preserves_validate; intros ? ?);
  try (apply Preserves_call; intros ? ? ? ?);
  first [ apply (stable_validate _ _ HS) | apply (stable_collectError _ _ HS)
        | apply (stable_context _ _ HS) | apply (stable_reflectorHost _ _ HS)
        | apply (stable_summaryResolver _ _ HS)
        | apply (stable_staticSymbolResolver _ _ HS)
        | apply (stable_reflector _ _ HS) | apply (stable_resolver _ _ HS)
        | apply (stable_checker _ _ HS) | apply (stable_templateReferences _ _ HS)
        | apply (stable_fileToComponent _ _ HS) | idtac ];
  try assumption.

Section StableCalls.
Context `{C : Compiler}.
Variable env : Env.
Variable P : TypeScriptServiceHost -> Prop.
Hypothesis HS : Stable env P.

Ltac stable := stable_using HS.

Lemma Preserves_reflectorHost : Preserves env P reflectorHost.
Proof. unfold reflectorHost. stable. Qed.

Lemma Preserves_staticSymbolResolver : Preserves env P staticSymbolResolver.
Proof. unfold staticSymbolResolver. stable. apply Preserves_reflectorHost. Qed.

Lemma Preserves_reflector : Preserves env P reflector.
Proof. unfold reflector. stable. apply Preserves_staticSymbolResolver. Qed.

Lemma Preserves_resolver : Preserves env P resolver.
Proof. unfold resolver. stable; apply Preserves_reflector. Qed.

Lemma Preserves_checker : Preserves env P checker.
Proof. unfold checker. stable. Qed.

Lemma Preserves_getSourceFile (f : string) : Preserves env P (getSourceFile f).
Proof. unfold getSourceFile. stable. Qed.

Lemma Preserves_getCollectedErrors (s : Span) (sf : SourceFile) :
  Preserves env P (getCollectedErrors s sf).
Proof. unfold getCollectedErrors. stable. Qed.

Lemma Preserves_declarationOf (sf : SourceFile) (target : Node) (s : StaticSymbol) :
  Preserves env P (declarationOf sf target s).
Proof.
  unfold declarationOf, declarationOf_try, declarationOf_catch, M_collectError.
  stable; first [apply Preserves_resolver | apply Preserves_getCollectedErrors].
Qed.

Lemma Preserves_getDeclarationFromDecorators (sf : SourceFile) (className : Node)
    (ds : list Node) :
  Preserves env P (getDeclarationFromDecorators sf className ds).
Proof.
  induction ds as [|d ds IH]; simpl; stable;
    first [ exact IH | apply Preserves_checker | apply Preserves_reflector
          | apply Preserves_declarationOf ].
Qed.

Lemma Preserves_getDeclarationFromNode (sf : SourceFile) (n : Node) :
  Preserves env P (getDeclarationFromNode sf n).
Proof.
  unfold getDeclarationFromNode. stable. apply Preserves_getDeclarationFromDecorators.
Qed.

Lemma visitDeclarations_unfold (sf : SourceFile) (child : Node)
    (result : list Declaration) (h : TypeScriptServiceHost) :
  visitDeclarations sf child result env h
  = M_bind (getDeclarationFromNode sf child) (fun declaration =>
      match declaration with
      | Some d => M_ret (result ++ [d])
      | None => visitAllDeclarations sf (children child) result
      end) env h.
Proof.
  destruct child as [k p s e t nm ex ds cs]. simpl. unfold visitAllDeclarations.
  apply M_bind_ext. intros [d|] h'; [reflexivity |].
  simpl. revert result h'. induction cs as [|c cs IH]; intros result h'; simpl;
    [reflexivity |].
  apply M_bind_ext. intros result' h''. apply IH.
Qed.

Lemma Preserves_visitDeclarations (sf : SourceFile) (child : Node) :
  forall result, Preserves env P (visitDeclarations sf child result).
Proof.
  induction child as [child IH] using Node_children_ind. intros result.
  apply (Preserves_ext env P _ _ (visitDeclarations_unfold sf child result)).
  stable; [apply Preserves_getDeclarationFromNode |].
  unfold visitAllDeclarations. apply Preserves_foldl_Forall, IH.
Qed.

Lemma Preserves_visitAllDeclarations (sf : SourceFile) (cs : list Node)
    (result : list Declaration) :
  Preserves env P (visitAllDeclarations sf cs result).
Proof.
  unfold visitAllDeclarations. apply Preserves_foldl. intros a b.
  apply Preserves_visitDeclarations.
Qed.

Lemma Preserves_getDeclarations (f : string) : Preserves env P (getDeclarations f).
Proof.
  unfold getDeclarations.
  stable; [apply Preserves_getSourceFile | apply Preserves_visitAllDeclarations].
Qed.

Lemma Preserves_getSourceFromNode (f v : string) (n : NodeRef) :
  Preserves env P (getSourceFromNode f v n).
Proof.
  unfold getSourceFromNode.
  stable; first [apply Preserves_getSourceFile | apply Preserves_reflector].
Qed.

Lemma Preserves_getTemplateClassFromStaticSymbol (s : StaticSymbol) :
  Preserves env P (getTemplateClassFromStaticSymbol s).
Proof.
  unfold getTemplateClassFromStaticSymbol. stable. apply Preserves_getSourceFile.
Qed.

Lemma Preserves_getSourceFromType (f v : string) (s : StaticSymbol) :
  Preserves env P (getSourceFromType f v s).
Proof.
  unfold getSourceFromType. stable. apply Preserves_getTemplateClassFromStaticSymbol.
Qed.

Lemma visitTemplates_unfold (f v : string) (ancestors : list Node) (child : Node)
    (result : list TemplateSource) (h : TypeScriptServiceHost) :
  visitTemplates f v ancestors child result env h
  = M_bind (getSourceFromNode f v {| node := child; parents := ancestors |})
      (fun templateSource =>
         match templateSource with
         | Some t => M_ret (result ++ [t])
         | None =>
             M_foldl (fun result c => visitTemplates f v (child :: ancestors) c result)
                     result (children child)
         end) env h.
Proof.
  destruct child as [k p s e t nm ex ds cs]. simpl.
  apply M_bind_ext. intros [d|] h'; [reflexivity |].
  simpl.
  match goal with |- context [visitTemplates f v ?a] => generalize a end.
  intros ancestors'. revert result h'.
  induction cs as [|c cs IH]; intros result h'; simpl; [reflexivity |].
  apply M_bind_ext. intros result' h''. apply IH.
Qed.

Lemma Preserves_visitTemplates (f v : string) (child : Node) :
  forall ancestors result,
    Preserves env P (visitTemplates f v ancestors child result).
Proof.
  induction child as [child IH] using Node_children_ind. intros ancestors result.
  apply (Preserves_ext env P _ _ (visitTemplates_unfold f v ancestors child result)).
  apply Preserves_bind; [apply Preserves_getSourceFromNode |].
  intros [t|]; [apply Preserves_ret |].
  apply Preserves_foldl_Forall.
  eapply Forall_impl; [exact IH |]. intros c Hc a. apply Hc.
Qed.

(** The operations that go through [ensureAnalyzedModules] keep what it
    keeps. *)
Hypothesis HE : Preserves env P ensureAnalyzedModules.

Lemma Preserves_getAnalyzedModules : Preserves env P getAnalyzedModules.
Proof. unfold getAnalyzedModules. stable. Qed.

Lemma Preserves_ensureTemplateMap : Preserves env P ensureTemplateMap.
Proof.
  unfold ensureTemplateMap, ensureTemplateMap_directive.
  stable;
    first [ apply Preserves_getAnalyzedModules | apply Preserves_resolver
          | apply Preserves_reflector ].
Qed.

Lemma Preserves_getTemplateReferences : Preserves env P getTemplateReferences.
Proof. unfold getTemplateReferences. stable. apply Preserves_ensureTemplateMap. Qed.

Lemma Preserves_getTemplateAt (f : string) (position : Z) :
  Preserves env P (getTemplateAt f position).
Proof.
  unfold getTemplateAt.
  stable;
    first [ apply Preserves_getSourceFile | apply Preserves_getSourceFromNode
          | apply Preserves_ensureTemplateMap | apply Preserves_getSourceFromType ].
Qed.

Lemma Preserves_getTemplates (f : string) : Preserves env P (getTemplates f).
Proof.
  unfold getTemplates.
  stable;
    first [ apply Preserves_ensureTemplateMap | apply Preserves_getTemplateAt
          | apply Preserves_getSourceFile | apply Preserves_visitTemplates ].
Qed.

End StableCalls.

(* ------------------------------------------------------------------ *)
(** * Properties of the analyzed modules *)

Section ModulesFacts.
Context `{C : Compiler}.

(** What [validate] does to a field that only [clearCaches] may touch. *)
Lemma validate_frame {A} (field : TypeScriptServiceHost -> A) (env : Env)
    (h : TypeScriptServiceHost) :
  (forall v h, field (set__staticSymbolResolver v h) = field h) ->
  (forall v h, field (set_fileVersions v h) = field h) ->
  (forall v h, field (set_lastProgram v h) = field h) ->
  field (validate env h)
  = if decide (is_Some (_staticSymbolResolver h) /\ lastProgram h <> Some (program env))
    then field (clearCaches h) else field h.
Proof.
  intros H1 H2 H3. destruct (decide _) as [[Hr Hp]|Hidle].
  - rewrite (validate_acts env h Hr Hp). cbv zeta. rewrite H3.
    rewrite (invalidate_missing_frame field) by exact H1.
    rewrite (delete_missing_frame field) by exact H2.
    rewrite (validate_files_frame field) by assumption. reflexivity.
  - rewrite (validate_idle env h Hidle). reflexivity.
Qed.

Lemma validate_analyzedModules (env : Env) (h : TypeScriptServiceHost) :
  analyzedModules (validate env h) = analyzedModules h.
Proof.
  rewrite (validate_frame analyzedModules) by (intros; reflexivity).
  destruct (decide _); reflexivity.
Qed.

Lemma validate_resolver_exists (env : Env) (h : TypeScriptServiceHost) :
  is_Some (_staticSymbolResolver h) -> is_Some (_staticSymbolResolver (validate env h)).
Proof.
  intros Hr. destruct (decide (lastProgram h <> Some (program env))) as [Hp|Hp].
  - rewrite (validate_acts env h Hr Hp). cbv zeta. simpl.
    apply invalidate_missing_resolver.
    rewrite (delete_missing_frame _staticSymbolResolver) by (intros; reflexivity).
    apply (validate_files_resolver env _ (∅, clearCaches h)). exact Hr.
  - rewrite validate_idle by tauto. exact Hr.
Qed.

Lemma validate_lastProgram (env : Env) (h : TypeScriptServiceHost) :
  is_Some (_staticSymbolResolver h) -> lastProgram (validate env h) = Some (program env).
Proof.
  intros Hr. destruct (decide (lastProgram h <> Some (program env))) as [Hp|Hp].
  - apply validate_acts_lastProgram; assumption.
  - rewrite validate_idle by tauto.
    destruct (decide (lastProgram h = Some (program env))); [assumption | contradiction].
Qed.

Lemma Stable_OutOfDate (env : Env) : Stable env OutOfDate.
Proof.
  constructor; unfold OutOfDate; intros; try assumption.
  rewrite (validate_frame modulesOutOfDate) by (intros; reflexivity).
  destruct (decide _); [reflexivity | assumption].
Qed.

Lemma Stable_SeenProgram (env : Env) : Stable env (SeenProgram env).
Proof.
  constructor; unfold SeenProgram; intros; try assumption.
  - destruct H as [Hr Hp]. rewrite validate_idle; [auto |]. intros [_ Hne]. contradiction.
  - destruct H as [_ Hp]. split; [simpl; eauto | exact Hp].
Qed.

Lemma Stable_NoModules (env : Env) : Stable env NoModules.
Proof.
  constructor; unfold NoModules; intros; try assumption.
  rewrite validate_analyzedModules. assumption.
Qed.

Lemma Stable_resolver_exists (env : Env) :
  Stable env (fun h => is_Some (_staticSymbolResolver h)).
Proof.
  constructor; intros; try assumption.
  - apply validate_resolver_exists. assumption.
  - simpl. eauto.
Qed.

Lemma Stable_UpToDate (env : Env) : Stable env UpToDate.
Proof.
  constructor; unfold UpToDate; intros; try (apply H; assumption).
  - revert H0. rewrite (validate_frame modulesOutOfDate) by (intros; reflexivity).
    destruct (decide _) as [Hacts|Hidle]; [discriminate |].
    rewrite (validate_idle env h Hidle). apply H.
  - destruct (H H0) as [_ Hrest]. split; [simpl; eauto | exact Hrest].
Qed.

(** [ensureAnalyzedModules] leaves the mark [modulesOutOfDate] set. *)
Lemma ensureAnalyzedModules_OutOfDate (env : Env) :
  Preserves env OutOfDate ensureAnalyzedModules.
Proof.
  pose proof (Stable_OutOfDate env) as HS. unfold ensureAnalyzedModules.
  stable_using HS;
    first [ apply Preserves_staticSymbolResolver | apply Preserves_resolver ];
    exact HS.
Qed.

(** The getter of the static symbol resolver returns with a resolver in
    place. *)
Lemma staticSymbolResolver_exists (env : Env) (h h' : TypeScriptServiceHost)
    (r : StaticSymbolResolver) :
  Returns staticSymbolResolver env h r h' -> is_Some (_staticSymbolResolver h').
Proof.
  unfold staticSymbolResolver. intros H.
  apply Returns_bind in H as (result & h1 & H1 & H).
  apply Returns_read in H1 as [-> ->].
  destruct (_staticSymbolResolver h) as [r0|] eqn:E.
  - apply Returns_ret in H as [_ ->]. rewrite E. eauto.
  - apply Returns_bind in H as (? & h2 & _ & H).
    apply Returns_bind in H as (? & h3 & _ & H).
    apply Returns_bind in H as (? & h4 & H4 & H).
    apply Returns_update in H4. apply Returns_ret in H as [_ ->].
    subst h4. simpl. eauto.
Qed.

(** [resolver] validates first, and validating twice is validating once. *)
Lemma resolver_validated (env : Env) (h : TypeScriptServiceHost) :
  resolver env h = resolver env (validate env h).
Proof.
  assert (forall (k : unit -> M CompileMetadataResolver) h0,
             M_bind M_validate k env h0
             = {| outcome := outcome (k tt env (validate env h0));
                  final := final (k tt env (validate env h0));
                  events := EvValidate :: events (k tt env (validate env h0)) |}) as E
      by reflexivity.
  unfold resolver. rewrite !E, validate_idempotent. reflexivity.
Qed.

Lemma resolver_SeenProgram (env : Env) (h : TypeScriptServiceHost) :
  is_Some (_staticSymbolResolver h) -> SeenProgram env (final (resolver env h)).
Proof.
  intros Hr. rewrite resolver_validated.
  apply (Preserves_resolver env _ (Stable_SeenProgram env)).
  split; [apply validate_resolver_exists, Hr | apply validate_lastProgram, Hr].
Qed.

Lemma reported_preserves (env : Env) (P : TypeScriptServiceHost -> Prop)
    (l : list (JsError * option string)) (h : TypeScriptServiceHost) :
  Stable env P -> P h -> P (foldl (fun h r => collectError r.1 r.2 h) h l).
Proof.
  intros HS. revert h. induction l as [|r l IH]; intros h H; simpl; [exact H |].
  apply IH, (stable_collectError _ _ HS), H.
Qed.

(** When nothing is memoized, [ensureAnalyzedModules] returns the analysis
    of the program of the moment and memoizes it, with the program seen. *)
Lemma ensureAnalyzedModules_fresh (env : Env) (h h' : TypeScriptServiceHost)
    (a : NgAnalyzedModules) :
  analyzedModules h = None ->
  Returns ensureAnalyzedModules env h a h' ->
  analysisOf (program env) = Some a
  /\ analyzedModules h' = Some a
  /\ SeenProgram env h'.
Proof.
  intros Hnone H. unfold ensureAnalyzedModules in H.
  apply Returns_bind in H as (a0 & h0 & H0 & H).
  apply Returns_read in H0 as [-> ->]. rewrite Hnone in H.
  apply Returns_bind in H as (r1 & h1 & H1 & H).
  apply staticSymbolResolver_exists in H1.
  apply Returns_bind in H as (env' & h2 & H2 & H).
  apply Returns_env in H2 as [-> ->].
  apply Returns_bind in H as (programSymbols & h2 & H2 & H).
  apply Returns_call in H2 as [Hsymbols ->].
  apply Returns_bind in H as (r3 & h3 & H3 & H).
  destruct H3 as [_ <-].
  apply Returns_bind in H as (a' & h4 & H4 & H).
  apply Returns_call in H4 as [Hanalysis ->].
  apply Returns_bind in H as (u & h5 & H5 & H).
  apply Returns_update in H5. apply Returns_ret in H as [-> ->]. subst h5.
  split; [| split; [reflexivity |]].
  - unfold analysisOf. rewrite Hsymbols, Hanalysis. reflexivity.
  - change (SeenProgram env
              (foldl (fun h r => collectError r.1 r.2 h)
                     (final (resolver env
                               (foldl (fun h r => collectError r.1 r.2 h) h1
                                      (reported (extractProgramSymbols (program env)
                                         (map fileName
                                              (program_getSourceFiles (program env))))))))
                     (reported (analyzeNgModules (program env) programSymbols)))).
    apply (reported_preserves env), resolver_SeenProgram;
      [apply Stable_SeenProgram |].
    apply (reported_preserves env (fun h => is_Some (_staticSymbolResolver h)));
      [apply Stable_resolver_exists | exact H1].
Qed.

(** A memoized value is what [ensureAnalyzedModules] returns, and what it
    returns is memoized. *)
Lemma ensureAnalyzedModules_memoized (env : Env) (h : TypeScriptServiceHost)
    (a : NgAnalyzedModules) :
  analyzedModules h = Some a ->
  outcome (ensureAnalyzedModules env h) = Ret a
  /\ final (ensureAnalyzedModules env h) = h.
Proof.
  intros Ha. unfold ensureAnalyzedModules. rewrite M_bind_read, Ha. auto.
Qed.

Lemma ensureAnalyzedModules_memoizes (env : Env) (h h' : TypeScriptServiceHost)
    (a : NgAnalyzedModules) :
  Returns ensureAnalyzedModules env h a h' -> analyzedModules h' = Some a.
Proof.
  intros H. destruct (analyzedModules h) as [a0|] eqn:E.
  - destruct (ensureAnalyzedModules_memoized env h a0 E) as [Ho Hf].
    destruct H as [Ho' Hf']. rewrite Ho in Ho'. injection Ho' as <-.
    rewrite <- Hf', Hf. exact E.
  - apply (ensureAnalyzedModules_fresh env h h' a E H).
Qed.

Lemma ensureAnalyzedModules_UpToDate (env : Env) :
  Preserves env UpToDate ensureAnalyzedModules.
Proof.
  intros h H. destruct (analyzedModules h) as [a|] eqn:E.
  - rewrite (proj2 (ensureAnalyzedModules_memoized env h a E)). exact H.
  - intros Hfalse. exfalso.
    assert (OutOfDate h) as Hout.
    { unfold OutOfDate. destruct (modulesOutOfDate h) eqn:Em; [reflexivity |].
      destruct (H Em) as [_ (p & a & _ & Ha & _)]. congruence. }
    apply (ensureAnalyzedModules_OutOfDate env) in Hout.
    unfold OutOfDate in Hout. congruence.
Qed.

Lemma updateAnalyzedModules_unfold (env : Env) (h : TypeScriptServiceHost) :
  updateAnalyzedModules env h
  = after [EvValidate]
      (if modulesOutOfDate (validate env h) then refreshed env h
       else M_ret tt env (validate env h)).
Proof.
  unfold updateAnalyzedModules. rewrite M_bind_validate, M_bind_get.
  destruct (modulesOutOfDate (validate env h)); [| reflexivity].
  rewrite !M_bind_update. unfold refreshed. reflexivity.
Qed.

Lemma refreshed_returns (env : Env) (h : TypeScriptServiceHost) :
  outcome (refreshed env h) = Ret tt ->
  exists a, analysisOf (program env) = Some a
            /\ analyzedModules (final (refreshed env h)) = Some a
            /\ modulesOutOfDate (final (refreshed env h)) = false
            /\ SeenProgram env (final (refreshed env h)).
Proof.
  unfold refreshed.
  set (h1 := set_fileToComponent None
               (set_templateReferences None
                  (set__reflector None (set_analyzedModules None (validate env h))))).
  intros Ho. apply M_bind_Ret in Ho as (a & Ho & _ & -> & _).
  apply Returns_intro in Ho.
  generalize dependent (final (ensureAnalyzedModules env h1)). intros h' Ho.
  destruct (ensureAnalyzedModules_fresh env h1 h' a eq_refl Ho) as (Han & Ham & Hr & Hp).
  exists a. repeat split; assumption.
Qed.

Lemma refreshed_throws (env : Env) (h : TypeScriptServiceHost) (e : JsError) :
  modulesOutOfDate (validate env h) = true ->
  outcome (refreshed env h) = Throw e ->
  modulesOutOfDate (final (refreshed env h)) = true.
Proof.
  unfold refreshed. generalize (validate env h). intros h0 Hout Ho.
  match type of Ho with
  | outcome (M_bind _ _ _ ?h1) = _ =>
      destruct (outcome (ensureAnalyzedModules env h1)) as [a|e'] eqn:Eo;
      [ destruct (M_bind_step ensureAnalyzedModules
                    (fun _ => M_update (set_modulesOutOfDate false)) env h1 a Eo)
          as (Ho' & _ & _); rewrite Ho' in Ho; discriminate
      | destruct (M_bind_Throw ensureAnalyzedModules
                    (fun _ => M_update (set_modulesOutOfDate false)) env h1 e' Eo)
          as (_ & -> & _);
        apply (ensureAnalyzedModules_OutOfDate env); exact Hout ]
  end.
Qed.

(** [updateAnalyzedModules] keeps the memoized modules up to date. *)
Lemma updateAnalyzedModules_UpToDate (env : Env) :
  Preserves env UpToDate updateAnalyzedModules.
Proof.
  intros h H. rewrite updateAnalyzedModules_unfold. unfold after. simpl.
  pose proof (stable_validate _ _ (Stable_UpToDate env) h H) as Hv.
  destruct (modulesOutOfDate (validate env h)) eqn:Eout; [| exact Hv].
  destruct (outcome (refreshed env h)) as [[]|e] eqn:Eo.
  - destruct (refreshed_returns env h Eo) as (a & Han & Ham & _ & Hr & Hp).
    intros _. split; [exact Hr |]. exists (program env), a. auto.
  - intros Hfalse. rewrite (refreshed_throws env h e Eout Eo) in Hfalse. discriminate.
Qed.

(** Every state of the host keeps the memoized modules up to date. *)
Lemma Reachable_UpToDate (h : TypeScriptServiceHost) : Reachable h -> UpToDate h.
Proof.
  induction 1 as [|env h _ IH|env h _ IH|env f position h _ IH|env h _ IH
                  |env f h _ IH|env f h _ IH|env h _ IH].
  - intros H. discriminate.
  - apply (Preserves_resolver env _ (Stable_UpToDate env)), IH.
  - apply (Preserves_getTemplateReferences env _ (Stable_UpToDate env)
             (ensureAnalyzedModules_UpToDate env)), IH.
  - apply (Preserves_getTemplateAt env _ (Stable_UpToDate env)
             (ensureAnalyzedModules_UpToDate env)), IH.
  - apply (Preserves_getAnalyzedModules env _ (Stable_UpToDate env)
             (ensureAnalyzedModules_UpToDate env)), IH.
  - apply (Preserves_getTemplates env _ (Stable_UpToDate env)
             (ensureAnalyzedModules_UpToDate env)), IH.
  - apply (Preserves_getDeclarations env _ (Stable_UpToDate env)), IH.
  - apply updateAnalyzedModules_UpToDate, IH.
Qed.

Lemma validate_resolver_existed (env : Env) (h : TypeScriptServiceHost) :
  is_Some (_staticSymbolResolver (validate env h)) -> is_Some (_staticSymbolResolver h).
Proof.
  intros H. destruct (decide (is_Some (_staticSymbolResolver h))) as [Hr|Hr];
    [exact Hr |].
  rewrite validate_idle in H by tauto. exact H.
Qed.

(** After [updateAnalyzedModules] has returned, the memoized modules are
    those of the program of the moment, which is the program seen last. *)
Lemma updateAnalyzedModules_refreshes (env : Env) (h : TypeScriptServiceHost) :
  UpToDate h ->
  outcome (updateAnalyzedModules env h) = Ret tt ->
  exists a, analyzedModules (final (updateAnalyzedModules env h)) = Some a
            /\ analysisOf (program env) = Some a
            /\ lastProgram (final (updateAnalyzedModules env h)) = Some (program env).
Proof.
  intros H. rewrite updateAnalyzedModules_unfold. unfold after. simpl.
  pose proof (stable_validate _ _ (Stable_UpToDate env) h H) as Hv.
  destruct (modulesOutOfDate (validate env h)) eqn:Eout.
  - intros Ho. destruct (refreshed_returns env h Ho) as (a & Han & Ham & _ & _ & Hp).
    exists a. auto.
  - intros _. destruct (Hv Eout) as [Hr (p & a & Hp & Ha & Han)].
    apply validate_resolver_existed in Hr.
    rewrite (validate_lastProgram env h Hr) in Hp. injection Hp as <-.
    exists a. split; [exact Ha | split; [exact Han |]].
    apply validate_lastProgram, Hr.
Qed.

Lemma getAnalyzedModules_memoized_value (env : Env) (h : TypeScriptServiceHost)
    (a : NgAnalyzedModules) :
  analyzedModules h = Some a -> outcome (getAnalyzedModules env h) = Ret a.
Proof.
  intros Ha. unfold getAnalyzedModules. rewrite M_bind_validate. unfold after. simpl.
  apply ensureAnalyzedModules_memoized. rewrite validate_analyzedModules. exact Ha.
Qed.

(** C1, as amended.  [getAnalyzedModules] returns the memoized
    analyzed modules whenever there are any, whatever the program of the
    moment is: [validate] marks them out of date and keeps them.  So two
    queries in a row return the same modules; with nothing memoized the
    query returns the analysis of the program of the moment; and once
    [updateAnalyzedModules] has returned, the query returns the analysis of
    the program of the moment. *)
Theorem getAnalyzedModules_memoized (env : Env) (h : TypeScriptServiceHost) :
  Reachable h ->
  (forall a, analyzedModules h = Some a -> outcome (getAnalyzedModules env h) = Ret a)
  /\ (forall a, outcome (getAnalyzedModules env h) = Ret a ->
         outcome (getAnalyzedModules env (final (getAnalyzedModules env h))) = Ret a)
  /\ (forall a, analyzedModules h = None ->
         outcome (getAnalyzedModules env h) = Ret a ->
         analysisOf (program env) = Some a)
  /\ (outcome (updateAnalyzedModules env h) = Ret tt ->
      exists a,
        outcome (getAnalyzedModules env (final (updateAnalyzedModules env h))) = Ret a
        /\ analysisOf (program env) = Some a).
Proof.
  intros Hreach. split; [| split; [| split]].
  - intros a. apply getAnalyzedModules_memoized_value.
  - intros a Ho. apply getAnalyzedModules_memoized_value.
    unfold getAnalyzedModules in *.
    apply M_bind_Ret in Ho as ([] & _ & Ho & -> & _).
    apply (ensureAnalyzedModules_memoizes env _ _ a (Returns_intro _ _ _ _ Ho)).
  - intros a Hnone Ho. unfold getAnalyzedModules in Ho.
    apply M_bind_Ret in Ho as ([] & _ & Ho & _ & _).
    refine (proj1 (ensureAnalyzedModules_fresh env _ _ a _ (Returns_intro _ _ _ _ Ho))).
    simpl. rewrite validate_analyzedModules. exact Hnone.
  - intros Ho.
    destruct (updateAnalyzedModules_refreshes env h (Reachable_UpToDate h Hreach) Ho)
      as (a & Ha & Han & _).
    exists a. split; [apply getAnalyzedModules_memoized_value, Ha | exact Han].
Qed.

End ModulesFacts.

(* ------------------------------------------------------------------ *)
(** * What the public operations do first *)

Section EntryFacts.
Context `{C : Compiler}.

Lemma ReadsFirst_app (F : CacheField -> Prop) (l rest : list Event) :
  ReadsFirst F l -> ReadsFirst F (l ++ rest).
Proof. intros (f & t & -> & Hf). exists f, (t ++ rest). auto. Qed.

Section Opening.
Variable F : CacheField -> Prop.

Lemma Begins_Opens {A} (m : M A) : Begins F m -> Opens F m.
Proof. intros H env h. right. apply H. Qed.

Lemma Begins_bind {A B} (m : M A) (k : A -> M B) :
  Begins F m -> Begins F (M_bind m k).
Proof.
  intros H env h. destruct (M_bind_events m k env h) as [rest ->].
  apply ReadsFirst_app, H.
Qed.

Lemma Begins_read {A} (f : CacheField) (field : TypeScriptServiceHost -> A) :
  F f -> Begins F (M_read f field).
Proof. intros Hf env h. exists f, []. auto. Qed.

Lemma Opens_bind {A B} (m : M A) (k : A -> M B) :
  Opens F m -> (forall a, Opens F (k a)) -> Opens F (M_bind m k).
Proof.
  intros Hm Hk env h. unfold M_bind. specialize (Hm env h).
  destruct (m env h) as [[a|e] h1 t1]; simpl in *; [| exact Hm].
  destruct Hm as [-> | Hm].
  - apply Hk.
  - right. apply ReadsFirst_app, Hm.
Qed.

Lemma Opens_try {A} (body : M A) (handler : JsError -> M A) :
  Begins F body -> Opens F (M_try body handler).
Proof.
  intros Hm env h. unfold M_try. specialize (Hm env h). right.
  destruct (body env h) as [[a|e] h1 t1]; simpl in *; [exact Hm |].
  apply ReadsFirst_app, Hm.
Qed.

Lemma Opens_ret {A} (a : A) : Opens F (M_ret a).
Proof. intros env h. left. reflexivity. Qed.

Lemma Opens_throw {A} (e : JsError) : Opens F (@M_throw _ _ A e).
Proof. intros env h. left. reflexivity. Qed.

Lemma Opens_env : Opens F M_env.
Proof. intros env h. left. reflexivity. Qed.

Lemma Opens_get {A} (field : TypeScriptServiceHost -> A) : Opens F (M_get field).
Proof. intros env h. left. reflexivity. Qed.

Lemma Opens_lift {A} (o : Outcome A) : Opens F (M_lift o).
Proof. intros env h. left. reflexivity. Qed.

Lemma Opens_update (f : TypeScriptServiceHost -> TypeScriptServiceHost) :
  Opens F (M_update f).
Proof. intros env h. left. reflexivity. Qed.

Lemma Opens_foldl_Forall {A B} (f : A -> B -> M A) (l : list B) :
  Forall (fun b => forall a, Opens F (f a b)) l ->
  forall a, Opens F (M_foldl f a l).
Proof.
  induction 1 as [|b l Hb _ IH]; intros a; simpl.
  - apply Opens_ret.
  - apply Opens_bind; [apply Hb | exact IH].
Qed.

Lemma Opens_ext {A} (m m' : M A) :
  (forall env h, m env h = m' env h) -> Opens F m' -> Opens F m.
Proof. intros E H env h. rewrite E. apply H. Qed.

End Opening.

Lemma Begins_checker : Begins (eq F_checker) checker.
Proof. unfold checker. apply Begins_bind, Begins_read. reflexivity. Qed.

Lemma Begins_reflector : Begins (eq F_reflector) reflector.
Proof. unfold reflector. apply Begins_bind, Begins_read. reflexivity. Qed.

Lemma Begins_ensureTemplateMap : Begins (eq F_fileToComponent) ensureTemplateMap.
Proof. unfold ensureTemplateMap. apply Begins_bind, Begins_read. reflexivity. Qed.

Lemma Begins_weaken (F G : CacheField -> Prop) {A} (m : M A) :
  (forall f, F f -> G f) -> Begins F m -> Begins G m.
Proof. intros HFG H env h. destruct (H env h) as (f & t & E & Hf). exists f, t. auto. Qed.

Lemma Opens_getDeclarationFromDecorators (sf : SourceFile) (className : Node)
    (ds : list Node) :
  Opens (eq F_checker) (getDeclarationFromDecorators sf className ds).
Proof.
  induction ds as [|d ds IH]; simpl; [apply Opens_ret |].
  destruct (expression d) as [call|]; [| exact IH].
  destruct (bool_decide (kind call = CallExpression)); [| exact IH].
  apply Begins_Opens, Begins_bind, Begins_checker.
Qed.

Lemma Opens_getDeclarationFromNode (sf : SourceFile) (n : Node) :
  Opens (eq F_checker) (getDeclarationFromNode sf n).
Proof.
  unfold getDeclarationFromNode.
  destruct (bool_decide (kind n = ClassDeclaration)); [| apply Opens_ret].
  destruct (decorators n) as [ds|]; [| apply Opens_ret].
  destruct (name n) as [className|]; [| apply Opens_ret].
  apply Opens_getDeclarationFromDecorators.
Qed.

Lemma Opens_visitDeclarations (sf : SourceFile) (child : Node) :
  forall result, Opens (eq F_checker) (visitDeclarations sf child result).
Proof.
  induction child as [child IH] using Node_children_ind. intros result.
  apply (Opens_ext _ _ _ (fun env h => visitDeclarations_unfold env sf child result h)).
  apply Opens_bind; [apply Opens_getDeclarationFromNode |].
  intros [d|]; [apply Opens_ret |].
  unfold visitAllDeclarations. apply Opens_foldl_Forall, IH.
Qed.

Lemma Opens_getDeclarations (f : string) : Opens (eq F_checker) (getDeclarations f).
Proof.
  unfold getDeclarations, getSourceFile.
  apply Opens_bind; [apply Opens_bind; [apply Opens_env | intros ?; apply Opens_ret] |].
  intros [sf|]; [| apply Opens_ret].
  unfold visitAllDeclarations. apply Opens_foldl_Forall, Forall_forall.
  intros c _ a. apply Opens_visitDeclarations.
Qed.

Lemma Opens_getSourceFromNode (f v : string) (n : NodeRef) :
  Opens (eq F_reflector) (getSourceFromNode f v n).
Proof.
  unfold getSourceFromNode. destruct (kind (node n)); try apply Opens_ret;
    (apply Opens_bind; [apply Opens_lift |]; intros r;
     match goal with |- context [match ?x with _ => _ end] => destruct x end;
     [| apply Opens_ret];
     apply Opens_bind;
     [unfold getSourceFile; apply Opens_bind; [apply Opens_env | intros ?; apply Opens_ret]
     | intros sf; apply Begins_Opens, Begins_bind, Begins_reflector]).
Qed.

Lemma Opens_weaken (F G : CacheField -> Prop) {A} (m : M A) :
  (forall f, F f -> G f) -> Opens F m -> Opens G m.
Proof.
  intros HFG H env h. destruct (H env h) as [E | (f & t & E & Hf)]; [left; exact E |].
  right. exists f, t. auto.
Qed.

Lemma Opens_getTemplateAt (f : string) (position : Z) :
  Opens (fun x => x = F_reflector \/ x = F_fileToComponent) (getTemplateAt f position).
Proof.
  unfold getTemplateAt, getSourceFile.
  apply Opens_bind; [apply Opens_env | intros env'].
  apply Opens_bind; [apply Opens_bind; [apply Opens_env | intros ?; apply Opens_ret] |].
  intros [sf|].
  - apply Opens_bind; [apply Opens_update | intros _].
    destruct (findNode sf position); [| apply Opens_ret].
    apply (Opens_weaken (eq F_reflector)); [intros ? <-; auto |].
    apply Opens_getSourceFromNode.
  - apply Begins_Opens, Begins_bind.
    apply (Begins_weaken (eq F_fileToComponent)); [intros ? <-; auto |].
    apply Begins_ensureTemplateMap.
Qed.

(** C5, as amended.  [validate] is idempotent.  Of the public operations
    [getAnalyzedModules] calls it before anything else.  The others do not:
    [getTemplateReferences] and [getTemplates] begin by reading the memoized
    template map, [getTemplateAt] by reading the memoized reflector or the
    template map, [getDeclarations] by reading the memoized checker, if they
    touch the memoized state at all; [validate] runs later, inside
    [getAnalyzedModules] or the getter [resolver], when they get there. *)
Theorem validate_first_in_getAnalyzedModules_only :
  (forall env h, validate env (validate env h) = validate env h)
  /\ (forall env h, ValidatesFirst (events (getAnalyzedModules env h)))
  /\ (forall env h, ReadsFirst (eq F_fileToComponent) (events (getTemplateReferences env h)))
  /\ (forall f env h, ReadsFirst (eq F_fileToComponent) (events (getTemplates f env h)))
  /\ (forall f position env h,
         events (getTemplateAt f position env h) = []
         \/ ReadsFirst (fun x => x = F_reflector \/ x = F_fileToComponent)
                       (events (getTemplateAt f position env h)))
  /\ (forall f env h,
         events (getDeclarations f env h) = []
         \/ ReadsFirst (eq F_checker) (events (getDeclarations f env h))).
Proof.
  split; [apply validate_idempotent |].
  split; [| split; [| split; [| split]]].
  - intros env h. unfold getAnalyzedModules.
    destruct (M_bind_events M_validate (fun _ => ensureAnalyzedModules) env h) as [rest ->].
    exists rest. reflexivity.
  - apply Begins_bind, Begins_ensureTemplateMap.
  - intros f. apply Begins_bind, Begins_ensureTemplateMap.
  - intros f position. apply Opens_getTemplateAt.
  - intros f. apply Opens_getDeclarations.
Qed.

End EntryFacts.

(* ------------------------------------------------------------------ *)
(** * Properties of the template locator *)

Section TreeFacts.

Lemma find_unfold (position : Z) (ancestors : list Node) (n : Node) :
  find position ancestors n
  = if (getStart n <=? position) && (position <? getEnd n) then
      match firstSome (find position (n :: ancestors)) (children n) with
      | Some r => Some r
      | None => Some {| node := n; parents := ancestors |}
      end
    else None.
Proof.
  destruct n as [k p s e t nm ex ds cs]. simpl.
  destruct ((s <=? position) && (position <? e)); [| reflexivity].
  match goal with |- context [find position ?a] => generalize a end. intros anc'.
  assert (forall l,
             (fix forEachChild (cs0 : list Node) : option NodeRef :=
                match cs0 with
                | [] => None
                | c :: cs' =>
                    match find position anc' c with
                    | Some r => Some r
                    | None => forEachChild cs'
                    end
                end) l = firstSome (find position anc') l) as E.
  { induction l as [|c l IH]; simpl; [reflexivity |]. rewrite IH. reflexivity. }
  rewrite E. reflexivity.
Qed.

Lemma wellNested_unfold (n : Node) :
  wellNested n = nestedFrom n (children n) (getStart n).
Proof.
  assert (forall parent e cs from,
             getEnd parent = e ->
             (fix each (cs : list Node) (from : Z) : bool :=
                match cs with
                | [] => true
                | c :: cs' =>
                    (from <=? getStart c) && (getStart c <=? getEnd c)
                    && (getEnd c <=? e) && wellNested c && each cs' (getEnd c)
                end) cs from = nestedFrom parent cs from) as E.
  { intros parent e cs from <-. revert from.
    induction cs as [|c cs IH]; intros from; simpl; [reflexivity |].
    rewrite IH. reflexivity. }
  destruct n as [k p s e t nm ex ds cs]. simpl. apply E. reflexivity.
Qed.

Lemma nestedFrom_child (parent : Node) (before : list Node) (c : Node)
    (after : list Node) (from : Z) :
  nestedFrom parent (before ++ c :: after) from = true ->
  from <= getStart c /\ getEnd c <= getEnd parent /\ wellNested c = true
  /\ Forall (fun s => getEnd s <= getStart c) before.
Proof.
  revert from. induction before as [|s before IH]; intros from; simpl; intros H;
    apply andb_prop in H as [H Hrest]; apply andb_prop in H as [H Hw];
    apply andb_prop in H as [H He]; apply andb_prop in H as [Hf Hs];
    apply Z.leb_le in Hf, Hs, He.
  - split; [lia | split; [lia | split; [exact Hw | constructor]]].
  - destruct (IH (getEnd s) Hrest) as (I1 & I2 & I3 & I4).
    split; [lia | split; [lia | split; [exact I3 |]]].
    constructor; [lia | exact I4].
Qed.

Lemma wellNested_child (n : Node) (i : nat) (c : Node) :
  wellNested n = true -> children n !! i = Some c ->
  getStart n <= getStart c /\ getEnd c <= getEnd n /\ wellNested c = true
  /\ Forall (fun s => getEnd s <= getStart c) (take i (children n)).
Proof.
  intros Hw Hc. rewrite wellNested_unfold in Hw.
  rewrite <- (take_drop_middle (children n) i c Hc) in Hw.
  apply nestedFrom_child in Hw. exact Hw.
Qed.

Lemma wellNested_range (n : Node) :
  wellNested n = true -> children n <> [] -> getStart n <= getEnd n.
Proof.
  intros Hw Hne. destruct (children n) as [|c cs] eqn:E; [contradiction |].
  assert (children n !! 0%nat = Some c) as Hc by (rewrite E; reflexivity).
  destruct (wellNested_child n 0 c Hw Hc) as (H1 & H2 & H3 & _).
  rewrite wellNested_unfold, E in Hw. simpl in Hw.
  apply andb_prop in Hw as [Hw _]. apply andb_prop in Hw as [Hw _].
  apply andb_prop in Hw as [Hw _]. apply andb_prop in Hw as [_ Hs].
  apply Z.leb_le in Hs. lia.
Qed.

(** A node reached from [n] lies within [n]. *)
Lemma descend_within (indices : list nat) :
  forall ancestors n r,
    wellNested n = true -> descend indices ancestors n = Some r ->
    getStart n <= getStart (node r) /\ getEnd (node r) <= getEnd n.
Proof.
  induction indices as [|i indices IH]; intros ancestors n r Hw Hd; simpl in Hd.
  - injection Hd as <-. simpl. lia.
  - destruct (children n !! i) as [c|] eqn:Hc; [| discriminate].
    destruct (wellNested_child n i c Hw Hc) as (H1 & H2 & H3 & _).
    destruct (IH _ _ _ H3 Hd). lia.
Qed.

Lemma firstSome_app_None {A B} (f : A -> option B) (l1 l2 : list A) :
  Forall (fun a => f a = None) l1 -> firstSome f (l1 ++ l2) = firstSome f l2.
Proof. induction 1 as [|a l1 Ha _ IH]; simpl; [reflexivity | rewrite Ha; exact IH]. Qed.

Lemma find_outside (position : Z) (ancestors : list Node) (n : Node) :
  getEnd n <= position -> find position ancestors n = None.
Proof.
  intros H. rewrite find_unfold.
  destruct (Z.ltb_spec position (getEnd n)); [lia |].
  rewrite andb_false_r. reflexivity.
Qed.

(** In a tree whose ranges nest, [find] descends to the childless node
    that holds the position. *)
Lemma find_descend (position : Z) (indices : list nat) :
  forall ancestors n r,
    wellNested n = true -> descend indices ancestors n = Some r ->
    children (node r) = [] ->
    getStart (node r) <= position < getEnd (node r) ->
    find position ancestors n = Some r.
Proof.
  induction indices as [|i indices IH]; intros ancestors n r Hw Hd Hleaf Hpos.
  - simpl in Hd. injection Hd as <-. simpl in *. rewrite find_unfold, Hleaf. simpl.
    destruct (Z.leb_spec (getStart n) position); [| lia].
    destruct (Z.ltb_spec position (getEnd n)); [reflexivity | lia].
  - pose proof (descend_within _ _ _ _ Hw Hd) as [Hs He].
    simpl in Hd. destruct (children n !! i) as [c|] eqn:Hc; [| discriminate].
    destruct (wellNested_child n i c Hw Hc) as (H1 & H2 & H3 & Hbefore).
    pose proof (descend_within _ _ _ _ H3 Hd) as [Hs' He'].
    rewrite find_unfold.
    destruct (Z.leb_spec (getStart n) position); [| lia].
    destruct (Z.ltb_spec position (getEnd n)); [| lia]. simpl.
    rewrite <- (take_drop_middle (children n) i c Hc).
    rewrite firstSome_app_None.
    + simpl. rewrite (IH _ _ _ H3 Hd Hleaf Hpos). reflexivity.
    + eapply Forall_impl; [exact Hbefore |]. intros s Hs0. simpl in Hs0.
      apply find_outside. lia.
Qed.

(** [getTemplateClassDeclFromNode] answers with a class exactly for the
    shape. *)
Lemma getTemplateClassDeclFromNode_class (n : NodeRef) (declaration : Node)
    (target : option Node) :
  getTemplateClassDeclFromNode n = Ret (Some declaration, target) ->
  TemplateShape n /\ parents n !! 4%nat = Some declaration.
Proof.
  unfold getTemplateClassDeclFromNode, TemplateShape, missingTemplate.
  destruct (parents n) as [|p1 r1]; [discriminate |].
  case_bool_decide as K1; simpl; [| discriminate].
  destruct (name p1) as [propertyName|] eqn:N1; [| discriminate].
  destruct (String.eqb_spec (text propertyName) "template") as [T|T]; simpl;
    [| discriminate].
  destruct r1 as [|p2 r2]; [discriminate |].
  case_bool_decide as K2; simpl; [| discriminate].
  destruct r2 as [|p3 r3]; [discriminate |].
  case_bool_decide as K3; simpl; [| discriminate].
  destruct r3 as [|p4 r4]; [discriminate |].
  case_bool_decide as K4; simpl; [| discriminate].
  destruct r4 as [|p5 outer]; [discriminate |].
  case_bool_decide as K5; simpl; [| discriminate].
  intros H. injection H as <- <-. split; [| reflexivity].
  exists p1, propertyName, p2, p3, p4, p5, outer. repeat split; assumption.
Qed.

Lemma getTemplateClassDeclFromNode_shape (n : NodeRef)
    (assignment propertyName objectLiteral call decorator declaration : Node)
    (outer : list Node) :
  parents n = assignment :: objectLiteral :: call :: decorator :: declaration :: outer ->
  kind assignment = PropertyAssignment -> name assignment = Some propertyName ->
  text propertyName = "template" -> kind objectLiteral = ObjectLiteralExpression ->
  kind call = CallExpression -> kind decorator = Decorator ->
  kind declaration = ClassDeclaration ->
  getTemplateClassDeclFromNode n = Ret (Some declaration, expression call).
Proof.
  intros Hp H1 H2 H3 H4 H5 H6 H7. unfold getTemplateClassDeclFromNode.
  rewrite Hp, H1, H2, H3, H4, H5, H6, H7. reflexivity.
Qed.

Lemma getTemplateClassDeclFromNode_missing (n : NodeRef) :
  ParsedAssignment n -> ~ TemplateShape n ->
  getTemplateClassDeclFromNode n = Ret missingTemplate.
Proof.
  intros Hparsed Hshape.
  destruct (getTemplateClassDeclFromNode n) as [[[d|] target]|e] eqn:E.
  - exfalso. apply Hshape. apply (getTemplateClassDeclFromNode_class n d target E).
  - revert E. unfold getTemplateClassDeclFromNode, missingTemplate.
    destruct (parents n) as [|p1 r1]; [intros <-; reflexivity |].
    case_bool_decide as K1; simpl; [| intros <-; reflexivity].
    destruct (name p1) as [propertyName|]; [| discriminate].
    destruct (String.eqb_spec (text propertyName) "template") as [T|T]; simpl;
      [| intros <-; reflexivity].
    destruct r1 as [|p2 r2]; [intros <-; reflexivity |].
    case_bool_decide as K2; simpl; [| intros <-; reflexivity].
    destruct r2 as [|p3 r3]; [intros <-; reflexivity |].
    case_bool_decide as K3; simpl; [| intros <-; reflexivity].
    destruct r3 as [|p4 r4]; [intros <-; reflexivity |].
    case_bool_decide as K4; simpl; [| intros <-; reflexivity].
    destruct r4 as [|p5 outer]; [intros <-; reflexivity |].
    case_bool_decide as K5; simpl; [discriminate | intros <-; reflexivity].
  - exfalso. revert E. unfold getTemplateClassDeclFromNode, missingTemplate.
    destruct (parents n) as [|p1 r1] eqn:Hp; [discriminate |].
    case_bool_decide as K1; simpl; [| discriminate].
    destruct (Hparsed p1 r1 Hp K1) as [propertyName ->].
    destruct (String.eqb_spec (text propertyName) "template") as [T|T]; simpl;
      [| discriminate].
    destruct r1 as [|p2 r2]; [discriminate |].
    case_bool_decide as K2; simpl; [| discriminate].
    destruct r2 as [|p3 r3]; [discriminate |].
    case_bool_decide as K3; simpl; [| discriminate].
    destruct r3 as [|p4 r4]; [discriminate |].
    case_bool_decide as K4; simpl; [| discriminate].
    destruct r4 as [|p5 outer]; [discriminate |].
    case_bool_decide as K5; simpl; discriminate.
Qed.

End TreeFacts.

Section LocatorFacts.
Context `{C : Compiler}.

(** In a file of the program [getTemplateAt] sets the context and hands the
    node at the position to [getSourceFromNode]. *)
Lemma getTemplateAt_in_file (env : Env) (h : TypeScriptServiceHost) (f : string)
    (position : Z) (sf : SourceFile) (n : NodeRef) :
  program_getSourceFile (program env) f = Some sf ->
  findNode sf position = Some n ->
  getTemplateAt f position env h
  = getSourceFromNode f (getScriptVersion env (fileName sf)) n env
      (set_context (Some (fileName sf)) h).
Proof.
  intros Hsf Hn. unfold getTemplateAt, getSourceFile.
  rewrite M_bind_env, M_bind_assoc, M_bind_env, M_bind_ret_l, Hsf, M_bind_update, Hn.
  reflexivity.
Qed.

(** Off a string literal, or under ancestors of another shape,
    [getSourceFromNode] answers with nothing and touches nothing. *)
Lemma getSourceFromNode_absent (env : Env) (h : TypeScriptServiceHost) (f v : string)
    (n : NodeRef) :
  ParsedAssignment n -> ~ (IsStringLiteral (node n) /\ TemplateShape n) ->
  getSourceFromNode f v n env h = M_ret None env h.
Proof.
  intros Hparsed Hnot. unfold getSourceFromNode, IsStringLiteral in *.
  destruct (kind (node n)) eqn:Ek; try reflexivity;
    (rewrite getTemplateClassDeclFromNode_missing by tauto;
     unfold M_bind, M_lift; simpl; reflexivity).
Qed.

Lemma getSourceFromNode_found (env : Env) (h : TypeScriptServiceHost) (f v : string)
    (n : NodeRef) (t : TemplateSource) :
  outcome (getSourceFromNode f v n env h) = Ret (Some t) ->
  IsStringLiteral (node n) /\ TemplateShape n.
Proof.
  unfold getSourceFromNode, IsStringLiteral.
  assert (forall k : M (option TemplateSource),
             outcome
               (M_bind (M_lift (getTemplateClassDeclFromNode n))
                  (fun r =>
                     match r.1 ≫= (fun declaration => name declaration) with
                     | Some declarationName => k
                     | None => M_ret None
                     end) env h) = Ret (Some t) -> TemplateShape n) as H.
  { intros k Ho. apply M_bind_Ret in Ho as ([d target] & Hr & Ho & _).
    simpl in Hr, Ho. destruct d as [d|]; [| discriminate].
    apply (getTemplateClassDeclFromNode_class n d target Hr). }
  destruct (kind (node n)) eqn:Ek; try discriminate; intros Ho.
  - split; [auto |].
    revert Ho. unfold M_bind at 1. simpl.
    destruct (getTemplateClassDeclFromNode n) as [[[d|] target]|e] eqn:E;
      simpl; try discriminate.
    intros _. apply (getTemplateClassDeclFromNode_class n d target E).
  - split; [auto |].
    revert Ho. unfold M_bind at 1. simpl.
    destruct (getTemplateClassDeclFromNode n) as [[[d|] target]|e] eqn:E;
      simpl; try discriminate.
    intros _. apply (getTemplateClassDeclFromNode_class n d target E).
Qed.

(** C2. In a file of the program, at a position that holds a node,
    [getTemplateAt] answers with a template source only if the node is a
    string literal (or a template literal without substitutions) whose
    ancestors are, in this order, a property assignment named [template],
    an object literal, a call expression, a decorator and a class
    declaration.  Whenever the node is no such literal or a link of the
    chain is missing or of another kind, the answer is the absence of a
    source, and no exception; so it is for a string literal assigned to a
    property of another name. *)
Theorem getTemplateAt_shape (env : Env) (h : TypeScriptServiceHost) (f : string)
    (position : Z) (sf : SourceFile) (n : NodeRef) :
  program_getSourceFile (program env) f = Some sf ->
  findNode sf position = Some n ->
  (forall t, outcome (getTemplateAt f position env h) = Ret (Some t) ->
             IsStringLiteral (node n) /\ TemplateShape n)
  /\ (ParsedAssignment n -> ~ (IsStringLiteral (node n) /\ TemplateShape n) ->
      outcome (getTemplateAt f position env h) = Ret None)
  /\ (forall assignment propertyName rest,
         parents n = assignment :: rest ->
         kind assignment = PropertyAssignment ->
         name assignment = Some propertyName ->
         text propertyName <> "template" ->
         outcome (getTemplateAt f position env h) = Ret None).
Proof.
  intros Hsf Hn. rewrite (getTemplateAt_in_file env h f position sf n Hsf Hn).
  split; [| split].
  - intros t. apply getSourceFromNode_found.
  - intros Hparsed Hnot. rewrite getSourceFromNode_absent by assumption. reflexivity.
  - intros assignment propertyName rest Hp Hk Hname Htext.
    rewrite getSourceFromNode_absent; [reflexivity | |].
    + intros p rest' Hp' _. rewrite Hp in Hp'. injection Hp' as <- <-.
      rewrite Hname. eauto.
    + intros [_ (a & pn & o & c & d & cls & outer & Hp' & _ & Hn' & Ht & _)].
      rewrite Hp in Hp'. injection Hp' as -> _. congruence.
Qed.

(** The getters of the reflector host, the static symbol resolver and the
    reflector return when they have what they need. *)
Lemma reflectorHost_available (env : Env) (h : TypeScriptServiceHost) :
  is_Some (_reflectorHost h)
  \/ is_Some ((if truthy_string (context h) then context h
               else head (getScriptFileNames env))
              ≫= program_getSourceFile (program env)) ->
  exists r, outcome (reflectorHost env h) = Ret r.
Proof.
  intros H. unfold reflectorHost. rewrite M_bind_read.
  destruct (_reflectorHost h) as [r|] eqn:E; [exists r; reflexivity |].
  destruct H as [[r H] | [source Hsource]]; [congruence |].
  rewrite M_bind_env, M_bind_get.
  destruct (truthy_string (context h)).
  - rewrite M_bind_ret_l, M_bind_get, Hsource, M_bind_update. eexists. reflexivity.
  - rewrite M_bind_update, M_bind_get.
    change (context (set_context (head (getScriptFileNames env)) h))
      with (head (getScriptFileNames env)).
    rewrite Hsource, M_bind_update. eexists. reflexivity.
Qed.

Lemma staticSymbolResolver_available (env : Env) (h : TypeScriptServiceHost) :
  is_Some (_staticSymbolResolver h) \/ is_Some (_reflectorHost h)
  \/ is_Some ((if truthy_string (context h) then context h
               else head (getScriptFileNames env))
              ≫= program_getSourceFile (program env)) ->
  exists r, outcome (staticSymbolResolver env h) = Ret r.
Proof.
  intros H. unfold staticSymbolResolver. rewrite M_bind_read.
  destruct (_staticSymbolResolver h) as [r|] eqn:E; [exists r; reflexivity |].
  destruct H as [[r H] | H]; [congruence |].
  rewrite M_bind_update.
  destruct (reflectorHost_available env
              (set__summaryResolver (Some AotSummaryResolver_new) h) H) as [r Hr].
  unfold after. cbn [outcome].
  rewrite (proj1 (M_bind_step _ _ _ _ _ Hr)), M_bind_update.
  eexists. reflexivity.
Qed.

Lemma reflector_available (env : Env) (h : TypeScriptServiceHost) :
  reflectorAvailable env h -> exists r, outcome (reflector env h) = Ret r.
Proof.
  intros H. unfold reflector. rewrite M_bind_read.
  destruct (_reflector h) as [r|] eqn:E; [exists r; reflexivity |].
  destruct H as [[r H] | H]; [congruence |].
  destruct (staticSymbolResolver_available env h H) as [r Hr].
  unfold after. cbn [outcome].
  rewrite (proj1 (M_bind_step _ _ _ _ _ Hr)), M_bind_update.
  eexists. reflexivity.
Qed.

Lemma reflector_returns (env : Env) (h : TypeScriptServiceHost) (c : string) :
  context h = Some c -> c <> "" ->
  is_Some (program_getSourceFile (program env) c) ->
  exists r, outcome (reflector env h) = Ret r.
Proof.
  intros Hc Hne Hsource. apply reflector_available. right. right. right.
  rewrite Hc.
  assert (truthy_string (Some c) = true) as ->
      by (simpl; destruct (String.eqb_spec c ""); [contradiction | reflexivity]).
  exact Hsource.
Qed.

(** On a literal of the shape, under a named class, [getSourceFromNode]
    builds the source. *)
Lemma getSourceFromNode_template (env : Env) (h : TypeScriptServiceHost) (f v : string)
    (n : NodeRef) (declaration className : Node) (target : option Node)
    (sf : SourceFile) :
  IsStringLiteral (node n) ->
  getTemplateClassDeclFromNode n = Ret (Some declaration, target) ->
  name declaration = Some className ->
  program_getSourceFile (program env) f = Some sf ->
  (exists r, outcome (reflector env h) = Ret r) ->
  outcome (getSourceFromNode f v n env h)
  = Ret (Some {| version := v;
                 source := Some (text (node n));
                 span := shrink (spanOf (node n)) None;
                 type := {| filePath := fileName sf; symbolName := text className |} |}).
Proof.
  intros Hlit Hdecl Hclass Hsf [r Hr]. unfold getSourceFromNode.
  destruct Hlit as [Hk | Hk]; rewrite Hk; rewrite Hdecl, M_bind_lift;
    change ((Some declaration, target).1 ≫= (fun declaration => name declaration))
      with (name declaration);
    rewrite Hclass; unfold getSourceFile;
    rewrite M_bind_assoc, M_bind_env, M_bind_ret_l, Hsf;
    rewrite (proj1 (M_bind_step _ _ _ _ _ Hr));
    unfold stringOf; rewrite Hk; reflexivity.
Qed.

(** C3. For a class with a name, decorated by a call whose object literal
    assigns a string literal to [template], in a file of the program whose
    ranges nest, [getTemplateAt] at any offset within the literal returns a
    template source whose span is the span of the literal shrunk by one
    character at each end, whose text is the text of the literal and whose
    type is the static symbol of the file and the name of the class. *)
Theorem getTemplateAt_inline_template (env : Env) (h : TypeScriptServiceHost)
    (f : string) (position : Z) (sf : SourceFile) (indices : list nat)
    (literal assignment propertyName objectLiteral call decorator declaration
       className : Node) (outer : list Node) :
  program_getSourceFile (program env) f = Some sf ->
  fileName sf <> "" ->
  is_Some (program_getSourceFile (program env) (fileName sf)) ->
  wellNested (root sf) = true ->
  descend indices [] (root sf)
  = Some {| node := literal;
            parents := assignment :: objectLiteral :: call :: decorator
                       :: declaration :: outer |} ->
  IsStringLiteral literal -> children literal = [] ->
  kind assignment = PropertyAssignment -> name assignment = Some propertyName ->
  text propertyName = "template" -> kind objectLiteral = ObjectLiteralExpression ->
  kind call = CallExpression -> kind decorator = Decorator ->
  kind declaration = ClassDeclaration -> name declaration = Some className ->
  getStart literal <= position < getEnd literal ->
  outcome (getTemplateAt f position env h)
  = Ret (Some {| version := getScriptVersion env (fileName sf);
                 source := Some (text literal);
                 span := {| start := getStart literal + 1; end_ := getEnd literal - 1 |};
                 type := {| filePath := fileName sf; symbolName := text className |} |}).
Proof.
  intros Hsf Hname Hself Hnested Hdescend Hlit Hleaf H1 H2 H3 H4 H5 H6 H7 Hclass Hpos.
  set (n := {| node := literal;
               parents := assignment :: objectLiteral :: call :: decorator
                          :: declaration :: outer |}) in *.
  assert (findNode sf position = Some n) as Hfind
      by (apply (find_descend position indices); assumption).
  rewrite (getTemplateAt_in_file env h f position sf n Hsf Hfind).
  assert (getTemplateClassDeclFromNode n = Ret (Some declaration, expression call)) as Hdecl
      by (apply (getTemplateClassDeclFromNode_shape n assignment propertyName objectLiteral
                   call decorator declaration outer); auto).
  apply (getSourceFromNode_template env _ f _ n declaration className (expression call) sf);
    try assumption.
  apply (reflector_returns env _ (fileName sf)); [reflexivity | assumption | assumption].
Qed.

End LocatorFacts.

(* ------------------------------------------------------------------ *)
(** * Properties of the declarations *)

Section DeclarationFacts.
Context `{C : Compiler}.

Lemma Stable_HasReflector (env : Env) : Stable env HasReflector.
Proof.
  constructor; unfold HasReflector; intros; try assumption.
  - rewrite (validate_frame _reflector) by (intros; reflexivity).
    destruct (decide _); assumption.
  - simpl. eauto.
Qed.



Lemma reflector_memoizes (env : Env) (h : TypeScriptServiceHost) (r : StaticReflector) :
  outcome (reflector env h) = Ret r -> HasReflector (final (reflector env h)).
Proof.
  unfold reflector, HasReflector. rewrite M_bind_read.
  destruct (_reflector h) as [r0|] eqn:E.
  - intros _. simpl. rewrite E. eauto.
  - unfold after. cbn [outcome final]. intros Ho.
    apply M_bind_Ret in Ho as (s & Hs & _ & -> & _).
    rewrite M_bind_update. simpl. eauto.
Qed.











(** [getDeclarations] in a file of the program, with the walk split at one
    of the top-level nodes. *)
Lemma getDeclarations_split (env : Env) (h : TypeScriptServiceHost) (f : string)
    (sf : SourceFile) (pre post : list Node) (cls : Node) (D1 : list Declaration)
    (decl : Declaration) :
  program_getSourceFile (program env) f = Some sf ->
  children (root sf) = pre ++ cls :: post ->
  outcome (visitAllDeclarations sf pre [] env h) = Ret D1 ->
  outcome (getDeclarationFromNode sf cls env (final (visitAllDeclarations sf pre [] env h)))
  = Ret (Some decl) ->
  let h2 := final (getDeclarationFromNode sf cls env
                     (final (visitAllDeclarations sf pre [] env h))) in
  outcome (getDeclarations f env h)
  = outcome (visitAllDeclarations sf post (D1 ++ [decl]) env h2)
  /\ final (getDeclarations f env h)
     = final (visitAllDeclarations sf post (D1 ++ [decl]) env h2).
Proof.
  intros Hsf Hchildren Hpre Hnode h2. unfold getDeclarations, getSourceFile.
  rewrite M_bind_assoc, M_bind_env, M_bind_ret_l, Hsf, Hchildren.
  unfold visitAllDeclarations in *. rewrite M_foldl_app.
  rewrite (M_bind_run _ _ _ _ _ Hpre).
  subst h2. generalize dependent (final (M_foldl (fun result child =>
                                           visitDeclarations sf child result) [] pre env h)).
  intros h1 Hnode. unfold after. cbn [outcome final M_foldl].
  assert (visitDeclarations sf cls D1 env h1
          = after (events (getDeclarationFromNode sf cls env h1))
                  (M_ret (D1 ++ [decl]) env (final (getDeclarationFromNode sf cls env h1))))
    as Evisit.
  { rewrite visitDeclarations_unfold.
    exact (M_bind_run (getDeclarationFromNode sf cls)
             (fun declaration =>
                match declaration with
                | Some d => M_ret (D1 ++ [d])
                | None => visitAllDeclarations sf (children cls) D1
                end) env h1 (Some decl) Hnode). }
  assert (outcome (visitDeclarations sf cls D1 env h1) = Ret (D1 ++ [decl])) as Ho
      by (rewrite Evisit; reflexivity).
  rewrite (M_bind_run _ _ _ _ _ Ho). unfold after. cbn [outcome final].
  rewrite Evisit. split; reflexivity.
Qed.

(** *** Runs that end alike *)


Lemma Same_after {A} (before : list Event) (r r' : Run A) :
  Same r r' -> Same (after before r) r'.
Proof. intros H. exact H. Qed.



(** *** The loop over the decorators *)



(** *** The walk, split at a node *)




End DeclarationFacts.

(* ------------------------------------------------------------------ *)
(** * More properties of the symbol layer *)

Section JsMapFacts.
Context {V : Type}.



Lemma JsMap_set_fresh (m : JsMap V) (k : string) (v : V) :
  k ∉ map fst m -> JsMap_set m k v = m ++ [(k, v)].
Proof.
  induction m as [|[k0 v0] m IH]; simpl; intros Hk; [reflexivity |].
  apply not_elem_of_cons in Hk as [Hne Hk]. simpl in *.
  destruct (String.eqb k0 k) eqn:E; [apply String.eqb_eq in E; congruence |].
  rewrite IH by exact Hk. reflexivity.
Qed.


End JsMapFacts.

Lemma TypeShape_types_ind (P : TypeShape -> Prop) :
  (forall t, Forall P (types t) -> P t) -> forall t, P t.
Proof.
  intros H. fix IH 1. intros [f ts]. apply H. simpl.
  induction ts as [|t ts IHts]; constructor; [apply IH | exact IHts].
Qed.

(** [typeKindOf] on a type, with the loop over the constituents of a union
    as one test. *)
Lemma typeKindOfType_unfold (F : TypeFlags) (t : TypeShape) :
  typeKindOfType F t
  = if hasFlag (flags t) (TypeFlags_Any F) then Some Any
    else if hasFlag (flags t)
              (Z.lor (Z.lor (TypeFlags_String F) (TypeFlags_StringLike F))
                     (TypeFlags_StringLiteral F))
    then Some String_
    else if hasFlag (flags t) (Z.lor (TypeFlags_Number F) (TypeFlags_NumberLike F))
    then Some Number
    else if hasFlag (flags t) (TypeFlags_Undefined F) then Some Undefined
    else if hasFlag (flags t) (TypeFlags_Null F) then Some Null
    else if hasFlag (flags t) (TypeFlags_Union F) then
      match types t with
      | [] => None
      | first :: _ =>
          if forallb (fun s => bool_decide (typeKindOfType F s = typeKindOfType F first))
                     (types t)
          then typeKindOfType F first else Some Other
      end
    else if hasFlag (flags t) (TypeFlags_TypeParameter F) then Some Unbound
    else Some Other.
Proof.
  destruct t as [f ts]. simpl.
  repeat match goal with |- context [if hasFlag ?a ?b then _ else _] =>
    destruct (hasFlag a b); [reflexivity |] end.
  destruct (hasFlag f (TypeFlags_Union F)); [| reflexivity].
  destruct ts as [|first rest]; [reflexivity |].
  cbn [forallb]. generalize (typeKindOfType F first). intros c.
  rewrite bool_decide_eq_false_2 by (intros Hne; apply Hne; reflexivity).
  rewrite (bool_decide_eq_true_2 (c = c) eq_refl). cbn [andb].
  induction rest as [|s l IH]; [reflexivity |]. cbn [forallb].
  destruct (decide (c = typeKindOfType F s)) as [E|E].
  - rewrite bool_decide_eq_false_2 by (intros Hne; apply Hne, E).
    rewrite (bool_decide_eq_true_2 _ (eq_sym E)). exact IH.
  - rewrite (bool_decide_eq_true_2 _ E).
    rewrite bool_decide_eq_false_2 by (intros E'; apply E; symmetry; exact E').
    reflexivity.
Qed.

Section SymbolLayerExtras.
Context `{TC : TypeChecker}.

Lemma MapSymbolTable_get_add (t : MapSymbolTable) (s : Symbol) (n : string) :
  MapSymbolTable_get (MapSymbolTable_add t s) n
  = if decide (Symbol_name s = n) then Some s else MapSymbolTable_get t n.
Proof.
  unfold MapSymbolTable_get, MapSymbolTable_add. simpl.
  destruct (decide (Symbol_name s = n)) as [->|Hne].
  - apply lookup_insert_eq.
  - apply lookup_insert_ne, Hne.
Qed.

Lemma lastNamed_cons (n : string) (s : Symbol) (l : list Symbol) :
  lastNamed n (s :: l)
  = match lastNamed n l with
    | Some x => Some x
    | None => if decide (Symbol_name s = n) then Some s else None
    end.
Proof.
  unfold lastNamed. rewrite filter_cons.
  destruct (decide (Symbol_name s = n)); [| destruct (last _); reflexivity].
  rewrite last_cons. reflexivity.
Qed.

Lemma MapSymbolTable_get_addAll (l : list Symbol) :
  forall (t : MapSymbolTable) (n : string),
    MapSymbolTable_get (MapSymbolTable_addAll t l) n
    = match lastNamed n l with
      | Some s => Some s
      | None => MapSymbolTable_get t n
      end.
Proof.
  induction l as [|s l IH]; intros t n; [reflexivity |].
  unfold MapSymbolTable_addAll in *. simpl. rewrite IH, lastNamed_cons.
  destruct (lastNamed n l); [reflexivity |].
  rewrite MapSymbolTable_get_add. destruct (decide (Symbol_name s = n)); reflexivity.
Qed.

Lemma MapSymbolTable_addAll_distinct (l : list Symbol) :
  forall t : MapSymbolTable,
    NoDup (map Symbol_name l) ->
    (forall s, s ∈ l -> map_ t !! Symbol_name s = None) ->
    _values (MapSymbolTable_addAll t l) = _values t ++ l
    /\ MapSymbolTable_size (MapSymbolTable_addAll t l)
       = (MapSymbolTable_size t + length l)%nat.
Proof.
  induction l as [|s l IH]; intros t Hnd Hfresh.
  - simpl. rewrite app_nil_r. split; [reflexivity | lia].
  - simpl in Hnd. apply NoDup_cons in Hnd as [Hs Hnd].
    unfold MapSymbolTable_addAll in *. simpl.
    assert (map_ t !! Symbol_name s = None) as Hnone by (apply Hfresh; left).
    destruct (IH (MapSymbolTable_add t s) Hnd) as [Hv Hsz].
    + intros x Hx. unfold MapSymbolTable_add. simpl.
      rewrite lookup_insert_ne.
      * apply Hfresh. right. exact Hx.
      * intros E. apply Hs. rewrite E. apply list_elem_of_fmap. eauto.
    + rewrite Hv, Hsz.
      assert (_values (MapSymbolTable_add t s) = _values t ++ [s]) as ->
          by (unfold MapSymbolTable_add; simpl; rewrite Hnone; reflexivity).
      assert (MapSymbolTable_size (MapSymbolTable_add t s) = S (MapSymbolTable_size t))
        as ->
          by (unfold MapSymbolTable_add, MapSymbolTable_size; simpl;
              apply map_size_insert_None, Hnone).
      rewrite <- app_assoc. simpl. split; [reflexivity | lia].
Qed.


Lemma toSymbolTable_distinct (symbols : list tsSymbol) :
  forall m : JsMap tsSymbol,
    NoDup (map symbol_name symbols) ->
    (forall s, s ∈ symbols -> symbol_name s ∉ map fst m) ->
    foldl (fun result symbol => JsMap_set result (symbol_name symbol) symbol) m symbols
    = m ++ map (fun s => (symbol_name s, s)) symbols.
Proof.
  induction symbols as [|s l IH]; intros m Hnd Hfresh; simpl.
  - rewrite app_nil_r. reflexivity.
  - simpl in Hnd. apply NoDup_cons in Hnd as [Hs Hnd].
    rewrite JsMap_set_fresh by (apply Hfresh; left).
    rewrite IH; [rewrite <- app_assoc; reflexivity | exact Hnd |].
    intros x Hx. rewrite map_app. simpl. intros Hin.
    apply elem_of_app in Hin as [Hin|Hin].
    + apply (Hfresh x); [right; exact Hx | exact Hin].
    + apply list_elem_of_singleton in Hin. apply Hs. rewrite <- Hin.
      apply list_elem_of_fmap. eauto.
Qed.


Lemma NoDup_fmap_eq {A B} (f : A -> B) (l : list A) (x y : A) :
  NoDup (map f l) -> x ∈ l -> y ∈ l -> f x = f y -> x = y.
Proof.
  induction l as [|a l IH]; simpl; intros Hnd Hx Hy E; [inversion Hx |].
  apply NoDup_cons in Hnd as [Ha Hnd].
  apply elem_of_cons in Hx as [->|Hx]; apply elem_of_cons in Hy as [->|Hy].
  - reflexivity.
  - exfalso. apply Ha. rewrite E. apply list_elem_of_fmap. eauto.
  - exfalso. apply Ha. rewrite <- E. apply list_elem_of_fmap. eauto.
  - apply IH; assumption.
Qed.

Lemma lastNamed_elem (n : string) (l : list Symbol) (s : Symbol) :
  lastNamed n l = Some s -> s ∈ l /\ Symbol_name s = n.
Proof.
  unfold lastNamed. intros H. apply last_Some_elem_of in H.
  apply list_elem_of_filter in H. tauto.
Qed.

Lemma typeArguments_single (l : list tsType) (T : tsType) :
  (if (length l <=? 1)%nat then head l else None) = Some T <-> l = [T].
Proof.
  destruct l as [|a [|b l]]; simpl; split; intros H; try discriminate; congruence.
Qed.

(** X1.  [getBuiltinType] memoizes: the symbol it returns for a kind is in
    the type cache under that kind afterwards, a second call returns the
    same symbol and changes nothing, and the entries of the other kinds and
    the context are as before. *)
Theorem getBuiltinType_memoizes (q q' : TypeScriptSymbolQuery) (kind : BuiltinType)
    (s : Symbol) :
  getBuiltinType q kind = (Ret s, q') ->
  typeCache q' !! kind = Some s
  /\ getBuiltinType q' kind = (Ret s, q')
  /\ query_context q' = query_context q
  /\ (forall k, k <> kind -> typeCache q' !! k = typeCache q !! k).
Proof.
  unfold getBuiltinType. destruct (typeCache q !! kind) eqn:E.
  - intros [= <- <-]. rewrite E. auto.
  - destruct (getBuiltinTypeFromTs kind (query_context q)) eqn:E2; [| discriminate].
    intros [= <- <-]. simpl. rewrite lookup_insert_eq.
    repeat split; try reflexivity.
    intros k Hk. apply lookup_insert_ne. congruence.
Qed.

(** X2.  For a kind that is not cached, [getBuiltinType] throws exactly
    when the kind is [Unbound] or [Other], and then leaves the query as it
    was; for each of the six other kinds it returns a wrapper of a type of
    the checker in the context of the query and caches it. *)
Theorem getBuiltinType_unhandled_kind (q : TypeScriptSymbolQuery) (kind : BuiltinType) :
  typeCache q !! kind = None ->
  ((exists e, getBuiltinType q kind = (Throw e, q)) <-> kind = Unbound \/ kind = Other)
  /\ (kind <> Unbound -> kind <> Other ->
      exists t,
        getBuiltinType q kind
        = (Ret (TypeWrapper t (query_context q)),
           set_typeCache q (<[kind := TypeWrapper t (query_context q)]> (typeCache q)))).
Proof.
  intros E. unfold getBuiltinType. rewrite E. split.
  - destruct kind; simpl; split;
      try (intros [e H]; discriminate H); try (intros [H|H]; discriminate H);
      eauto.
  - intros H1 H2. destruct kind; simpl; try contradiction; eexists; reflexivity.
Qed.

(** X3.  [getElementType] answers exactly for a wrapper of a type whose
    symbol is named [Array] and that has one type argument, with a wrapper of
    that argument in the context of the array; for every other symbol it
    answers [undefined]. *)
Theorem getElementType_of_Array (q : TypeScriptSymbolQuery) (type r : Symbol) :
  getElementType q type = Some r
  <-> exists t context s T,
        type = TypeWrapper t context /\ type_symbol t = Some s
        /\ symbol_name s = "Array" /\ type_typeArguments t = Some [T]
        /\ r = TypeWrapper T context.
Proof.
  unfold getElementType, getTypeParameterOf. split.
  - destruct type as [t context| | |]; try discriminate.
    destruct (type_symbol t) as [s|] eqn:Es; [| discriminate].
    destruct (String.eqb (symbol_name s) "Array") eqn:En; [| discriminate].
    destruct (type_typeArguments t) as [l|] eqn:Ea; [| discriminate].
    destruct (if (length l <=? 1)%nat then head l else None) as [T|] eqn:El;
      [| discriminate].
    intros [= <-]. apply typeArguments_single in El. subst l.
    apply String.eqb_eq in En. exists t, context, s, T. auto.
  - intros (t & context & s & T & -> & Es & En & Ea & ->).
    rewrite Es, (proj2 (String.eqb_eq _ _) En), Ea. reflexivity.
Qed.

(** X4.  [PipeSymbol.selectSignature] overrides nothing unless the pipe is
    [async] or [slice] and it is given one argument that is a [TypeWrapper]:
    in every other case it returns what [selectSignature] gives for the type
    of the [transform] method. *)
Theorem PipeSymbol_selectSignature_plain (pipe : PipeInfo) (context : TypeContext)
    (types : list Symbol) :
  (pipe_name pipe <> "async" /\ pipe_name pipe <> "slice")
  \/ (forall t c, types <> [TypeWrapper t c]) ->
  exists this,
    PipeSymbol_tsType pipe context = Ret this
    /\ PipeSymbol_selectSignature pipe context types
       = Ret (selectSignature this context types).
Proof.
  intros H. destruct (PipeSymbol_tsType_returns pipe context) as [this Hthis].
  exists this. split; [exact Hthis |].
  unfold PipeSymbol_selectSignature. rewrite Hthis.
  cbn -[getTypeParameterOf selectSignature getBuiltinTypeFromTs].
  destruct types as [|[t c| | |] [|? ?]]; try reflexivity.
  destruct H as [[Ha Hs]|H]; [| exfalso; exact (H t c eq_refl)].
  rewrite (proj2 (String.eqb_neq _ _) Ha), (proj2 (String.eqb_neq _ _) Hs).
  reflexivity.
Qed.

(** X5.  The [async] pipe applied to a wrapper that is named neither
    [Observable] nor [Promise] nor [EventEmitter] has the result [any]: the
    type the checker of the pipe gives for [true as any], wrapped in the
    context of the argument. *)
Theorem PipeSymbol_selectSignature_async_any (pipe : PipeInfo)
    (context parameterContext : TypeContext) (t : tsType) :
  pipe_name pipe = "async" ->
  TypeWrapper_name t <> "Observable" -> TypeWrapper_name t <> "Promise" ->
  TypeWrapper_name t <> "EventEmitter" ->
  exists signature,
    PipeSymbol_selectSignature pipe context [TypeWrapper t parameterContext]
    = Ret (Some signature)
    /\ Signature_result signature
       = TypeWrapper (getTypeAtSynthetic context SynAsExpression_True_Any)
                     parameterContext.
Proof.
  intros Ha H1 H2 H3. destruct (PipeSymbol_tsType_returns pipe context) as [this Hthis].
  unfold PipeSymbol_selectSignature. rewrite Hthis.
  cbn -[getTypeParameterOf selectSignature].
  rewrite (proj2 (String.eqb_eq _ _) Ha).
  rewrite (proj2 (String.eqb_neq _ _) H1), (proj2 (String.eqb_neq _ _) H2),
    (proj2 (String.eqb_neq _ _) H3).
  cbn -[selectSignature]. eexists. split; reflexivity.
Qed.

(** X6.  In a [MapSymbolTable] the last symbol added under a name is the one
    [get] returns: after [addAll] it is the last symbol of that name in the
    list, or what the table held before when the list has none; and
    [mergeSymbolTable] returns, for each name, the last symbol of that name
    among the values of all the tables, so a later table overrides an
    earlier one. *)
Theorem MapSymbolTable_last_wins :
  (forall (t : MapSymbolTable) (l : list Symbol) (n : string),
      MapSymbolTable_get (MapSymbolTable_addAll t l) n
      = match lastNamed n l with
        | Some s => Some s
        | None => MapSymbolTable_get t n
        end)
  /\ (forall (tables : list SymbolTable) (n : string),
         MapSymbolTable_get (mergeSymbolTable tables) n
         = lastNamed n (concat (map SymbolTable_values tables))).
Proof.
  split.
  - intros t l n. apply MapSymbolTable_get_addAll.
  - intros tables n. unfold mergeSymbolTable.
    rewrite mergeSymbolTable_addAll, MapSymbolTable_get_addAll.
    destruct (lastNamed n _); reflexivity.
Qed.

(** X7.  [createSymbolTable] of declarations whose names differ pairwise
    enumerates one [DeclaredSymbol] for each declaration, in their order, its
    size is their number, and [get] finds each under its name. *)
Theorem createSymbolTable_distinct (symbols : list SymbolDeclaration) :
  NoDup (map declaration_name symbols) ->
  MapSymbolTable_values (createSymbolTable symbols) = map DeclaredSymbol_new symbols
  /\ MapSymbolTable_size (createSymbolTable symbols) = length symbols
  /\ (forall d, d ∈ symbols ->
         MapSymbolTable_get (createSymbolTable symbols) (declaration_name d)
         = Some (DeclaredSymbol_new d)).
Proof.
  intros Hnd. unfold createSymbolTable.
  assert (NoDup (map Symbol_name (map DeclaredSymbol_new symbols))) as Hnd'.
  { rewrite map_map. exact Hnd. }
  destruct (MapSymbolTable_addAll_distinct (map DeclaredSymbol_new symbols)
              MapSymbolTable_new Hnd') as [Hv Hsz].
  { intros s _. apply lookup_empty. }
  split; [exact Hv | split].
  - rewrite Hsz. unfold MapSymbolTable_size. simpl.
    rewrite map_size_empty, length_map. reflexivity.
  - intros d Hd. rewrite MapSymbolTable_get_addAll.
    destruct (lastNamed (declaration_name d) (map DeclaredSymbol_new symbols))
      as [s|] eqn:E.
    + apply lastNamed_elem in E as [Hin Hname].
      apply list_elem_of_fmap in Hin as (d' & -> & Hd').
      f_equal. f_equal. apply (NoDup_fmap_eq declaration_name symbols); assumption.
    + exfalso. unfold lastNamed in E. apply last_None in E.
      assert (DeclaredSymbol_new d
              ∈ filter (fun s => Symbol_name s = declaration_name d)
                       (map DeclaredSymbol_new symbols)) as Hin.
      { apply list_elem_of_filter. split; [reflexivity |].
        apply list_elem_of_fmap. eauto. }
      rewrite E in Hin. inversion Hin.
Qed.

Lemma MapSymbolTable_addAll_length (l : list Symbol) :
  forall t : MapSymbolTable,
    length (_values (MapSymbolTable_addAll t l)) = (length (_values t) + length l)%nat.
Proof.
  induction l as [|s l IH]; intros t; simpl; [lia |].
  unfold MapSymbolTable_addAll in *. simpl. rewrite IH, MapSymbolTable_add_length. lia.
Qed.

(** X8.  Whatever symbols were added to a new [MapSymbolTable]: what [get]
    returns for a name has that name, is one of the symbols added and is
    still among [values()]; [values()] has one entry for each symbol added,
    and [size] never exceeds their number. *)
Theorem MapSymbolTable_get_in_values (l : list Symbol) (n : string) (v : Symbol) :
  MapSymbolTable_get (MapSymbolTable_addAll MapSymbolTable_new l) n = Some v ->
  Symbol_name v = n /\ v ∈ l
  /\ v ∈ MapSymbolTable_values (MapSymbolTable_addAll MapSymbolTable_new l)
  /\ length (MapSymbolTable_values (MapSymbolTable_addAll MapSymbolTable_new l))
     = length l
  /\ (MapSymbolTable_size (MapSymbolTable_addAll MapSymbolTable_new l) <= length l)%nat.
Proof.
  intros Hget.
  pose proof (MapSymbolTable_inv_addAll l _ MapSymbolTable_inv_new n v Hget) as [Hn Hin].
  pose proof (MapSymbolTable_addAll_length l MapSymbolTable_new) as Hlen. simpl in Hlen.
  rewrite MapSymbolTable_get_addAll in Hget.
  destruct (lastNamed n l) as [s|] eqn:E; [| discriminate].
  injection Hget as ->. apply lastNamed_elem in E as [Hl _].
  repeat split; try assumption.
  unfold MapSymbolTable_values. rewrite <- Hlen.
  apply MapSymbolTable_addAll_size_le. simpl. unfold MapSymbolTable_size. simpl.
  rewrite map_size_empty. lia.
Qed.



(** X11.  [toSymbols] undoes [toSymbolTable] on symbols whose names differ
    pairwise: the symbols come back in their order. *)
Theorem toSymbols_toSymbolTable (symbols : list tsSymbol) :
  NoDup (map symbol_name symbols) ->
  toSymbols (Some (toSymbolTable symbols)) = symbols.
Proof.
  intros Hnd. unfold toSymbols, toSymbolTable, JsMap_values.
  rewrite toSymbolTable_distinct; [| exact Hnd | intros s _ H; inversion H].
  simpl. rewrite map_map. simpl. apply map_id.
Qed.

End SymbolLayerExtras.

(** X12.  [typeKindOf] of a union type: when all the constituents have one
    kind, the union has that kind; when two constituents differ in kind it
    is [Other]; and for a union without constituents the answer is
    [undefined]. *)
Theorem typeKindOf_union (F : TypeFlags) (t : TypeShape) :
  reachesUnion F t = true ->
  (types t = [] -> typeKindOf F (Some t) = None)
  /\ (forall k, types t <> [] ->
         Forall (fun s => typeKindOf F (Some s) = k) (types t) ->
         typeKindOf F (Some t) = k)
  /\ (forall a b, a ∈ types t -> b ∈ types t ->
         typeKindOf F (Some a) <> typeKindOf F (Some b) ->
         typeKindOf F (Some t) = Some Other).
Proof.
  unfold reachesUnion, typeKindOf. intros H.
  repeat (apply andb_prop in H as [H ?]).
  repeat match goal with
         | Hn : negb ?b = true |- _ => apply negb_true_iff in Hn
         end.
  rewrite typeKindOfType_unfold.
  repeat match goal with Hf : hasFlag _ _ = _ |- _ => rewrite Hf; clear Hf end.
  destruct (types t) as [|first rest] eqn:Et.
  - split; [reflexivity | split].
    + intros k Hne. contradiction.
    + intros a b Ha. inversion Ha.
  - split; [discriminate | split].
    + intros k _ Hall.
      assert (typeKindOfType F first = k) as Hk by (inversion Hall; assumption).
      rewrite Hk.
      rewrite (proj2 (forallb_forall _ _)); [reflexivity |].
      intros s Hs. apply bool_decide_eq_true.
      rewrite Forall_forall in Hall. apply Hall, list_elem_of_In, Hs.
    + intros a b Ha Hb Hne.
      destruct (forallb _ (first :: rest)) eqn:Eall; [| reflexivity].
      exfalso. apply Hne.
      rewrite forallb_forall in Eall.
      pose proof (Eall a (proj1 (list_elem_of_In _ _) Ha)) as Ea.
      pose proof (Eall b (proj1 (list_elem_of_In _ _) Hb)) as Eb.
      apply bool_decide_eq_true in Ea, Eb. congruence.
Qed.

(** X13.  [typeKindOf] never answers [Boolean]: a type it has no other
    answer for is [Other], also a boolean one. *)
Theorem typeKindOf_never_Boolean (F : TypeFlags) (type : option TypeShape) :
  typeKindOf F type <> Some Boolean.
Proof.
  destruct type as [t|]; simpl; [| discriminate].
  induction t as [t IH] using TypeShape_types_ind.
  rewrite typeKindOfType_unfold.
  repeat match goal with |- context [if hasFlag ?a ?b then _ else _] =>
    destruct (hasFlag a b); [discriminate |] end.
  destruct (hasFlag (flags t) (TypeFlags_Union F)).
  - destruct (types t) as [|first rest]; [discriminate |].
    destruct (forallb _ _); [| discriminate].
    inversion IH; assumption.
  - destruct (hasFlag _ _); discriminate.
Qed.

(* ------------------------------------------------------------------ *)
(** * More properties of the walks over a syntax tree *)

Section TreeExtras.

Lemma firstSome_Some {A B} (f : A -> option B) (l : list A) (b : B) :
  firstSome f l = Some b -> exists a, a ∈ l /\ f a = Some b.
Proof.
  induction l as [|a l IH]; simpl; [discriminate |].
  destruct (f a) as [b'|] eqn:E.
  - intros [= <-]. exists a. split; [left | exact E].
  - intros H. destruct (IH H) as (a' & Hin & Ha'). exists a'. split; [right |]; assumption.
Qed.

Lemma firstSome_None {A B} (f : A -> option B) (l : list A) :
  firstSome f l = None -> Forall (fun a => f a = None) l.
Proof.
  induction l as [|a l IH]; simpl; [constructor |].
  destruct (f a) eqn:E; [discriminate |]. intros H. constructor; auto.
Qed.

Lemma find_None_iff (position : Z) (ancestors : list Node) (n : Node) :
  find position ancestors n = None <-> ~ (getStart n <= position < getEnd n).
Proof.
  rewrite find_unfold.
  destruct (Z.leb_spec (getStart n) position) as [Hs|Hs],
           (Z.ltb_spec position (getEnd n)) as [He|He]; simpl;
    try (split; [intros _; lia | reflexivity]).
  destruct (firstSome _ _); split; try discriminate; intros Hout; exfalso; apply Hout; lia.
Qed.

Lemma forEachChild_firstSome {A} (cb : Node -> option A) (n : Node) :
  forEachChild cb n = firstSome cb (children n).
Proof.
  unfold forEachChild. induction (children n) as [|c l IH]; simpl; [reflexivity |].
  rewrite IH. reflexivity.
Qed.

Lemma chainTo_snoc (c n x : Node) (path : list Node) :
  chainTo c x path -> c ∈ children n -> chainTo n x (path ++ [n]).
Proof.
  revert x. induction path as [|p path IH]; simpl; intros x H Hc.
  - subst x. split; [exact Hc | reflexivity].
  - destruct H as [Hx Hp]. split; [exact Hx | apply IH; assumption].
Qed.

Lemma find_sound (position : Z) (n : Node) :
  forall ancestors r,
    find position ancestors n = Some r ->
    getStart (node r) <= position < getEnd (node r)
    /\ (exists path, parents r = path ++ ancestors /\ chainTo n (node r) path)
    /\ Forall (fun c => ~ (getStart c <= position < getEnd c)) (children (node r)).
Proof.
  induction n as [n IH] using Node_children_ind. intros ancestors r.
  rewrite find_unfold.
  destruct (Z.leb_spec (getStart n) position), (Z.ltb_spec position (getEnd n)); simpl;
    try discriminate.
  destruct (firstSome (find position (n :: ancestors)) (children n)) as [r'|] eqn:E.
  - intros [= <-]. apply firstSome_Some in E as (c & Hc & Hfind).
    rewrite Forall_forall in IH.
    destruct (IH c Hc _ _ Hfind) as (Hin & (path & Hp & Hchain) & Hdeep).
    split; [exact Hin | split; [| exact Hdeep]].
    exists (path ++ [n]). split.
    + rewrite Hp, <- app_assoc. reflexivity.
    + apply (chainTo_snoc c); assumption.
  - intros [= <-]. simpl. split; [lia | split].
    + exists []. split; reflexivity.
    + apply firstSome_None in E. eapply Forall_impl; [exact E |].
      intros c Hc. apply (find_None_iff position (n :: ancestors)). exact Hc.
Qed.

Lemma findChild_unfold (position : Z) (n : Node) :
  findChild position n
  = if afterLastToken (kind n) && (pos n <=? position) && (position <? getEnd n) then
      match firstSome (findChild position) (children n) with
      | Some betterNode => Some betterNode
      | None => Some n
      end
    else None.
Proof.
  destruct n as [k p s e t nm ex ds cs]. simpl.
  destruct (afterLastToken k && (p <=? position) && (position <? e)); [| reflexivity].
  assert (forall l,
             (fix forEachChild (cs0 : list Node) : option Node :=
                match cs0 with
                | [] => None
                | c :: cs' =>
                    match findChild position c with
                    | Some r => Some r
                    | None => forEachChild cs'
                    end
                end) l = firstSome (findChild position) l) as E.
  { induction l as [|c l IH]; simpl; [reflexivity |]. rewrite IH. reflexivity. }
  rewrite E. reflexivity.
Qed.

Lemma below_unfold (d n : Node) :
  below d n <-> d = n \/ exists c, c ∈ children n /\ below d c.
Proof.
  destruct n as [k p s e t nm ex ds cs]. simpl.
  match goal with |- _ \/ ?X <-> _ => assert (X <-> exists c, c ∈ cs /\ below d c) as E end.
  { clear. induction cs as [|c cs IH]; simpl.
    - split; [contradiction | intros (c & Hc & _); inversion Hc].
    - rewrite IH. split.
      + intros [H|(c' & Hc' & H)]; [exists c; split; [left | exact H] |].
        exists c'. split; [right |]; assumption.
      + intros (c' & Hc' & H). apply elem_of_cons in Hc' as [->|Hc']; [left; exact H |].
        right. eauto. }
  rewrite E. reflexivity.
Qed.

Lemma findChild_sound (position : Z) (n : Node) :
  forall d,
    findChild position n = Some d ->
    below d n /\ afterLastToken (kind d) = true /\ pos d <= position < getEnd d.
Proof.
  induction n as [n IH] using Node_children_ind. intros d.
  rewrite findChild_unfold.
  destruct (afterLastToken (kind n)) eqn:Ek; simpl; [| discriminate].
  destruct (Z.leb_spec (pos n) position), (Z.ltb_spec position (getEnd n)); simpl;
    try discriminate.
  destruct (firstSome (findChild position) (children n)) as [b|] eqn:E.
  - intros [= <-]. apply firstSome_Some in E as (c & Hc & Hfind).
    rewrite Forall_forall in IH. destruct (IH c Hc _ Hfind) as (Hb & Hk & Hin).
    split; [| auto]. apply below_unfold. right. eauto.
  - intros [= <-]. split; [apply below_unfold; left; reflexivity |]. split; [exact Ek | lia].
Qed.

End TreeExtras.

(** X14.  The node [findNode] answers with holds the position, none of its
    children does, and its [parent] chain leads, child by child, up to the
    root of the file. *)
Theorem findNode_sound (sourceFile : SourceFile) (position : Z) (r : NodeRef) :
  findNode sourceFile position = Some r ->
  getStart (node r) <= position < getEnd (node r)
  /\ chainTo (root sourceFile) (node r) (parents r)
  /\ Forall (fun c => ~ (getStart c <= position < getEnd c)) (children (node r)).
Proof.
  unfold findNode. intros H.
  destruct (find_sound position (root sourceFile) [] r H)
    as (Hin & (path & Hp & Hchain) & Hdeep).
  rewrite app_nil_r in Hp. subst path. auto.
Qed.

(** X15.  [findNode] answers exactly when the root of the file holds the
    position. *)
Theorem findNode_defined_iff (sourceFile : SourceFile) (position : Z) :
  is_Some (findNode sourceFile position)
  <-> getStart (root sourceFile) <= position < getEnd (root sourceFile).
Proof.
  unfold findNode.
  pose proof (find_None_iff position [] (root sourceFile)) as H.
  destruct (find position [] (root sourceFile)) as [r|].
  - split; [| eauto]. intros _.
    destruct (decide (getStart (root sourceFile) <= position < getEnd (root sourceFile)))
      as [Hin|Hout]; [exact Hin |].
    apply H in Hout. discriminate.
  - split; [intros [? ?]; discriminate |]. intros Hin.
    exfalso. apply (proj1 H); [reflexivity | exact Hin].
Qed.

(** X16.  [spanAt] answers only for a line and a column that are both
    there, and then with the span from [getStart] to [getEnd] of a node
    below the root that is no token and whose full range, from [pos] to its
    end, holds the position of that line and column. *)
Theorem spanAt_sound (getPositionOfLineAndCharacter : SourceFile -> Z -> Z -> Z)
    (sourceFile : SourceFile) (line column : option Z) (span : Span) :
  spanAt getPositionOfLineAndCharacter sourceFile line column = Some span ->
  exists l c d,
    line = Some l /\ column = Some c
    /\ below d (root sourceFile)
    /\ afterLastToken (kind d) = true
    /\ pos d <= getPositionOfLineAndCharacter sourceFile l c < getEnd d
    /\ span = spanOf d.
Proof.
  unfold spanAt. destruct line as [l|], column as [c|]; try discriminate.
  rewrite forEachChild_firstSome.
  destruct (firstSome _ _) as [d|] eqn:E; [| discriminate].
  intros [= <-]. apply firstSome_Some in E as (child & Hchild & Hfind).
  apply findChild_sound in Hfind as (Hb & Hk & Hin).
  exists l, c, d. repeat split; try assumption; try lia.
  apply below_unfold. right. eauto.
Qed.

(* ------------------------------------------------------------------ *)
(** * More properties of the host *)

Section HostExtras.
Context `{C : Compiler}.

Lemma M_bind_pure {A B} (m : M A) (k : A -> M B) (env : Env)
    (h : TypeScriptServiceHost) (a : A) :
  m env h = M_ret a env h -> M_bind m k env h = k a env h.
Proof.
  intros E. unfold M_bind. rewrite E. simpl. apply Run_eta.
Qed.

Lemma noDecoratedClass_unfold (n : Node) :
  noDecoratedClass n
  = negb (bool_decide (kind n = ClassDeclaration)
          && bool_decide (is_Some (decorators n)) && bool_decide (is_Some (name n)))
    && forallb noDecoratedClass (children n).
Proof. destruct n. reflexivity. Qed.

Lemma getDeclarationFromNode_plain (sf : SourceFile) (n : Node) :
  negb (bool_decide (kind n = ClassDeclaration)
        && bool_decide (is_Some (decorators n)) && bool_decide (is_Some (name n))) = true ->
  getDeclarationFromNode sf n = M_ret None.
Proof.
  unfold getDeclarationFromNode. intros H.
  destruct (bool_decide (kind n = ClassDeclaration)); [| reflexivity].
  destruct (decorators n) as [ds|]; [| reflexivity].
  destruct (name n) as [className|]; [| reflexivity].
  simpl in H.
  first [ discriminate H
        | rewrite !bool_decide_eq_true_2 in H by eauto; discriminate H ].
Qed.

Lemma visitDeclarations_plain (sf : SourceFile) (child : Node) :
  noDecoratedClass child = true ->
  forall result env h, visitDeclarations sf child result env h = M_ret result env h.
Proof.
  induction child as [child IH] using Node_children_ind.
  rewrite noDecoratedClass_unfold. intros H result env h.
  apply andb_prop in H as [Hhead Hchildren].
  rewrite visitDeclarations_unfold, (getDeclarationFromNode_plain sf child Hhead).
  rewrite M_bind_ret_l. unfold visitAllDeclarations.
  revert result h. induction (children child) as [|c cs IHcs]; intros result h;
    [reflexivity |].
  simpl in Hchildren. apply andb_prop in Hchildren as [Hc Hcs].
  inversion IH as [|? ? IHc IHrest]; subst.
  simpl. rewrite (M_bind_pure _ _ env h result) by (apply IHc, Hc).
  apply IHcs; assumption.
Qed.

(** X17.  [getDeclarations] looks nothing up for a file without a class
    declaration that has decorators and a name, and for a file the program
    does not have: it returns no declaration, leaves the host as it was and
    reads no memoized field. *)
Theorem getDeclarations_without_classes (env : Env) (h : TypeScriptServiceHost)
    (f : string) :
  match program_getSourceFile (program env) f with
  | Some sf => forallb noDecoratedClass (children (root sf)) = true
  | None => True
  end ->
  getDeclarations f env h = {| outcome := Ret []; final := h; events := [] |}.
Proof.
  unfold getDeclarations, getSourceFile. rewrite M_bind_assoc, M_bind_env, M_bind_ret_l.
  destruct (program_getSourceFile (program env) f) as [sf|]; [| reflexivity].
  unfold visitAllDeclarations. generalize (@nil Declaration).
  induction (children (root sf)) as [|c cs IH]; intros result H; [reflexivity |].
  simpl in H. apply andb_prop in H as [Hc Hcs].
  simpl. rewrite (M_bind_pure _ _ env h result) by (apply visitDeclarations_plain, Hc).
  apply IH, Hcs.
Qed.

(** *** [validate], when it acts *)

Lemma validate_file_invalidated (env : Env)
    (acc : gset string * TypeScriptServiceHost) (sf : SourceFile) (f : string) :
  f ∈ invalidatedFiles (validate_file env acc sf).2 ->
  f ∈ invalidatedFiles acc.2
  \/ (f = fileName sf /\ fileVersions acc.2 !! f <> Some (getScriptVersion env f)).
Proof.
  unfold validate_file. case_bool_decide as Hv; simpl; [| auto].
  unfold invalidatedFiles, invalidateFile. simpl.
  destruct (_staticSymbolResolver acc.2) as [r|] eqn:E; simpl; rewrite ?E; [| auto].
  rewrite elem_of_union, elem_of_singleton. intros [->|H]; auto.
Qed.

Lemma validate_files_invalidated (env : Env) (files : list SourceFile) :
  forall (acc : gset string * TypeScriptServiceHost) (f : string),
    f ∈ invalidatedFiles (foldl (validate_file env) acc files).2 ->
    f ∈ invalidatedFiles acc.2
    \/ (f ∈ map fileName files
        /\ fileVersions acc.2 !! f <> Some (getScriptVersion env f)).
Proof.
  induction files as [|sf files IH]; intros acc f; simpl; [auto |].
  intros H. destruct (IH _ _ H) as [Hin|[Hin Hv]].
  - destruct (validate_file_invalidated env acc sf f Hin) as [?|[-> ?]]; [auto |].
    right. split; [left | assumption].
  - rewrite validate_file_fileVersions in Hv.
    destruct (decide (f = fileName sf)) as [->|Hne]; [contradiction |].
    right. split; [right |]; assumption.
Qed.

Lemma validate_acts_state (env : Env) (h : TypeScriptServiceHost) :
  is_Some (_staticSymbolResolver h) -> lastProgram h <> Some (program env) ->
  let files := program_getSourceFiles (program env) in
  let r := foldl (validate_file env) (∅, clearCaches h) files in
  (forall f, fileVersions (validate env h) !! f
             = if decide (f ∈ map fileName files) then Some (getScriptVersion env f)
               else None)
  /\ (forall f, f ∈ invalidatedFiles (validate env h)
                <-> f ∈ invalidatedFiles r.2
                    \/ (is_Some (fileVersions h !! f) /\ f ∉ map fileName files)).
Proof.
  intros Hr Hp files r. rewrite (validate_acts env h Hr Hp). cbv zeta.
  fold files. fold r.
  set (missing := filter (fun f => f ∉ r.1) (map fst (map_to_list (fileVersions r.2)))).
  assert (is_Some (_staticSymbolResolver
                     ((∅ : gset string), clearCaches h).2)) as Hr0 by exact Hr.
  destruct (validate_files_resolver env files (∅, clearCaches h) Hr0)
    as (Hr2 & _ & _). fold r in Hr2.
  assert (forall f, f ∈ missing
                    <-> is_Some (fileVersions h !! f) /\ f ∉ map fileName files)
    as Hmissing.
  { intros f. unfold missing. rewrite list_elem_of_filter, list_elem_of_fmap.
    unfold r at 1. rewrite validate_files_seen. simpl. split.
    - intros (Hseen & [k v] & -> & Hk). apply elem_of_map_to_list in Hk. simpl in *.
      assert (k ∉ map fileName files) as Hn by set_solver.
      split; [| exact Hn].
      unfold r in Hk. rewrite validate_files_fileVersions, decide_False in Hk by exact Hn.
      simpl in Hk. eauto.
    - intros ([v Hv] & Hn). split; [set_solver |].
      exists (f, v). split; [reflexivity |]. apply elem_of_map_to_list.
      unfold r. rewrite validate_files_fileVersions, decide_False by exact Hn.
      exact Hv. }
  set (h3 := foldl (fun h f => set_fileVersions (delete f (fileVersions h)) h) r.2 missing).
  assert (is_Some (_staticSymbolResolver h3)) as Hr3.
  { unfold h3. rewrite (delete_missing_frame _staticSymbolResolver)
      by (intros; reflexivity). exact Hr2. }
  destruct (invalidate_missing_resolver missing h3 Hr3) as [Hr4 Hi4].
  assert (invalidatedFiles h3 = invalidatedFiles r.2) as Hi3.
  { unfold invalidatedFiles, h3.
    rewrite (delete_missing_frame _staticSymbolResolver) by (intros; reflexivity).
    reflexivity. }
  set (h4 := foldl (fun h f => invalidateFile f h) h3 missing) in *.
  split.
  - intros f. simpl. unfold h4.
    rewrite (invalidate_missing_frame fileVersions) by (intros; reflexivity).
    unfold h3. rewrite delete_missing_fileVersions.
    destruct (decide (f ∈ missing)) as [Hm|Hm].
    + apply Hmissing in Hm as [_ Hn]. rewrite decide_False by exact Hn. reflexivity.
    + unfold r. rewrite validate_files_fileVersions.
      destruct (decide (f ∈ map fileName files)) as [Hin|Hn]; [reflexivity |].
      simpl. destruct (fileVersions h !! f) eqn:E; [| reflexivity].
      exfalso. apply Hm, Hmissing. eauto.
  - intros f.
    assert (invalidatedFiles (set_lastProgram (Some (program env)) h4)
            = invalidatedFiles r.2 ∪ list_to_set missing) as ->.
    { rewrite <- Hi3, <- Hi4. reflexivity. }
    rewrite elem_of_union, elem_of_list_to_set, Hmissing. reflexivity.
Qed.

(** X18.  When [validate] acts, it clears the checker, the type cache and
    the metadata resolver and marks the modules out of date; the analyzed
    modules, the template map, the template references, the reflector, the
    reflector host and the context stay as they were. *)
Theorem validate_clears_caches (env : Env) (h : TypeScriptServiceHost) :
  is_Some (_staticSymbolResolver h) -> lastProgram h <> Some (program env) ->
  (_checker (validate env h) = None /\ _typeCache (validate env h) = []
   /\ _resolver (validate env h) = None /\ modulesOutOfDate (validate env h) = true)
  /\ (analyzedModules (validate env h) = analyzedModules h
      /\ fileToComponent (validate env h) = fileToComponent h
      /\ templateReferences (validate env h) = templateReferences h
      /\ _reflector (validate env h) = _reflector h
      /\ _reflectorHost (validate env h) = _reflectorHost h
      /\ context (validate env h) = context h).
Proof.
  intros Hr Hp.
  assert (forall {A} (field : TypeScriptServiceHost -> A),
             (forall v h, field (set__staticSymbolResolver v h) = field h) ->
             (forall v h, field (set_fileVersions v h) = field h) ->
             (forall v h, field (set_lastProgram v h) = field h) ->
             field (validate env h) = field (clearCaches h)) as Hframe.
  { intros A field H1 H2 H3. rewrite (validate_frame field env h H1 H2 H3).
    apply decide_True. split; assumption. }
  repeat split; rewrite Hframe by (intros; reflexivity); reflexivity.
Qed.

(** X19.  When [validate] acts, the version map afterwards holds exactly
    the files of the program, each with the version the editor gives for
    it. *)
Theorem validate_fileVersions_mirror (env : Env) (h : TypeScriptServiceHost) (f : string) :
  is_Some (_staticSymbolResolver h) -> lastProgram h <> Some (program env) ->
  fileVersions (validate env h) !! f
  = if decide (f ∈ map fileName (program_getSourceFiles (program env)))
    then Some (getScriptVersion env f) else None.
Proof.
  intros Hr Hp. apply (validate_acts_state env h Hr Hp).
Qed.

(** X20.  When [validate] acts, the files invalidated in the static symbol
    resolver afterwards are exactly those that were invalidated before, the
    files of the program whose version is not the recorded one, and the
    recorded files the program no longer has: a file of the program whose
    version is the recorded one is not invalidated anew. *)
Theorem validate_invalidates_exactly (env : Env) (h : TypeScriptServiceHost) (f : string) :
  is_Some (_staticSymbolResolver h) -> lastProgram h <> Some (program env) ->
  f ∈ invalidatedFiles (validate env h)
  <-> f ∈ invalidatedFiles h
      \/ (f ∈ map fileName (program_getSourceFiles (program env))
          /\ fileVersions h !! f <> Some (getScriptVersion env f))
      \/ (is_Some (fileVersions h !! f)
          /\ f ∉ map fileName (program_getSourceFiles (program env))).
Proof.
  intros Hr Hp. destruct (validate_acts_state env h Hr Hp) as [_ Hinv].
  rewrite Hinv. clear Hinv.
  assert (is_Some (_staticSymbolResolver
                     ((∅ : gset string), clearCaches h).2)) as Hr0 by exact Hr.
  destruct (validate_files_resolver env (program_getSourceFiles (program env))
              (∅, clearCaches h) Hr0) as (_ & Hsub & Hchanged).
  split.
  - intros [Hin|Hmissing]; [| auto].
    destruct (validate_files_invalidated env _ _ _ Hin) as [Hold|Hnew]; [left | right; left];
      assumption.
  - intros [Hold|[[Hin Hv]|Hmissing]]; [left | left | right; assumption].
    + apply Hsub. exact Hold.
    + apply list_elem_of_fmap in Hin as (sf & -> & Hsf). apply Hchanged; assumption.
Qed.

(** *** The collected errors *)

(** X21.  An error collected for a file comes last among the errors
    [getCollectedErrors] returns for that file, after those it returned
    before and with its message and its span, and the errors of a file of
    another name are what they were. *)
Theorem getCollectedErrors_after_collectError (env : Env) (h : TypeScriptServiceHost)
    (sf other : SourceFile) (defaultSpan : Span) (e : JsError) :
  exists before,
    outcome (getCollectedErrors defaultSpan sf env h) = Ret before
    /\ outcome (getCollectedErrors defaultSpan sf env
                  (collectError e (Some (fileName sf)) h))
       = Ret (before ++ [toDeclarationError sf defaultSpan e])
    /\ (fileName other <> fileName sf ->
        outcome (getCollectedErrors defaultSpan other env
                   (collectError e (Some (fileName sf)) h))
        = outcome (getCollectedErrors defaultSpan other env h)).
Proof.
  unfold getCollectedErrors. eexists. rewrite !M_bind_read. unfold after, collectError.
  simpl. split; [reflexivity |].
  destruct (collectedErrors h) as [m|]; simpl; (split;
    [ rewrite lookup_insert_eq; simpl; rewrite ?lookup_empty, map_app; reflexivity
    | intros Hne; rewrite lookup_insert_ne by congruence; reflexivity ]).
Qed.

(** *** The analyzed modules *)

(** X22.  Once [updateAnalyzedModules] has returned, the modules are marked
    up to date, and a second call under the same program only validates: it
    returns and leaves the host as it is. *)
Theorem updateAnalyzedModules_idempotent (env : Env) (h : TypeScriptServiceHost) :
  outcome (updateAnalyzedModules env h) = Ret tt ->
  modulesOutOfDate (final (updateAnalyzedModules env h)) = false
  /\ updateAnalyzedModules env (final (updateAnalyzedModules env h))
     = {| outcome := Ret tt;
          final := final (updateAnalyzedModules env h);
          events := [EvValidate] |}.
Proof.
  rewrite (updateAnalyzedModules_unfold env h).
  destruct (modulesOutOfDate (validate env h)) eqn:E.
  - pose proof (refreshed_returns env h) as Hr.
    generalize dependent (refreshed env h). intros r Hr Ho.
    unfold after in *. cbn [outcome final] in *.
    destruct (Hr Ho) as (a & _ & _ & Hfalse & Hseen).
    clear Hr Ho. revert Hfalse Hseen. generalize (final r). intros h' Hfalse [_ Hlast].
    split; [exact Hfalse |].
    rewrite (updateAnalyzedModules_unfold env h').
    rewrite (validate_idle env h') by (intros [_ Hne]; apply Hne, Hlast).
    rewrite Hfalse. reflexivity.
  - pose proof (validate_idempotent env h) as Hi.
    generalize dependent (validate env h). intros v E Hi _.
    unfold after, M_ret. cbn [outcome final events].
    split; [exact E |].
    rewrite (updateAnalyzedModules_unfold env v), Hi, E. reflexivity.
Qed.

(** X23.  In every state the public operations can bring a host to: when
    the modules are marked up to date, the memoized analyzed modules are the
    analysis of the program seen last, and the static symbol resolver
    exists. *)
Theorem reachable_up_to_date (h : TypeScriptServiceHost) :
  Reachable h -> modulesOutOfDate h = false ->
  is_Some (_staticSymbolResolver h)
  /\ exists p a, lastProgram h = Some p /\ analyzedModules h = Some a
                 /\ analysisOf p = Some a.
Proof. intros Hreach. exact (Reachable_UpToDate h Hreach). Qed.

(** *** Declarations *)


(** *** The getters *)

Lemma reflectorHost_throws (env : Env) (h : TypeScriptServiceHost) :
  _reflectorHost h = None ->
  (if truthy_string (context h) then context h else head (getScriptFileNames env))
    ≫= program_getSourceFile (program env) = None ->
  outcome (reflectorHost env h)
  = Throw (mkError "Internal error: no context could be determined").
Proof.
  intros Hhost Hsource. unfold reflectorHost. rewrite M_bind_read, Hhost.
  rewrite M_bind_env, M_bind_get.
  destruct (truthy_string (context h)).
  - rewrite M_bind_ret_l, M_bind_get, Hsource. reflexivity.
  - rewrite M_bind_update, M_bind_get.
    change (context (set_context (head (getScriptFileNames env)) h))
      with (head (getScriptFileNames env)).
    rewrite Hsource. reflexivity.
Qed.

Lemma staticSymbolResolver_throws (env : Env) (h : TypeScriptServiceHost) :
  _staticSymbolResolver h = None -> _reflectorHost h = None ->
  (if truthy_string (context h) then context h else head (getScriptFileNames env))
    ≫= program_getSourceFile (program env) = None ->
  outcome (staticSymbolResolver env h)
  = Throw (mkError "Internal error: no context could be determined")
  /\ analyzedModules (final (staticSymbolResolver env h)) = analyzedModules h.
Proof.
  intros Hr Hhost Hsource.
  pose proof (reflectorHost_throws env
                (set__summaryResolver (Some AotSummaryResolver_new) h) Hhost Hsource)
    as Hthrow.
  assert (analyzedModules
            (final (reflectorHost env
                      (set__summaryResolver (Some AotSummaryResolver_new) h)))
          = analyzedModules h) as Hkeep.
  { assert (Preserves env (fun x => analyzedModules x = analyzedModules h) reflectorHost)
      as HP.
    { unfold reflectorHost. preserves; apply Preserves_update; intros x Hx; exact Hx. }
    apply HP. reflexivity. }
  pose proof (fun B (k : ReflectorHost -> M B) =>
                M_bind_Throw reflectorHost k env _ _ Hthrow) as HT.
  unfold staticSymbolResolver. rewrite M_bind_read, Hr, M_bind_update.
  unfold after. cbn [outcome final]. split.
  - rewrite (proj1 (HT _ _)). reflexivity.
  - rewrite (proj1 (proj2 (HT _ _))). exact Hkeep.
Qed.

(** X25.  A host that has memoized neither analyzed modules nor a static
    symbol resolver nor a reflector host, and whose context (failing that,
    the first script of the editor) names no file of the program, cannot
    analyze: [getAnalyzedModules] throws the internal error that no context
    could be determined, and memoizes no modules. *)
Theorem getAnalyzedModules_no_context (env : Env) (h : TypeScriptServiceHost) :
  analyzedModules h = None -> _staticSymbolResolver h = None ->
  _reflectorHost h = None ->
  (if truthy_string (context h) then context h else head (getScriptFileNames env))
    ≫= program_getSourceFile (program env) = None ->
  outcome (getAnalyzedModules env h)
  = Throw (mkError "Internal error: no context could be determined")
  /\ analyzedModules (final (getAnalyzedModules env h)) = None.
Proof.
  intros Ha Hr Hhost Hsource.
  assert (validate env h = h) as Hv.
  { apply validate_idle. intros [[r Hr'] _]. congruence. }
  destruct (staticSymbolResolver_throws env h Hr Hhost Hsource) as [Hthrow Hkeep].
  pose proof (fun B (k : StaticSymbolResolver -> M B) =>
                M_bind_Throw staticSymbolResolver k env _ _ Hthrow) as HT.
  unfold getAnalyzedModules. rewrite M_bind_validate, Hv.
  unfold ensureAnalyzedModules. rewrite M_bind_read, Ha.
  unfold after. cbn [outcome final]. split.
  - rewrite (proj1 (HT _ _)). reflexivity.
  - rewrite (proj1 (proj2 (HT _ _))), Hkeep. exact Ha.
Qed.

Lemma resolver_memoizes (env : Env) (h : TypeScriptServiceHost)
    (r : CompileMetadataResolver) :
  outcome (resolver env h) = Ret r -> _resolver (final (resolver env h)) = Some r.
Proof.
  unfold resolver. rewrite M_bind_validate.
  generalize (validate env h). intros v. rewrite M_bind_read.
  unfold after. cbn [outcome final].
  destruct (_resolver v) as [r0|] eqn:E.
  - cbn. intros _. destruct r0, r. exact E.
  - intros Ho.
    repeat (apply M_bind_Ret in Ho as (? & _ & Ho & E' & _); rewrite E'; clear E').
    cbn. destruct r. reflexivity.
Qed.

(** X26.  Where a static symbol resolver exists, the metadata resolver is
    memoized: after [resolver] has returned, a second call under the same
    program validates, reads the memoized resolver and returns it, and
    leaves the host as it is. *)
Theorem resolver_memoized (env : Env) (h : TypeScriptServiceHost)
    (r : CompileMetadataResolver) :
  is_Some (_staticSymbolResolver h) ->
  outcome (resolver env h) = Ret r ->
  resolver env (final (resolver env h))
  = {| outcome := Ret r;
       final := final (resolver env h);
       events := [EvValidate; EvRead F_resolver] |}.
Proof.
  intros Hssr Ho.
  pose proof (resolver_memoizes env h r Ho) as Hmemo.
  pose proof (resolver_SeenProgram env h Hssr) as [_ Hlast].
  generalize dependent (final (resolver env h)). intros h' Hmemo Hlast.
  unfold resolver. rewrite M_bind_validate.
  rewrite (validate_idle env h') by (intros [_ Hne]; apply Hne, Hlast).
  rewrite M_bind_read, Hmemo. reflexivity.
Qed.

Lemma reflector_creates (env : Env) (h : TypeScriptServiceHost) (r : StaticReflector) :
  _reflector h = None -> outcome (reflector env h) = Ret r ->
  is_Some (_staticSymbolResolver (final (reflector env h))).
Proof.
  intros Hnone. unfold reflector. rewrite M_bind_read, Hnone.
  unfold after. cbn [outcome final]. intros Ho.
  apply M_bind_Ret in Ho as (ssr & Hssr & Ho & -> & _).
  pose proof (staticSymbolResolver_exists env h _ ssr (Returns_intro _ _ _ _ Hssr)) as Hex.
  generalize dependent (final (staticSymbolResolver env h)). intros h1 _ Hex.
  exact Hex.
Qed.

(** X27.  The first call of [resolver] on a host that has memoized neither a
    metadata resolver nor a reflector nor a static symbol resolver creates
    all three and leaves the program seen last as it was; so, unless that
    was the program of the moment already, the next [validate] acts and
    throws the metadata resolver away again. *)
Theorem resolver_first_call (env : Env) (h : TypeScriptServiceHost)
    (r : CompileMetadataResolver) :
  _resolver h = None -> _reflector h = None -> _staticSymbolResolver h = None ->
  lastProgram h <> Some (program env) ->
  outcome (resolver env h) = Ret r ->
  is_Some (_staticSymbolResolver (final (resolver env h)))
  /\ is_Some (_reflector (final (resolver env h)))
  /\ _resolver (final (resolver env h)) = Some r
  /\ lastProgram (final (resolver env h)) = lastProgram h
  /\ _resolver (validate env (final (resolver env h))) = None.
Proof.
  intros Hres Hrefl Hssr Hlast Ho.
  pose proof (resolver_memoizes env h r Ho) as Hmemo.
  assert (validate env h = h) as Hv.
  { apply validate_idle. intros [[x Hx] _]. congruence. }
  assert ((is_Some (_staticSymbolResolver (final (resolver env h)))
           /\ HasReflector (final (resolver env h)))
          /\ lastProgram (final (resolver env h)) = lastProgram h)
    as [[Hex Hreflector] Hkeep].
  { revert Ho. unfold resolver. rewrite M_bind_validate, Hv, M_bind_read, Hres.
    unfold after. cbn [outcome final]. intros Ho. split.
    - apply M_bind_Ret in Ho as (r1 & Hr1 & Ho & -> & _).
      pose proof (reflector_creates env h r1 Hrefl Hr1) as Hex.
      pose proof (reflector_memoizes env h r1 Hr1) as Hmem.
      generalize dependent (final (reflector env h)). intros h1 _ Hex Hmem.
      assert (Preserves env (fun x => is_Some (_staticSymbolResolver x))
                (reflector;; reflector;; reflector;;
                 M_update (set__resolver (Some CompileMetadataResolver_new));;
                 M_ret CompileMetadataResolver_new)) as HP.
      { preserves;
          first [ apply (Preserves_reflector env _ (Stable_resolver_exists env))
                | apply Preserves_update; intros x Hx; exact Hx ]. }
      assert (Preserves env HasReflector
                (reflector;; reflector;; reflector;;
                 M_update (set__resolver (Some CompileMetadataResolver_new));;
                 M_ret CompileMetadataResolver_new)) as HQ.
      { preserves;
          first [ apply (Preserves_reflector env _ (Stable_HasReflector env))
                | apply Preserves_update; intros x Hx; exact Hx ]. }
      split; [apply HP, Hex | apply HQ, Hmem].
    - assert (Preserves env (fun x => lastProgram x = lastProgram h)
                (reflector;; reflector;; reflector;; reflector;;
                 M_update (set__resolver (Some CompileMetadataResolver_new));;
                 M_ret CompileMetadataResolver_new)) as HP.
      { unfold reflector, staticSymbolResolver, reflectorHost.
        preserves; apply Preserves_update; intros x Hx; exact Hx. }
      apply HP. reflexivity. }
  generalize dependent (final (resolver env h)). intros h' Hmemo Hex Hreflector Hkeep.
  repeat split; try assumption.
  rewrite (validate_frame _resolver env h') by (intros; reflexivity).
  rewrite decide_True; [reflexivity |].
  split; [exact Hex | congruence].
Qed.

(** *** The template map *)

Lemma ensureTemplateMap_memoized (env : Env) (h : TypeScriptServiceHost)
    (m : gmap string StaticSymbol) (l : list string) :
  fileToComponent h = Some m -> templateReferences h = Some l ->
  ensureTemplateMap env h
  = {| outcome := Ret tt; final := h;
       events := [EvRead F_fileToComponent; EvRead F_templateReferences] |}.
Proof.
  intros Hm Hl. unfold ensureTemplateMap.
  rewrite M_bind_read, Hm, M_bind_assoc, M_bind_read, Hl, M_bind_ret_l.
  rewrite bool_decide_eq_false_2 by discriminate. reflexivity.
Qed.

(** X28.  Once the template map and the template references are memoized,
    [getTemplateReferences] returns the memoized references whatever the
    program of the moment is: it neither validates nor analyzes, and leaves
    the host as it is. *)
Theorem getTemplateReferences_memoized (env : Env) (h : TypeScriptServiceHost)
    (m : gmap string StaticSymbol) (l : list string) :
  fileToComponent h = Some m -> templateReferences h = Some l ->
  getTemplateReferences env h
  = {| outcome := Ret (Some l); final := h;
       events := [EvRead F_fileToComponent; EvRead F_templateReferences;
                  EvRead F_templateReferences] |}.
Proof.
  intros Hm Hl. unfold getTemplateReferences.
  rewrite (M_bind_run _ _ env h tt)
    by (rewrite (ensureTemplateMap_memoized env h m l Hm Hl); reflexivity).
  rewrite (ensureTemplateMap_memoized env h m l Hm Hl).
  unfold after, M_read. cbn [outcome final events]. rewrite Hl. reflexivity.
Qed.

Lemma getTemplateClassFromStaticSymbol_skips (type : StaticSymbol) (pre : list Node)
    (env : Env) (h : TypeScriptServiceHost) :
  Forall (fun c => kind c <> ClassDeclaration
                   \/ exists n, name c = Some n /\ text n <> symbolName type) pre ->
  M_foldl (fun (found : option Node) child =>
             match found with
             | Some d => M_ret (Some d)
             | None =>
                 if bool_decide (kind child = ClassDeclaration) then
                   match name child with
                   | None => M_throw TypeError
                   | Some n =>
                       if String.eqb (text n) (symbolName type)
                       then M_ret (Some child) else M_ret None
                   end
                 else M_ret None
             end) None pre env h
  = M_ret None env h.
Proof.
  induction 1 as [|c pre Hc _ IH]; [reflexivity |].
  cbn [M_foldl]. rewrite M_bind_pure with (a := None); [exact IH |].
  destruct Hc as [Hk|(n & Hn & Ht)].
  - rewrite bool_decide_eq_false_2 by exact Hk. reflexivity.
  - rewrite Hn, (proj2 (String.eqb_neq _ _) Ht).
    destruct (bool_decide _); reflexivity.
Qed.

Lemma getTemplateClassFromStaticSymbol_keeps (type : StaticSymbol) (post : list Node)
    (d : Node) (env : Env) (h : TypeScriptServiceHost) :
  M_foldl (fun (found : option Node) child =>
             match found with
             | Some d => M_ret (Some d)
             | None =>
                 if bool_decide (kind child = ClassDeclaration) then
                   match name child with
                   | None => M_throw TypeError
                   | Some n =>
                       if String.eqb (text n) (symbolName type)
                       then M_ret (Some child) else M_ret None
                   end
                 else M_ret None
             end) (Some d) post env h
  = M_ret (Some d) env h.
Proof.
  induction post as [|c post IH]; [reflexivity |].
  cbn [M_foldl]. rewrite M_bind_ret_l. exact IH.
Qed.

(** X29.  A template in a file of its own: for a file that the program does
    not have and that the memoized template map gives a component for,
    [getTemplateAt] finds the first class declaration of the name of the
    component among the top-level nodes of the file of the component, and
    returns the whole text of the editor's snapshot of the template file,
    from 0 to its length, at the version of the template file, owned by the
    component; the host is left as it is. *)
Theorem getTemplateAt_external_template (env : Env) (h : TypeScriptServiceHost)
    (f : string) (position : Z) (m : gmap string StaticSymbol) (l : list string)
    (type : StaticSymbol) (sf : SourceFile) (pre post : list Node) (cls nm : Node)
    (source : string) :
  program_getSourceFile (program env) f = None ->
  fileToComponent h = Some m -> templateReferences h = Some l ->
  m !! f = Some type ->
  program_getSourceFile (program env) (filePath type) = Some sf ->
  children (root sf) = pre ++ cls :: post ->
  Forall (fun c => kind c <> ClassDeclaration
                   \/ exists n, name c = Some n /\ text n <> symbolName type) pre ->
  kind cls = ClassDeclaration -> name cls = Some nm -> text nm = symbolName type ->
  getScriptSnapshot env f = Some source ->
  outcome (getTemplateAt f position env h)
  = Ret (Some {| version := getScriptVersion env f;
                 source := Some source;
                 span := {| start := 0; end_ := Z.of_nat (String.length source) |};
                 type := type |})
  /\ final (getTemplateAt f position env h) = h.
Proof.
  intros Hf Hm Hl Hcomponent Hsf Hchildren Hpre Hkind Hname Htext Hsnapshot.
  assert (getTemplateClassFromStaticSymbol type env h = M_ret (Some cls) env h) as Hclass.
  { unfold getTemplateClassFromStaticSymbol, getSourceFile.
    rewrite M_bind_assoc, M_bind_env, M_bind_ret_l, Hsf, Hchildren, M_foldl_app.
    rewrite M_bind_pure with (a := None)
      by (apply getTemplateClassFromStaticSymbol_skips, Hpre).
    cbn [M_foldl]. rewrite M_bind_pure with (a := Some cls).
    - apply getTemplateClassFromStaticSymbol_keeps.
    - rewrite (bool_decide_eq_true_2 _ Hkind), Hname,
        (proj2 (String.eqb_eq _ _) Htext). reflexivity. }
  assert (getSourceFromType f (getScriptVersion env f) type env h
          = M_ret (Some {| version := getScriptVersion env f;
                           source := Some source;
                           span := {| start := 0;
                                      end_ := Z.of_nat (String.length source) |};
                           type := type |}) env h) as Hsource.
  { unfold getSourceFromType. rewrite M_bind_pure with (a := Some cls) by exact Hclass.
    rewrite M_bind_env, Hsnapshot. reflexivity. }
  unfold getTemplateAt, getSourceFile.
  rewrite M_bind_env, M_bind_assoc, M_bind_env, M_bind_ret_l, Hf.
  rewrite (M_bind_run _ _ env h tt)
    by (rewrite (ensureTemplateMap_memoized env h m l Hm Hl); reflexivity).
  rewrite (ensureTemplateMap_memoized env h m l Hm Hl).
  cbn [final events]. rewrite M_bind_read, Hm, Hcomponent, Hsource.
  split; reflexivity.
Qed.

Lemma noStringLiteral_unfold (n : Node) :
  noStringLiteral n
  = negb (bool_decide (kind n = StringLiteral))
    && negb (bool_decide (kind n = NoSubstitutionTemplateLiteral))
    && forallb noStringLiteral (children n).
Proof. destruct n. reflexivity. Qed.

Lemma visitTemplates_plain (f v : string) (child : Node) :
  noStringLiteral child = true ->
  forall ancestors result env h,
    visitTemplates f v ancestors child result env h = M_ret result env h.
Proof.
  induction child as [child IH] using Node_children_ind.
  rewrite noStringLiteral_unfold. intros H ancestors result env h.
  apply andb_prop in H as [Hhead Hchildren]. apply andb_prop in Hhead as [Hs Ht].
  apply negb_true_iff, bool_decide_eq_false in Hs, Ht.
  rewrite visitTemplates_unfold.
  rewrite M_bind_pure with (a := None).
  - generalize (child :: ancestors). intros anc. revert result h.
    induction (children child) as [|c cs IHcs]; intros result h; [reflexivity |].
    simpl in Hchildren. apply andb_prop in Hchildren as [Hc Hcs].
    inversion IH as [|? ? IHc IHrest]; subst.
    cbn [M_foldl]. rewrite M_bind_pure with (a := result) by (apply IHc, Hc).
    apply IHcs; assumption.
  - unfold getSourceFromNode. cbn [node].
    destruct (kind child); try reflexivity; congruence.
Qed.

(** X30.  For a file of the program that the memoized template map gives no
    component for and that has no string literal, [getTemplates] returns
    [undefined], not an empty array; the context of the host becomes the
    path of the file, failing that its name. *)
Theorem getTemplates_without_literals (env : Env) (h : TypeScriptServiceHost)
    (f : string) (m : gmap string StaticSymbol) (l : list string) (sf : SourceFile) :
  fileToComponent h = Some m -> templateReferences h = Some l -> m !! f = None ->
  program_getSourceFile (program env) f = Some sf ->
  forallb noStringLiteral (children (root sf)) = true ->
  outcome (getTemplates f env h) = Ret None
  /\ final (getTemplates f env h)
     = set_context (Some (if truthy_string (path sf) then default "" (path sf)
                          else fileName sf)) h.
Proof.
  intros Hm Hl Hnone Hsf Hplain. unfold getTemplates.
  rewrite (M_bind_run _ _ env h tt)
    by (rewrite (ensureTemplateMap_memoized env h m l Hm Hl); reflexivity).
  rewrite (ensureTemplateMap_memoized env h m l Hm Hl).
  cbn [final events]. rewrite M_bind_read, Hm, Hnone, M_bind_env.
  unfold getSourceFile. rewrite M_bind_assoc, M_bind_env, M_bind_ret_l, Hsf.
  rewrite M_bind_assoc, M_bind_update.
  match goal with |- context [set_context ?c h] => generalize (set_context c h) end.
  intros h1.
  assert (forall result,
             M_foldl (fun result child =>
                        visitTemplates f (getScriptVersion env f) [root sf] child result)
                     result (children (root sf)) env h1
             = M_ret result env h1) as Hwalk.
  { induction (children (root sf)) as [|c cs IH]; intros result; [reflexivity |].
    simpl in Hplain. apply andb_prop in Hplain as [Hc Hcs].
    cbn [M_foldl].
    rewrite M_bind_pure with (a := result) by (apply visitTemplates_plain, Hc).
    apply IH, Hcs. }
  rewrite M_bind_pure with (a := []) by apply Hwalk.
  split; reflexivity.
Qed.

End HostExtras.

(* ------------------------------------------------------------------ *)
(** * The theorems at work on the small project *)

Section Examples.
#[local] Existing Instance Sample.checker.
#[local] Existing Instance Sample.compiler.
Import Sample.

Lemma Reachable_queried : Reachable queried.
Proof. apply Reachable_getAnalyzedModules, Reachable_new. Qed.

(** The [async] pipe applied to [Observable<number>] gives [number]. *)
Lemma PipeSymbol_selectSignature_unwraps_Observable :
  exists signature,
    PipeSymbol_selectSignature
      {| pipe_name := "async";
         pipe_symbol := {| filePath := "common.d.ts"; symbolName := "AsyncPipe" |} |}
      tt [TypeWrapper (TC := checker) 2%nat tt] = Ret (Some signature)
    /\ Signature_result signature = TypeWrapper (TC := checker) 1%nat tt.
Proof.
  apply (PipeSymbol_selectSignature_unwraps (TC := checker) _ tt tt 2%nat 1%nat "Observable").
  - reflexivity.
  - reflexivity.
  - left. split; [reflexivity | left; reflexivity].
Defined.

(** [string | null] loses its [null]. *)
Lemma getNonNullableType_of_nullable :
  getNonNullableType emptyQuery (TypeWrapper (TC := checker) 3%nat tt)
  = (Ret (TypeWrapper (TC := checker) 4%nat tt), emptyQuery).
Proof.
  eapply (proj1 (getNonNullableType_wrapper_or_any (TC := checker)
                   emptyQuery (TypeWrapper (TC := checker) 3%nat tt))
            (3%nat : tsType (TypeChecker := checker)) tt (fun t => match t with 3%nat => 4%nat | _ => t end)).
  - reflexivity.
  - reflexivity.
  - simpl. lia.
Defined.

(** C8, as stated, fails: once [any] is cached, asking for the non-nullable
    type of the cached [any] answers with that very symbol. *)
Lemma getNonNullableType_answers_cached_any : ~ NeverAnswersWithItsInput.
Proof.
  intros H.
  apply (H (getBuiltinType emptyQuery Any).2 (TypeWrapper (TC := checker) 0%nat tt)).
  - intros (t & context & nonNullable & E & Hc & Hne). injection E as <- <-.
    vm_compute in Hc. injection Hc as <-. apply Hne. reflexivity.
  - reflexivity.
Qed.

(** Two template variables of one name. *)
Lemma MapSymbolTable_duplicate_add_twice :
  let t := MapSymbolTable_addAll MapSymbolTable_new
             [DeclaredSymbol "item" "property" (TypeWrapper (TC := checker) 1%nat tt)] in
  let t' := MapSymbolTable_add t (DeclaredSymbol "item" "property" (TypeWrapper (TC := checker) 4%nat tt)) in
  MapSymbolTable_get t' "item" = Some (DeclaredSymbol "item" "property" (TypeWrapper (TC := checker) 4%nat tt))
  /\ (2 <= count_occ Symbol_eq_dec (MapSymbolTable_values t')
                     (DeclaredSymbol "item" "property" (TypeWrapper (TC := checker) 4%nat tt)))%nat.
Proof.
  intros t t'.
  destruct (proj1 (MapSymbolTable_duplicate_add (TC := checker))
              [DeclaredSymbol "item" "property" (TypeWrapper (TC := checker) 1%nat tt)]
              (DeclaredSymbol "item" "property" (TypeWrapper (TC := checker) 4%nat tt)))
    as (Hget & _ & Hcount & _).
  - vm_compute. reflexivity.
  - split; [exact Hget | exact Hcount].
Defined.

(** C2 at work: the literal assigned to [selector] in [other.ts]. *)
Lemma getTemplateAt_shape_selector :
  outcome (getTemplateAt "other.ts" 25 (env 0 "1") TypeScriptServiceHost_new) = Ret None.
Proof.
  refine (proj2 (proj2 (getTemplateAt_shape (env 0 "1") TypeScriptServiceHost_new
                          "other.ts" 25 other_ts
                          {| node := literal 0;
                             parents := [assignment 0 "selector";
                                         objectLiteral 0 "selector";
                                         call 0 "selector"; decorator 0 "selector";
                                         classDeclaration 0 "Other" "selector";
                                         root other_ts] |} _ _))
            (assignment 0 "selector") (propertyName 0 "selector") _ _ _ _ _).
  - reflexivity.
  - vm_compute. reflexivity.
  - reflexivity.
  - reflexivity.
  - reflexivity.
  - simpl. discriminate.
Defined.

(** C3 at work: the template of [AppComponent] in [app.ts]. *)
Lemma getTemplateAt_inline_template_app :
  outcome (getTemplateAt "app.ts" 25 (env 0 "1") TypeScriptServiceHost_new)
  = Ret (Some {| version := "1";
                 source := Some "<b>x</b>";
                 span := {| start := 23; end_ := 31 |};
                 type := {| filePath := "app.ts"; symbolName := "AppComponent" |} |}).
Proof.
  apply (getTemplateAt_inline_template (env 0 "1") TypeScriptServiceHost_new
           "app.ts" 25 app_ts [0; 0; 0; 1; 0; 1]%nat
           (literal 0) (assignment 0 "template") (propertyName 0 "template")
           (objectLiteral 0 "template") (call 0 "template") (decorator 0 "template")
           (classDeclaration 0 "AppComponent" "template") (className 0 "AppComponent")
           [root app_ts]).
  - reflexivity.
  - simpl. discriminate.
  - vm_compute. eexists. reflexivity.
  - vm_compute. reflexivity.
  - vm_compute. reflexivity.
  - left. reflexivity.
  - reflexivity.
  - reflexivity.
  - reflexivity.
  - reflexivity.
  - reflexivity.
  - reflexivity.
  - reflexivity.
  - reflexivity.
  - reflexivity.
  - simpl. lia.
Defined.

(** C4 at work: program 1 has dropped [old.ts] and every file is at
    version 2. *)
Lemma validate_on_program_change_queried :
  InvalidatesChangedFiles (env 1 "2") queried
  /\ lastProgram (validate (env 1 "2") queried) = Some 1%nat.
Proof.
  apply (proj1 (validate_on_program_change (env 1 "2") queried)).
  - vm_compute. eexists. reflexivity.
  - vm_compute. discriminate.
Defined.

(** C4, as stated, fails on a new host: the program is not the one seen
    last, and yet no stamp is recorded. *)
Lemma validate_without_resolver :
  lastProgram TypeScriptServiceHost_new <> Some (program (env 0 "1"))
  /\ ~ InvalidatesChangedFiles (env 0 "1") TypeScriptServiceHost_new.
Proof.
  split; [discriminate |].
  intros (Hfiles & _ & _).
  destruct (Hfiles app_ts) as [_ Hstamp].
  - simpl. constructor.
  - vm_compute. discriminate.
  - vm_compute in Hstamp. discriminate.
Qed.

(** C1 at work. *)
Lemma getAnalyzedModules_memoized_queried :
  exists a,
    outcome (getAnalyzedModules (env 1 "2")
               (final (updateAnalyzedModules (env 1 "2") queried))) = Ret a
    /\ analysisOf (program (env 1 "2")) = Some a.
Proof.
  apply (getAnalyzedModules_memoized (env 1 "2") queried).
  - apply Reachable_getAnalyzedModules, Reachable_new.
  - vm_compute. reflexivity.
Defined.

(** C1, as stated, fails: after the program has changed the query
    returns the modules of the program before. *)
Lemma getAnalyzedModules_stale : ~ ReturnsFreshModules.
Proof.
  intros H.
  assert (exists a, outcome (getAnalyzedModules (env 1 "2") queried) = Ret a
                    /\ analysisOf (program (env 1 "2")) <> Some a) as (a & Ha & Hne).
  { vm_compute. eexists. split; [reflexivity | discriminate]. }
  apply Hne. apply (H (env 1 "2") queried a Reachable_queried Ha).
Qed.

(** C5, as stated, fails: [getTemplateReferences] reads the template map
    first. *)
Lemma getTemplateReferences_reads_first : ~ EveryOperationValidatesFirst.
Proof.
  intros (H & _). destruct (H (env 0 "1") TypeScriptServiceHost_new) as [rest E].
  vm_compute in E. discriminate.
Qed.



End Examples.

(* ------------------------------------------------------------------ *)
(** * The further theorems at work on the small project *)

Section MoreExamples.
#[local] Existing Instance Sample.checker.
#[local] Existing Instance Sample.compiler.
Import Sample MoreSamples.

(** [any], asked for twice. *)
Lemma getBuiltinType_memoizes_any :
  getBuiltinType (getBuiltinType emptyQuery Any).2 Any
  = (Ret (TypeWrapper (TC := checker) 0%nat tt), (getBuiltinType emptyQuery Any).2).
Proof.
  apply (getBuiltinType_memoizes emptyQuery (getBuiltinType emptyQuery Any).2 Any
           (TypeWrapper (TC := checker) 0%nat tt)).
  reflexivity.
Defined.

(** There is no literal to ask the checker about for [Unbound]. *)
Lemma getBuiltinType_unhandled_kind_Unbound :
  exists e, getBuiltinType emptyQuery Unbound = (Throw e, emptyQuery).
Proof.
  apply (proj1 (getBuiltinType_unhandled_kind emptyQuery Unbound eq_refl)).
  left. reflexivity.
Defined.

(** A pipe that is neither [async] nor [slice]. *)
Lemma PipeSymbol_selectSignature_plain_uppercase :
  exists this,
    PipeSymbol_tsType
      {| pipe_name := "uppercase";
         pipe_symbol := {| filePath := "common.d.ts"; symbolName := "UpperCasePipe" |} |}
      tt = Ret this
    /\ PipeSymbol_selectSignature
         {| pipe_name := "uppercase";
            pipe_symbol := {| filePath := "common.d.ts"; symbolName := "UpperCasePipe" |} |}
         tt [TypeWrapper (TC := checker) 4%nat tt]
       = Ret (selectSignature this tt [TypeWrapper (TC := checker) 4%nat tt]).
Proof.
  apply (PipeSymbol_selectSignature_plain (TC := checker)).
  left. split; discriminate.
Defined.

(** [async] of a string. *)
Lemma PipeSymbol_selectSignature_async_any_string :
  exists signature,
    PipeSymbol_selectSignature
      {| pipe_name := "async";
         pipe_symbol := {| filePath := "common.d.ts"; symbolName := "AsyncPipe" |} |}
      tt [TypeWrapper (TC := checker) 4%nat tt] = Ret (Some signature)
    /\ Signature_result signature = TypeWrapper (TC := checker) 0%nat tt.
Proof.
  apply (PipeSymbol_selectSignature_async_any (TC := checker) _ tt tt 4%nat).
  - reflexivity.
  - vm_compute. discriminate.
  - vm_compute. discriminate.
  - vm_compute. discriminate.
Defined.

(** Two template variables of different names. *)
Lemma createSymbolTable_distinct_two :
  MapSymbolTable_size
    (createSymbolTable
       [ {| declaration_name := "item"; declaration_kind := "variable";
            declaration_type := TypeWrapper (TC := checker) 4%nat tt |};
         {| declaration_name := "index"; declaration_kind := "variable";
            declaration_type := TypeWrapper (TC := checker) 1%nat tt |} ])
  = 2%nat.
Proof.
  apply (createSymbolTable_distinct (TC := checker)).
  refine (bool_decide_unpack _ _). vm_compute. exact I.
Defined.

(** Two template variables of one name: the later one is found. *)
Lemma MapSymbolTable_get_in_values_twice :
  DeclaredSymbol "item" "variable" (TypeWrapper (TC := checker) 1%nat tt)
  ∈ [ DeclaredSymbol "item" "variable" (TypeWrapper (TC := checker) 4%nat tt);
      DeclaredSymbol "item" "variable" (TypeWrapper (TC := checker) 1%nat tt) ].
Proof.
  apply (MapSymbolTable_get_in_values (TC := checker)
           [ DeclaredSymbol "item" "variable" (TypeWrapper (TC := checker) 4%nat tt);
             DeclaredSymbol "item" "variable" (TypeWrapper (TC := checker) 1%nat tt) ]
           "item").
  vm_compute. reflexivity.
Defined.

(** Two symbols of different names make the round trip. *)
Lemma toSymbols_toSymbolTable_two :
  toSymbols (TC := checker) (Some (toSymbolTable ["Observable"; "Array"]))
  = ["Observable"; "Array"].
Proof.
  apply (toSymbols_toSymbolTable (TC := checker)).
  refine (bool_decide_unpack _ _). vm_compute. exact I.
Defined.

(** [string | 'a'] is a string. *)
Lemma typeKindOf_union_of_strings :
  typeKindOf typeFlags (Some stringOrLiteral) = Some String_.
Proof.
  apply (proj1 (proj2 (typeKindOf_union typeFlags stringOrLiteral eq_refl))).
  - discriminate.
  - repeat constructor.
Defined.

(** The literal of [app.ts] at position 25. *)
Lemma findNode_sound_app :
  getStart (literal 0) <= 25 < getEnd (literal 0).
Proof.
  apply (findNode_sound app_ts 25
           {| node := literal 0;
              parents := [assignment 0 "template"; objectLiteral 0 "template";
                          call 0 "template"; decorator 0 "template";
                          classDeclaration 0 "AppComponent" "template";
                          root app_ts] |}).
  vm_compute. reflexivity.
Defined.

(** The span of an error at column 25 of [app.ts] is the property
    assignment: the literal is a token. *)
Lemma spanAt_sound_app :
  exists l c d,
    Some 0 = Some l /\ Some 25 = Some c
    /\ below d (root app_ts)
    /\ afterLastToken (kind d) = true
    /\ pos d <= getPositionOfLineAndCharacter app_ts l c < getEnd d
    /\ {| start := 12; end_ := 32 |} = spanOf d.
Proof.
  apply (spanAt_sound getPositionOfLineAndCharacter app_ts (Some 0) (Some 25)).
  vm_compute. reflexivity.
Defined.

(** [old.ts] has no class. *)
Lemma getDeclarations_without_classes_old :
  getDeclarations "old.ts" (env 0 "1") TypeScriptServiceHost_new
  = {| outcome := Ret []; final := TypeScriptServiceHost_new; events := [] |}.
Proof.
  apply (getDeclarations_without_classes (env 0 "1")).
  vm_compute. reflexivity.
Defined.

(** Program 1 after program 0. *)
Lemma validate_clears_caches_queried :
  analyzedModules (validate (env 1 "2") queried) = analyzedModules queried.
Proof.
  apply (validate_clears_caches (env 1 "2") queried).
  - vm_compute. eexists. reflexivity.
  - vm_compute. discriminate.
Defined.

Lemma validate_fileVersions_mirror_old :
  fileVersions (validate (env 1 "2") queried) !! "old.ts"
  = if decide ("old.ts" ∈ map fileName (program_getSourceFiles (program (env 1 "2"))))
    then Some (getScriptVersion (env 1 "2") "old.ts") else None.
Proof.
  apply (validate_fileVersions_mirror (env 1 "2") queried "old.ts").
  - vm_compute. eexists. reflexivity.
  - vm_compute. discriminate.
Defined.

Lemma validate_invalidates_exactly_old :
  "old.ts" ∈ invalidatedFiles (validate (env 1 "2") queried).
Proof.
  apply (validate_invalidates_exactly (env 1 "2") queried "old.ts").
  - vm_compute. eexists. reflexivity.
  - vm_compute. discriminate.
  - right. right. split.
    + vm_compute. eexists. reflexivity.
    + refine (bool_decide_unpack _ _). vm_compute. exact I.
Defined.

(** Updating twice. *)
Lemma updateAnalyzedModules_idempotent_queried :
  modulesOutOfDate (final (updateAnalyzedModules (env 1 "2") queried)) = false.
Proof.
  apply (updateAnalyzedModules_idempotent (env 1 "2") queried).
  vm_compute. reflexivity.
Defined.

Lemma reachable_up_to_date_updated :
  is_Some (_staticSymbolResolver
             (final (updateAnalyzedModules (env 0 "1") TypeScriptServiceHost_new))).
Proof.
  apply (reachable_up_to_date
           (final (updateAnalyzedModules (env 0 "1") TypeScriptServiceHost_new))).
  - apply Reachable_updateAnalyzedModules, Reachable_new.
  - vm_compute. reflexivity.
Defined.


(** A context that is no file of the program. *)
Lemma getAnalyzedModules_no_context_lost :
  outcome (getAnalyzedModules (env 0 "1") lostHost)
  = Throw (mkError "Internal error: no context could be determined").
Proof.
  apply (getAnalyzedModules_no_context (env 0 "1") lostHost); reflexivity.
Defined.

(** The resolver, asked for again after a query. *)
Lemma resolver_memoized_queried :
  resolver (env 0 "1") (final (resolver (env 0 "1") queried))
  = {| outcome := Ret CompileMetadataResolver_new;
       final := final (resolver (env 0 "1") queried);
       events := [EvValidate; EvRead F_resolver] |}.
Proof.
  apply (resolver_memoized (env 0 "1") queried CompileMetadataResolver_new).
  - vm_compute. eexists. reflexivity.
  - vm_compute. reflexivity.
Defined.

(** The resolver of a new host. *)
Lemma resolver_first_call_new :
  _resolver (validate (env 0 "1")
               (final (resolver (env 0 "1") TypeScriptServiceHost_new))) = None.
Proof.
  apply (resolver_first_call (env 0 "1") TypeScriptServiceHost_new
           CompileMetadataResolver_new); first [reflexivity | discriminate].
Defined.

(** The template of [AppComponent] in [app.html]. *)
Lemma getTemplateReferences_memoized_template :
  getTemplateReferences (env 1 "2") templateHost
  = {| outcome := Ret (Some ["app.html"]); final := templateHost;
       events := [EvRead F_fileToComponent; EvRead F_templateReferences;
                  EvRead F_templateReferences] |}.
Proof.
  apply (getTemplateReferences_memoized (env 1 "2") templateHost
           {[ "app.html" := {| filePath := "app.ts"; symbolName := "AppComponent" |} ]});
    reflexivity.
Defined.

Lemma getTemplateAt_external_template_app :
  outcome (getTemplateAt "app.html" 3 templateEnv templateHost)
  = Ret (Some {| version := "1";
                 source := Some "<p>hi</p>";
                 span := {| start := 0; end_ := 9 |};
                 type := {| filePath := "app.ts"; symbolName := "AppComponent" |} |}).
Proof.
  apply (getTemplateAt_external_template templateEnv templateHost "app.html" 3
           {[ "app.html" := {| filePath := "app.ts"; symbolName := "AppComponent" |} ]}
           ["app.html"] {| filePath := "app.ts"; symbolName := "AppComponent" |}
           app_ts [] [] (classDeclaration 0 "AppComponent" "template")
           (className 0 "AppComponent") "<p>hi</p>"); try reflexivity.
  constructor.
Defined.

(** [old.ts] has no string literal. *)
Lemma getTemplates_without_literals_old :
  outcome (getTemplates "old.ts" (env 0 "1") templateHost) = Ret None.
Proof.
  apply (getTemplates_without_literals (env 0 "1") templateHost "old.ts"
           {[ "app.html" := {| filePath := "app.ts"; symbolName := "AppComponent" |} ]}
           ["app.html"] old_ts); reflexivity.
Defined.

End MoreExamples.
